(** * Client-side localization: key resolver, DOM synchronizer, toggle widget
      and localization engine

    A shallow embedding of [localization/simple-toggle.js] (the class
    [SimpleLanguageToggle]), [core/localization-engine.js] (the class
    [LocalizationEngine]) and [config/supported-languages.js], together with
    the properties the specification states about them.

    Conventions.
    - A JavaScript string is a sequence of code units; it is modelled by
      [string], whose units are 8-bit characters.  Every string operation the
      code uses ([split], [includes], indexing, [length], [===]) works unit by
      unit, so nothing below depends on the width of a unit.
    - A function that can raise returns an [outcome].  A method that mutates
      the page and can raise half-way returns the page it leaves behind
      together with whether it raised.
    - An [async] method is followed from its call to its end; no other call
      runs in between.
    - The built-in objects of the JavaScript host (prototypes and their
      members) are a parameter, [Host]: the theorems hold for every host. *)

From Stdlib Require Import String Ascii List Bool Arith Lia.
From Stdlib Require Import DecimalString.
From stdpp Require Import base option gmap strings.
Import ListNotations.
Local Open Scope string_scope.
Set Warnings "-register-all".

(** ** Outcomes: a value, or an exception *)

Inductive outcome (A : Type) : Type :=
| Ok (a : A)
| Raise.
Arguments Ok {A} a.
Arguments Raise {A}.

#[global] Instance outcome_ret : MRet outcome := fun _ a => Ok a.
#[global] Instance outcome_bind : MBind outcome := fun _ _ f m =>
  match m with
  | Ok a => f a
  | Raise => Raise
  end.

#[global] Instance outcome_fmap : FMap outcome := fun _ _ f m =>
  match m with
  | Ok a => Ok (f a)
  | Raise => Raise
  end.

(** [try { m } catch { handler }] *)
Definition try_catch {A} (m : outcome A) (handler : outcome A) : outcome A :=
  match m with
  | Ok a => Ok a
  | Raise => handler
  end.

(** ** Strings as JavaScript uses them *)

Module Str.

(** [s.split(sep)] for a one-unit separator: never the empty list. *)
Fixpoint split (sep : ascii) (s : string) : list string :=
  match s with
  | EmptyString => [""]
  | String c rest =>
      if Ascii.eqb c sep then "" :: split sep rest
      else match split sep rest with
           | seg :: segs => String c seg :: segs
           | [] => [String c ""]
           end
  end.

(** [segs.join(sep)] *)
Fixpoint join (sep : ascii) (segs : list string) : string :=
  match segs with
  | [] => ""
  | [seg] => seg
  | seg :: rest => seg ++ String sep (join sep rest)
  end.

(** [s.includes(sub)] *)
Fixpoint includes (sub s : string) : bool :=
  String.prefix sub s ||
  match s with
  | EmptyString => false
  | String _ rest => includes sub rest
  end.

Definition is_digit (c : ascii) : bool :=
  let n := nat_of_ascii c in ((48 <=? n)%nat && (n <=? 57)%nat)%bool.

Fixpoint all_digits (s : string) : bool :=
  match s with
  | EmptyString => true
  | String c rest => is_digit c && all_digits rest
  end.

Fixpoint digits_value (acc : nat) (s : string) : nat :=
  match s with
  | EmptyString => acc
  | String c rest => digits_value (10 * acc + (nat_of_ascii c - 48)) rest
  end.

(** A property name is an array index when it is the canonical decimal form
    of a natural number: digits only and no leading zero. *)
Definition array_index (k : string) : option nat :=
  match k with
  | EmptyString => None
  | String c rest =>
      if all_digits k && (negb (Ascii.eqb c "0"%char) || String.eqb rest "")
      then Some (digits_value 0 k) else None
  end.

(** The decimal form of a natural number, as [String(n)] gives it. *)
Definition of_nat (n : nat) : string :=
  NilEmpty.string_of_uint (Nat.to_uint n).

Definition lower_unit (c : ascii) : ascii :=
  let n := nat_of_ascii c in
  if ((65 <=? n)%nat && (n <=? 90)%nat)%bool then ascii_of_nat (n + 32) else c.

(** ASCII lower-casing, as HTML applies it to enumerated attribute values. *)
Fixpoint lower (s : string) : string :=
  match s with
  | EmptyString => EmptyString
  | String c rest => String (lower_unit c) (lower rest)
  end.

End Str.

(** ** JavaScript values *)

(** A translation tree, as [JSON.parse] builds it from a language file: a
    string leaf, or an object with its own entries.  An entry is found by its
    key; of two entries with one key the first shadows the second. *)
Inductive tree : Type :=
| Leaf (s : string)
| Node (entries : list (string * tree)).

Fixpoint assoc {A} (k : string) (l : list (string * A)) : option A :=
  match l with
  | [] => None
  | (k', a) :: rest => if String.eqb k k' then Some a else assoc k rest
  end.

(** The values a property walk can meet: the primitives, a parsed object, and
    the built-in objects and functions of the host. *)
Inductive val : Type :=
| VUndefined
| VNull
| VBool (b : bool)
| VNum (n : nat)
| VStr (s : string)
| VObj (entries : list (string * tree))
| VBuiltinObj (name : string)
| VBuiltinFn (name : string).

Definition of_tree (t : tree) : val :=
  match t with
  | Leaf s => VStr s
  | Node entries => VObj entries
  end.

(** [if (v)] *)
Definition truthy (v : val) : bool :=
  match v with
  | VUndefined | VNull => false
  | VBool b => b
  | VNum n => negb (n =? 0)%nat
  | VStr s => negb (String.eqb s "")
  | VObj _ | VBuiltinObj _ | VBuiltinFn _ => true
  end.

(** [typeof v === 'object'] *)
Definition typeof_object (v : val) : bool :=
  match v with
  | VNull | VObj _ | VBuiltinObj _ => true
  | _ => false
  end.

Definition is_undefined (v : val) : bool :=
  match v with
  | VUndefined => true
  | _ => false
  end.

(** The host's built-ins.
    - [builtin_prop v k]: the property [k] that [v] does not carry itself:
      found on the prototype chain of [v] (or on [v], when [v] is a built-in).
      [None]: there is no such property; [Some Raise]: reading it raises.
    - [call_builtin f this args]: calling the built-in function [f].
    - [to_dom_string v]: conversion of a value that is not a string to the
      string a DOM property setter stores.
    - [finite_number v]: conversion of a value to the number a numeric DOM
      property setter stores: whether [Number(v)] is finite, or the
      exception that the conversion raises. *)
Record Host : Type := {
  builtin_prop : val -> string -> option (outcome val);
  call_builtin : string -> val -> list val -> outcome val;
  to_dom_string : val -> outcome string;
  finite_number : val -> outcome bool
}.

Section Properties.
Variable h : Host.

(** The own properties of a string: its units by index, and [length]. *)
Definition str_own (s : string) (k : string) : option val :=
  if String.eqb k "length" then Some (VNum (String.length s))
  else match Str.array_index k with
       | Some i => match String.get i s with
                   | Some c => Some (VStr (String c ""))
                   | None => None
                   end
       | None => None
       end.

Definition own_prop (v : val) (k : string) : option val :=
  match v with
  | VObj entries => of_tree <$> assoc k entries
  | VStr s => str_own s k
  | _ => None
  end.

(** [v[k]] *)
Definition get_prop (v : val) (k : string) : outcome val :=
  match v with
  | VUndefined | VNull => Raise
  | _ => match own_prop v k with
         | Some x => Ok x
         | None => match builtin_prop h v k with
                   | Some r => r
                   | None => Ok VUndefined
                   end
         end
  end.

(** [k in v], for an object [v] *)
Definition has_prop (v : val) (k : string) : bool :=
  match own_prop v k with
  | Some _ => true
  | None => match builtin_prop h v k with
            | Some _ => true
            | None => false
            end
  end.

(** [v.includes(sub)]: on a string, [String.prototype.includes]; on any
    other value the property [includes] is read and called. *)
Definition call_includes (v : val) (sub : string) : outcome val :=
  match v with
  | VStr s => Ok (VBool (Str.includes sub s))
  | _ => f ← get_prop v "includes";
         match f with
         | VBuiltinFn name => call_builtin h name v [VStr sub]
         | _ => Raise
         end
  end.

(** The string a DOM setter stores for [v]. *)
Definition dom_string (v : val) : outcome string :=
  match v with
  | VStr s => Ok s
  | _ => to_dom_string h v
  end.

End Properties.

(** A host with the standard members of [Object.prototype],
    [String.prototype] and [Function.prototype], for closed examples.  A real
    host has more members; the theorems below quantify over every host and
    do not depend on this table. *)
Module StandardHost.

Definition object_prototype_members : list string :=
  ["constructor"; "hasOwnProperty"; "isPrototypeOf"; "propertyIsEnumerable";
   "toLocaleString"; "toString"; "valueOf"; "__defineGetter__";
   "__defineSetter__"; "__lookupGetter__"; "__lookupSetter__"].

Definition string_prototype_members : list string :=
  ["at"; "charAt"; "charCodeAt"; "codePointAt"; "concat"; "endsWith";
   "includes"; "indexOf"; "lastIndexOf"; "localeCompare"; "match";
   "matchAll"; "normalize"; "padEnd"; "padStart"; "repeat"; "replace";
   "replaceAll"; "search"; "slice"; "split"; "startsWith"; "substring";
   "toLowerCase"; "toUpperCase"; "toLocaleLowerCase"; "toLocaleUpperCase";
   "trim"; "trimStart"; "trimEnd"; "substr"].

Definition function_prototype_members : list string :=
  ["apply"; "bind"; "call"].

Definition mem (k : string) (l : list string) : bool :=
  existsb (String.eqb k) l.

Definition from_object_prototype (k : string) : option (outcome val) :=
  if String.eqb k "__proto__" then Some (Ok (VBuiltinObj "Object.prototype"))
  else if mem k object_prototype_members
       then Some (Ok (VBuiltinFn ("Object.prototype." ++ k)))
       else None.

Definition prop (v : val) (k : string) : option (outcome val) :=
  match v with
  | VUndefined | VNull => None
  | VStr _ =>
      if String.eqb k "__proto__" then Some (Ok (VBuiltinObj "String.prototype"))
      else if mem k string_prototype_members
           then Some (Ok (VBuiltinFn ("String.prototype." ++ k)))
           else from_object_prototype k
  | VBuiltinFn _ =>
      (* the restricted properties of a strict function raise on access *)
      if String.eqb k "caller" || String.eqb k "arguments" then Some Raise
      else if mem k function_prototype_members
           then Some (Ok (VBuiltinFn ("Function.prototype." ++ k)))
           else from_object_prototype k
  | VBuiltinObj name =>
      if String.eqb name "Object.prototype" && String.eqb k "__proto__"
      then Some (Ok VNull)
      else from_object_prototype k
  | VBool _ | VNum _ | VObj _ => from_object_prototype k
  end.

Definition dom_string_of (v : val) : outcome string :=
  match v with
  | VUndefined => Ok "undefined"
  | VNull => Ok "null"
  | VBool true => Ok "true"
  | VBool false => Ok "false"
  | VNum n => Ok (Str.of_nat n)
  | VStr s => Ok s
  | VObj entries =>
      (* an own [toString] entry is not callable: no primitive is reached *)
      match assoc "toString" entries with
      | Some _ => Raise
      | None => Ok "[object Object]"
      end
  | VBuiltinObj _ => Ok "[object Object]"
  | VBuiltinFn name => Ok ("function " ++ name ++ "() { [native code] }")
  end.

(** No closed example below calls a built-in function or sets a numeric
    property. *)
Definition es_host : Host :=
  {| builtin_prop := prop;
     call_builtin := fun _ _ _ => Raise;
     to_dom_string := dom_string_of;
     finite_number := fun _ => Raise |}.

End StandardHost.

(** [localStorage]: in a browsing context that denies storage every access
    raises. *)
Inductive storage : Type :=
| Unavailable
| Store (items : gmap string string).

Definition getItem (s : storage) (k : string) : outcome (option string) :=
  match s with
  | Unavailable => Raise
  | Store items => Ok (items !! k)
  end.

Definition setItem (s : storage) (k v : string) : outcome storage :=
  match s with
  | Unavailable => Raise
  | Store items => Ok (Store (<[k := v]> items))
  end.


(** ** The document *)

Module Dom.

(** An element: its tag name (upper case, as [tagName] reports it for HTML),
    its content attributes, and the properties kept on the element object
    that are not content attributes: [value], and [placeholder] on an element
    that does not reflect it.  The [value] slot holds what the setter of
    [value] has accepted; it abstracts from what each control then does with
    it (sanitising it, reflecting it, selecting an option, converting it to
    a number). *)
Record element : Type := {
  tagName : string;
  attributes : gmap string string;
  props : gmap string val
}.

Inductive node : Type :=
| Text (data : string)
| Element (e : element) (children : list node).

(** The browser: the JavaScript host, and the HTML fragment parser that
    [innerHTML] runs, given the tag name of the context element. *)
Record Browser : Type := {
  js :> Host;
  parse_fragment : string -> string -> list node
}.

Definition getAttribute (e : element) (name : string) : option string :=
  attributes e !! name.

Definition hasAttribute (e : element) (name : string) : bool :=
  bool_decide (is_Some (attributes e !! name)).

Definition setAttribute (e : element) (name v : string) : element :=
  {| tagName := tagName e;
     attributes := <[name := v]> (attributes e);
     props := props e |}.

Definition set_prop (e : element) (name : string) (v : val) : element :=
  {| tagName := tagName e;
     attributes := attributes e;
     props := <[name := v]> (props e) |}.

Definition input_types : list string :=
  ["hidden"; "text"; "search"; "tel"; "url"; "email"; "password"; "date";
   "month"; "week"; "time"; "datetime-local"; "number"; "range"; "color";
   "checkbox"; "radio"; "file"; "submit"; "image"; "reset"; "button"].

(** [input.type]: the [type] attribute limited to the known keywords. *)
Definition input_type (e : element) : string :=
  match getAttribute e "type" with
  | Some t => if existsb (String.eqb (Str.lower t)) input_types
              then Str.lower t else "text"
  | None => "text"
  end.

(** [placeholder] reflects the content attribute on [input] and [textarea];
    on any other element it is an ordinary property of the object. *)
Definition reflects_placeholder (e : element) : bool :=
  String.eqb (tagName e) "INPUT" || String.eqb (tagName e) "TEXTAREA".

Definition has_value_property (e : element) : bool :=
  existsb (String.eqb (tagName e))
    ["INPUT"; "TEXTAREA"; "SELECT"; "BUTTON"; "OPTION"; "OUTPUT"; "DATA"; "PARAM"].

(** [value] is a number on [progress], [meter] and [li]. *)
Definition has_numeric_value (e : element) : bool :=
  existsb (String.eqb (tagName e)) ["PROGRESS"; "METER"; "LI"].

(** On [progress] and [meter] the number is a [double] that has to be
    finite; on [li] it is a [long], which every number converts to. *)
Definition needs_finite_value (e : element) : bool :=
  existsb (String.eqb (tagName e)) ["PROGRESS"; "METER"].

Section Setters.
Variable b : Browser.

(** [element.placeholder = v] *)
Definition set_placeholder (e : element) (v : val) : outcome element :=
  if reflects_placeholder e
  then s ← dom_string b v; Ok (setAttribute e "placeholder" s)
  else Ok (set_prop e "placeholder" v).

(** [element.value = v].  A file input accepts the empty string only
    (any other string raises an [InvalidStateError]); a numeric [value]
    converts [v] to a number and, on [progress] and [meter], raises a
    [TypeError] unless the number is finite; the other controls convert [v]
    to a string; on an element without a [value] of its own the assignment
    creates an ordinary property. *)
Definition set_value (e : element) (v : val) : outcome element :=
  if String.eqb (tagName e) "INPUT" && String.eqb (input_type e) "file"
  then s ← dom_string b v;
       if String.eqb s "" then Ok (set_prop e "value" (VStr s)) else Raise
  else if has_numeric_value e
  then finite ← finite_number b v;
       if negb finite && needs_finite_value e then Raise
       else Ok (set_prop e "value" v)
  else if has_value_property e
  then s ← dom_string b v; Ok (set_prop e "value" (VStr s))
  else Ok (set_prop e "value" v).

(** [element.textContent = v]: the children are replaced by one text node,
    or by nothing when the string is empty. *)
Definition set_textContent (v : val) : outcome (list node) :=
  s ← dom_string b v;
  Ok (if String.eqb s "" then [] else [Text s]).

(** [element.innerHTML = v]: the children are replaced by the parsed
    fragment. *)
Definition set_innerHTML (e : element) (v : val) : outcome (list node) :=
  s ← dom_string b v;
  Ok (parse_fragment b (tagName e) s).

End Setters.

(** [node.textContent], read: the text of the descendants in document order. *)
Fixpoint textContent (n : node) : string :=
  match n with
  | Text data => data
  | Element _ children =>
      (fix all (l : list node) : string :=
         match l with
         | [] => ""
         | c :: rest => textContent c ++ all rest
         end) children
  end.

(** What a callback does to the element it is called on. *)
Inductive effect : Type :=
| Unchanged
| Update (e : element)
| Replace (children : list node).

(** [document.querySelectorAll('[attr]').forEach(callback)] on the subtree
    [n], paired with whether a callback raised.

    The list is static and in document order.  A callback that replaces the
    children of its element detaches the old children from the document:
    the callbacks of marked elements among them still run, and can raise, but
    what they write is no longer part of the document.  A callback that
    raises ends the loop: the elements after it are not visited. *)
Fixpoint forEach (attr : string) (callback : element -> string -> outcome effect)
    (n : node) : node * bool :=
  match n with
  | Text _ => (n, false)
  | Element e children =>
      let each :=
        fix each (l : list node) : list node * bool :=
          match l with
          | [] => ([], false)
          | c :: rest =>
              let '(c', raised) := forEach attr callback c in
              if raised then (c' :: rest, true)
              else let '(rest', raised') := each rest in (c' :: rest', raised')
          end in
      match getAttribute e attr with
      | None =>
          let '(children', raised) := each children in
          (Element e children', raised)
      | Some key =>
          match callback e key with
          | Raise => (n, true)
          | Ok Unchanged =>
              let '(children', raised) := each children in
              (Element e children', raised)
          | Ok (Update e') =>
              let '(children', raised) := each children in
              (Element e' children', raised)
          | Ok (Replace new_children) =>
              let '(_, raised) := each children in
              (Element e new_children, raised)
          end
      end
  end.

(** The loop of [forEach] over a list of siblings. *)
Fixpoint forEach_list (attr : string) (callback : element -> string -> outcome effect)
    (l : list node) : list node * bool :=
  match l with
  | [] => ([], false)
  | c :: rest =>
      let '(c', raised) := forEach attr callback c in
      if raised then (c' :: rest, true)
      else let '(rest', raised') := forEach_list attr callback rest in
           (c' :: rest', raised')
  end.

End Dom.

(** ** [SimpleLanguageToggle] (simple-toggle.js) *)

Module SimpleLanguageToggle.
Import Dom.

(** [this]: [translations] is [{}] at construction and
    [{en: ..., ar: ...}] once [loadTranslations] has succeeded. *)
Record toggle : Type := {
  containerId : string;
  currentLanguage : string;
  translations : list (string * tree)
}.

(** The elements [createToggle] puts into the container: the button with its
    [data-current-lang] attribute and inline direction, the container of the
    two options, the options, and the sliding background. *)
Record widget : Type := {
  data_current_lang : string;
  button_direction : option string;
  flex_direction : option string;
  option_text : string * string;
  option_classes : list string * list string;
  slider_classes : list string;
  slider_style : gmap string string
}.

(** The page: the root element and its children, the widget when
    [createToggle] found its container, the inline style of the first
    [header] element when there is one, and the [languageChanged] events
    dispatched so far, each with its [from] and [to].  The widget and the
    header carry no markers; their state is kept next to the tree.  This
    covers the pages on which the container of the widget and the header
    lie outside every element whose content a text marker replaces: inside
    such an element they would leave the document with its old content. *)
Record page : Type := {
  html : element;
  content : list node;
  toggle_widget : option widget;
  header_style : option (gmap string string);
  dispatched : list (string * string)
}.

(** [classList.add] and [classList.remove] *)
Definition class_add (c : string) (l : list string) : list string :=
  if existsb (String.eqb c) l then l else l ++ [c].

Definition class_remove (c : string) (l : list string) : list string :=
  List.filter (fun x => negb (String.eqb c x)) l.

Section Methods.
Variable b : Browser.
Variable this : toggle.

(** The loop of [getTranslation]:
    [for (const k of keys) { if (value && value[k] !== undefined) value = value[k]; else return null; } return value;] *)
Fixpoint resolve (value : val) (keys : list string) : outcome val :=
  match keys with
  | [] => Ok value
  | k :: rest =>
      if truthy value then
        next ← get_prop b value k;
        if is_undefined next then Ok VNull else resolve next rest
      else Ok VNull
  end.

Definition getTranslation (key language : string) : outcome val :=
  let keys := Str.split "." key in
  value ← get_prop b (VObj (translations this)) language;
  resolve value keys.

(** [findPartialTranslation]: the matches are collected and dropped. *)
Definition findPartialTranslation (key language : string) : outcome unit :=
  let keys := Str.split "." key in
  (fix loop (indices : list nat) : outcome unit :=
     match indices with
     | [] => Ok tt
     | i :: rest =>
         let partialKey := Str.join "." (take i keys) in
         _ ← getTranslation partialKey language;
         loop rest
     end) (seq 1 (length keys - 1)).

(** The callback of the [data-i18n] loop. *)
Definition text_callback (language : string) (element : element) (key : string)
  : outcome effect :=
  translation ← getTranslation key language;
  if truthy translation then
    if String.eqb (tagName element) "INPUT"
       && String.eqb (input_type element) "placeholder"
    then Update <$> set_placeholder b element translation
    else if hasAttribute element "placeholder"
    then Update <$> set_placeholder b element translation
    else
      lt ← call_includes b translation "<";
      markup ← (if truthy lt
                then gt ← call_includes b translation ">"; Ok (truthy gt)
                else Ok false);
      if markup : bool
      then Replace <$> set_innerHTML b element translation
      else Replace <$> set_textContent b translation
  else
    _ ← findPartialTranslation key language;
    Ok Unchanged.

(** The callback of the [data-i18n-placeholder] loop. *)
Definition placeholder_callback (language : string) (element : element)
    (key : string) : outcome effect :=
  translation ← getTranslation key language;
  if truthy translation
  then Update <$> set_placeholder b element translation
  else Ok Unchanged.

(** The callback of the [data-i18n-value] loop. *)
Definition value_callback (language : string) (element : element)
    (key : string) : outcome effect :=
  translation ← getTranslation key language;
  if truthy translation
  then Update <$> set_value b element translation
  else Ok Unchanged.

(** [Object.keys(v).length]: the built-ins have no enumerable own key. *)
Definition keys_length (v : val) : nat :=
  match v with
  | VObj entries => length (remove_dups entries.*1)
  | VStr s => String.length s
  | _ => 0
  end.

(** [applyTranslations(language)] on the document under [root]: the
    document afterwards, and whether the call raised.  The closing loop
    over the FAQ elements only reads an attribute. *)
Definition applyTranslations (language : string) (root : node) : node * bool :=
  match get_prop b (VObj (translations this)) language with
  | Raise => (root, true)
  | Ok loaded =>
      if negb (truthy loaded) then (root, false)
      else if negb (truthy loaded) || (keys_length loaded =? 0)%nat
      then (root, false)
      else
        let '(root1, raised1) := forEach "data-i18n" (text_callback language) root in
        if raised1 then (root1, true) else
        let '(root2, raised2) :=
          forEach "data-i18n-placeholder" (placeholder_callback language) root1 in
        if raised2 then (root2, true) else
        forEach "data-i18n-value" (value_callback language) root2
  end.

End Methods.

(** [updateToggleLayout(language)]: raises when the button is not there. *)
Definition updateToggleLayout (language : string) (p : page) : outcome page :=
  match toggle_widget p with
  | None => Raise
  | Some w =>
      let html' :=
        if String.eqb language "ar" then setAttribute (html p) "lang" "ar"
        else setAttribute (html p) "lang" "en" in
      let cleared := delete "transform" (delete "left" (slider_style w)) in
      let w' :=
        if String.eqb language "ar" then
          {| data_current_lang := data_current_lang w;
             button_direction := Some "ltr";
             flex_direction := Some "row";
             option_text := ("EN", "العربية");
             option_classes :=
               (class_add "inactive" (class_remove "active" (option_classes w).1),
                class_add "active" (class_remove "inactive" (option_classes w).2));
             slider_classes := class_add "slide-right" (slider_classes w);
             slider_style := cleared |}
        else
          {| data_current_lang := data_current_lang w;
             button_direction := Some "ltr";
             flex_direction := Some "row";
             option_text := ("EN", "العربية");
             option_classes :=
               (class_add "active" (class_remove "inactive" (option_classes w).1),
                class_add "inactive" (class_remove "active" (option_classes w).2));
             slider_classes := class_remove "slide-right" (slider_classes w);
             slider_style := cleared |} in
      Ok {| html := html';
            content := content p;
            toggle_widget := Some w';
            header_style := header_style p;
            dispatched := dispatched p |}
  end.

(** [getStoredLanguage] *)
Definition getStoredLanguage (ls : storage) : string :=
  match getItem ls "marln_language_preference" with
  | Ok stored =>
      match stored with
      | Some s => if String.eqb s "ar" then "ar" else "en"
      | None => "en"
      end
  | Raise => "en"
  end.

(** [saveLanguagePreference]: a failure is swallowed. *)
Definition saveLanguagePreference (ls : storage) (language : string) : storage :=
  match setItem ls "marln_language_preference" language with
  | Ok ls' => ls'
  | Raise => ls
  end.

(** The state [toggleLanguage] works on. *)
Record state : Type := {
  this_ : toggle;
  localStorage : storage;
  document : page
}.

Definition with_root (p : page) (root : node) : page :=
  match root with
  | Element e children =>
      {| html := e; content := children; toggle_widget := toggle_widget p;
         header_style := header_style p; dispatched := dispatched p |}
  | Text _ => p
  end.

(** [toggleLanguage()]: the state afterwards, and whether the call raised. *)
Definition toggleLanguage (b : Browser) (s : state) : state * bool :=
  match toggle_widget (document s) with
  | None => (s, true)
  | Some w =>
      let oldLang := currentLanguage (this_ s) in
      let newLang := if String.eqb (currentLanguage (this_ s)) "en" then "ar" else "en" in
      let w1 :=
        {| data_current_lang := newLang;
           button_direction := button_direction w;
           flex_direction := flex_direction w;
           option_text := option_text w;
           option_classes := option_classes w;
           slider_classes := slider_classes w;
           slider_style := slider_style w |} in
      let this1 :=
        {| containerId := containerId (this_ s);
           currentLanguage := newLang;
           translations := translations (this_ s) |} in
      let ls1 := saveLanguagePreference (localStorage s) newLang in
      let p1 :=
        {| html := html (document s); content := content (document s);
           toggle_widget := Some w1; header_style := header_style (document s);
           dispatched := dispatched (document s) |} in
      let '(root2, raised) :=
        applyTranslations b this1 newLang (Element (html p1) (content p1)) in
      let p2 := with_root p1 root2 in
      if raised
      then ({| this_ := this1; localStorage := ls1; document := p2 |}, true)
      else
        match updateToggleLayout newLang p2 with
        | Raise => ({| this_ := this1; localStorage := ls1; document := p2 |}, true)
        | Ok p3 =>
            let header' :=
              (fun style => <["text-align" := "left"]> (<["direction" := "ltr"]> style))
                <$> header_style p3 in
            let p4 :=
              {| html := html p3; content := content p3;
                 toggle_widget := toggle_widget p3;
                 header_style := header';
                 dispatched := dispatched p3 ++ [(oldLang, newLang)] |} in
            ({| this_ := this1; localStorage := ls1; document := p4 |}, false)
        end
  end.

(** *** Loading the language files, and the constructor *)

(** What [fetch(url)] and then [response.json()] give: the request fails; or
    a response arrives, [ok] or not, whose body parses to a tree or does not
    parse. *)
Inductive response : Type :=
| NetworkError
| Response (ok : bool) (json : option tree).

Definition possiblePaths : list string :=
  ["./localization/languages/"; "/localization/languages/";
   "../localization/languages/"; "../../localization/languages/"].

(** The loop of [loadTranslations] over the paths, from what [enData] and
    [arData] hold so far ([None]: [undefined]).  A failed request, a
    response that is not [ok] and a body that does not parse all go on with
    the next path; the Arabic file is asked for only after the English one
    of the same path has been parsed; the loop ends at the first path that
    gives both. *)
Fixpoint try_paths (fetch : string → response) (paths : list string)
    (enData arData : option tree) : option tree * option tree :=
  match paths with
  | [] => (enData, arData)
  | path :: rest =>
      match fetch (path ++ "en.json") with
      | Response true (Some en) =>
          match fetch (path ++ "ar.json") with
          | Response true (Some ar) => (Some en, Some ar)
          | _ => try_paths fetch rest (Some en) arData
          end
      | _ => try_paths fetch rest enData arData
      end
  end.

(** [loadTranslations()]: the value it assigns to [this.translations], or
    the error it throws. *)
Definition loadTranslations (fetch : string → response)
  : outcome (list (string * tree)) :=
  match try_paths fetch possiblePaths None None with
  | (Some enData, Some arData) =>
      if negb (truthy (of_tree enData)) || negb (truthy (of_tree arData))
      then Raise
      else Ok [("en", enData); ("ar", arData)]
  | _ => Raise
  end.

(** The widget as the markup of [createToggle] describes it.  The current
    language is "en" or "ar" whenever the markup is built. *)
Definition created (currentLanguage : string) : widget :=
  let isArabic := String.eqb currentLanguage "ar" in
  {| data_current_lang := currentLanguage;
     button_direction := None;
     flex_direction := None;
     option_text := ("EN", "العربية");
     option_classes :=
       (["lang-option"; if isArabic then "inactive" else "active"],
        ["lang-option"; if isArabic then "active" else "inactive"]);
     slider_classes := ["slider-bg"];
     slider_style := ∅ |}.

(** [createToggle()].  [container] tells whether
    [document.getElementById(this.containerId)] finds an element; the
    markup assigned to its [innerHTML] replaces whatever widget it held.
    The container id is taken to be an identifier, so that the selector
    [#id .toggle-button] built from it finds the button of that markup. *)
Definition createToggle (container : bool) (this : toggle) (p : page)
  : outcome page :=
  if negb container then Ok p
  else updateToggleLayout (currentLanguage this)
         {| html := html p; content := content p;
            toggle_widget := Some (created (currentLanguage this));
            header_style := header_style p;
            dispatched := dispatched p |}.

Definition set_translations (this : toggle) (t : list (string * tree)) : toggle :=
  {| containerId := containerId this;
     currentLanguage := currentLanguage this;
     translations := t |}.

(** [init()]: the state when the promise chain has settled, and whether it
    settled as rejected.  [setupEventListeners] adds the listeners to the
    button when there is one and changes nothing else.  The handler of
    [catch] runs when [loadTranslations] fails and when the handler of
    [then] raises, on what that handler has done so far. *)
Definition init (b : Browser) (fetch : string → response) (container : bool)
    (s : state) : state * bool :=
  let rejected (s : state) : state * bool :=
    match createToggle container (this_ s) (document s) with
    | Raise => (s, true)
    | Ok p1 =>
        let s1 := {| this_ := this_ s; localStorage := localStorage s;
                     document := p1 |} in
        match updateToggleLayout (currentLanguage (this_ s)) p1 with
        | Raise => (s1, true)
        | Ok p2 =>
            ({| this_ := this_ s; localStorage := localStorage s;
                document := p2 |}, false)
        end
    end in
  match loadTranslations fetch with
  | Raise => rejected s
  | Ok t =>
      let this1 := set_translations (this_ s) t in
      match createToggle container this1 (document s) with
      | Raise =>
          rejected {| this_ := this1; localStorage := localStorage s;
                      document := document s |}
      | Ok p1 =>
          let '(root2, raised) :=
            applyTranslations b this1 (currentLanguage this1)
              (Element (html p1) (content p1)) in
          let s2 := {| this_ := this1; localStorage := localStorage s;
                       document := with_root p1 root2 |} in
          if raised then rejected s2
          else
            match updateToggleLayout (currentLanguage this1) (document s2) with
            | Raise => rejected s2
            | Ok p3 =>
                ({| this_ := this1; localStorage := localStorage s;
                    document := p3 |}, false)
            end
      end
  end.

(** [new SimpleLanguageToggle(containerId)] *)
Definition constructor (b : Browser) (fetch : string → response)
    (container : bool) (containerId : string) (ls : storage) (p : page)
  : state * bool :=
  init b fetch container
    {| this_ := {| containerId := containerId;
                   currentLanguage := getStoredLanguage ls;
                   translations := [] |};
       localStorage := ls;
       document := p |}.

(** [classList.contains] *)
Definition class_contains (c : string) (l : list string) : bool :=
  existsb (String.eqb c) l.

End SimpleLanguageToggle.

(** ** The language registry (config/supported-languages.js) and the
       settings (config/settings.js) *)

Module Registry.

Record LanguageInfo : Type := {
  name : string;
  native : string;
  code : string;
  rtl : bool;
  flag : string;
  direction : string;
  dateFormat : string;
  timeFormat : string;
  currency : string;
  locale : string
}.

Definition info (name native code : string) (rtl : bool)
    (flag direction dateFormat timeFormat currency locale : string) : LanguageInfo :=
  {| name := name; native := native; code := code; rtl := rtl; flag := flag;
     direction := direction; dateFormat := dateFormat; timeFormat := timeFormat;
     currency := currency; locale := locale |}.

Definition SUPPORTED_LANGUAGES : list (string * LanguageInfo) :=
  [("en", info "English" "English" "en" false "🇺🇸" "ltr" "MM/DD/YYYY" "12h" "USD" "en-US");
   ("ar", info "Arabic" "العربية" "ar" true "🇸🇦" "rtl" "DD/MM/YYYY" "24h" "SAR" "ar-SA");
   ("es", info "Spanish" "Español" "es" false "🇪🇸" "ltr" "DD/MM/YYYY" "24h" "EUR" "es-ES");
   ("fr", info "French" "Français" "fr" false "🇫🇷" "ltr" "DD/MM/YYYY" "24h" "EUR" "fr-FR");
   ("de", info "German" "Deutsch" "de" false "🇩🇪" "ltr" "DD.MM.YYYY" "24h" "EUR" "de-DE");
   ("zh", info "Chinese" "中文" "zh" false "🇨🇳" "ltr" "YYYY-MM-DD" "24h" "CNY" "zh-CN");
   ("ja", info "Japanese" "日本語" "ja" false "🇯🇵" "ltr" "YYYY-MM-DD" "24h" "JPY" "ja-JP");
   ("ko", info "Korean" "한국어" "ko" false "🇰🇷" "ltr" "YYYY-MM-DD" "24h" "KRW" "ko-KR");
   ("hi", info "Hindi" "हिन्दी" "hi" false "🇮🇳" "ltr" "DD/MM/YYYY" "24h" "INR" "hi-IN");
   ("pt", info "Portuguese" "Português" "pt" false "🇵🇹" "ltr" "DD/MM/YYYY" "24h" "EUR" "pt-PT")].

(** What [SUPPORTED_LANGUAGES[key]] evaluates to: the entry of the registry,
    a member the registry object inherits from the built-in prototype of
    plain objects, or [undefined]. *)
Inductive entry : Type :=
| Info (i : LanguageInfo)
| Inherited (v : val)
| Absent.

Section Lookup.
Variable h : Host.

(** [SUPPORTED_LANGUAGES[key]] *)
Definition lookup (key : string) : outcome entry :=
  match assoc key SUPPORTED_LANGUAGES with
  | Some i => Ok (Info i)
  | None =>
      match builtin_prop h (VObj []) key with
      | Some r => v ← r; Ok (Inherited v)
      | None => Ok Absent
      end
  end.

Definition entry_truthy (e : entry) : bool :=
  match e with
  | Info _ => true
  | Inherited v => truthy v
  | Absent => false
  end.

(** [entry.rtl], as a condition *)
Definition entry_rtl (e : entry) : outcome bool :=
  match e with
  | Info i => Ok (rtl i)
  | Inherited v => r ← get_prop h v "rtl"; Ok (truthy r)
  | Absent => Raise
  end.

(** [getLanguageInfo(code)]: [SUPPORTED_LANGUAGES[code] || SUPPORTED_LANGUAGES.en] *)
Definition getLanguageInfo (key : string) : outcome entry :=
  e ← lookup key;
  if entry_truthy e then Ok e else lookup "en".

(** [isRTL(code)]: [SUPPORTED_LANGUAGES[code]?.rtl || false], as a
    condition *)
Definition isRTL (key : string) : outcome bool :=
  e ← lookup key;
  match e with
  | Absent => Ok false
  | Inherited (VUndefined | VNull) => Ok false
  | _ => entry_rtl e
  end.

(** [getDirection(code)]: [SUPPORTED_LANGUAGES[code]?.direction || 'ltr'] *)
Definition getDirection (key : string) : outcome val :=
  e ← lookup key;
  d ← match e with
       | Info i => Ok (VStr (direction i))
       | Inherited (VUndefined | VNull) => Ok VUndefined
       | Inherited v => get_prop h v "direction"
       | Absent => Ok VUndefined
       end;
  Ok (if truthy d then d else VStr "ltr").

End Lookup.

(** [getActiveLanguages()], [getFutureLanguages()], [LANGUAGE_GROUPS],
    [DEFAULT_LANGUAGE] *)
Definition getActiveLanguages : list string := ["en"; "ar"].

Definition getFutureLanguages : list string :=
  ["es"; "fr"; "de"; "zh"; "ja"; "ko"; "hi"; "pt"].

Definition LANGUAGE_GROUPS : list (string * list string) :=
  [("primary", ["en"; "ar"]);
   ("european", ["es"; "fr"; "de"; "pt"]);
   ("asian", ["zh"; "ja"; "ko"]);
   ("other", ["hi"])].

Definition DEFAULT_LANGUAGE : string := "en".

(** [RTL_LANGUAGES]:
    [Object.keys(SUPPORTED_LANGUAGES).filter(code => SUPPORTED_LANGUAGES[code].rtl)] *)
Definition RTL_LANGUAGES : list string :=
  List.filter
    (fun code => match assoc code SUPPORTED_LANGUAGES with
                 | Some i => rtl i
                 | None => false
                 end)
    (map fst SUPPORTED_LANGUAGES).

(** [LOCALIZATION_SETTINGS.language] and [PERFORMANCE_SETTINGS] *)
Definition defaultLanguage : string := "en".
Definition fallbackLanguage : string := "en".
Definition urlParameter : string := "lang".
Definition cookieName : string := "marln-lang".
Definition localStorageKey : string := "marln-language".
Definition cacheExpiry : Z := 3600000.
Definition preloadLanguages : list string := ["en"; "ar"].
Definition lazyLoading : bool := true.

End Registry.

(** ** [LocalizationEngine] (core/localization-engine.js) *)

Module LocalizationEngine.
Import Dom.

(** What [emit] hands to the listeners; the listeners are the callers'. *)
Inductive event : Type :=
| Ready (language : option string)
| LanguageChanged (from : option string) (to : string)
| Failure.

(** [this].  [currentLanguage] and [previousLanguage] hold a code or [null].
    A cache entry is the data with its timestamp.  The performance counters
    are left out. *)
Record engine : Type := {
  currentLanguage : option string;
  previousLanguage : option string;
  translations : gmap string tree;
  cache : gmap string (tree * Z);
  isInitialized : bool;
  emitted : list event
}.

(** The document as the engine touches it: the root element with its
    attributes, the class lists of the root and of [document.body] (when
    there is a body), the children of the root, and the inline style of the
    mobile menu container (when there is one).  The body and the menu
    container are children of the root: they are gone once the children of
    the root have been replaced.  The menu container is taken to lie
    outside every other element whose content a text marker replaces. *)
Record page : Type := {
  html : element;
  html_classes : list string;
  body_classes : option (list string);
  content : list node;
  mobile_menu_style : option (gmap string string)
}.

(** The engine's surroundings.  [network code] is what fetching and parsing
    the language file of [code] gives: [None] when the request fails, the
    response is not ok, or the body does not parse.  [requests] lists the
    codes whose file has been fetched.  [now] is [Date.now()]. *)
Record world : Type := {
  network : string -> option tree;
  requests : list string;
  now : Z;
  localStorage : storage;
  cookies : list (string * string);
  search : list (string * string);
  document : page
}.

Definition fresh : engine :=
  {| currentLanguage := Some Registry.defaultLanguage;
     previousLanguage := None;
     translations := ∅;
     cache := ∅;
     isInitialized := false;
     emitted := [] |}.

(** A code as a property key or in a template literal. *)
Definition key_of (c : option string) : string := default "null" c.

Definition set_engine_languages (e : engine) (cur prev : option string) : engine :=
  {| currentLanguage := cur; previousLanguage := prev;
     translations := translations e; cache := cache e;
     isInitialized := isInitialized e; emitted := emitted e |}.

Definition set_translation (e : engine) (c : string) (t : tree) : engine :=
  {| currentLanguage := currentLanguage e; previousLanguage := previousLanguage e;
     translations := <[c := t]> (translations e); cache := cache e;
     isInitialized := isInitialized e; emitted := emitted e |}.

Definition set_cache (e : engine) (c : string) (t : tree) (ts : Z) : engine :=
  {| currentLanguage := currentLanguage e; previousLanguage := previousLanguage e;
     translations := translations e; cache := <[c := (t, ts)]> (cache e);
     isInitialized := isInitialized e; emitted := emitted e |}.

(** [emit(event, data)] *)
Definition emit (e : engine) (ev : event) : engine :=
  {| currentLanguage := currentLanguage e; previousLanguage := previousLanguage e;
     translations := translations e; cache := cache e;
     isInitialized := isInitialized e; emitted := emitted e ++ [ev] |}.

(** [handleError(error)] *)
Definition handleError (e : engine) : engine := emit e Failure.

Definition set_document (w : world) (p : page) : world :=
  {| network := network w; requests := requests w; now := now w;
     localStorage := localStorage w; cookies := cookies w; search := search w;
     document := p |}.

Definition log_request (w : world) (c : string) : world :=
  {| network := network w; requests := requests w ++ [c]; now := now w;
     localStorage := localStorage w; cookies := cookies w; search := search w;
     document := document w |}.

(** The body of [loadLanguage] inside its [try]. *)
Definition loadLanguage_try (e : engine) (w : world) (languageCode : string)
  : engine * world * outcome tree :=
  let fetched :=
    let w' := log_request w languageCode in
    match network w languageCode with
    | None => (e, w', Raise)
    | Some data =>
        let e1 := set_cache e languageCode data (now w) in
        (set_translation e1 languageCode data, w', Ok data)
    end in
  match cache e !! languageCode with
  | Some (data, timestamp) =>
      if bool_decide (now w - timestamp < Registry.cacheExpiry)%Z
      then (set_translation e languageCode data, w, Ok data)
      else fetched
  | None => fetched
  end.

(** [loadLanguage(languageCode)].  The [catch] calls [loadLanguage] again for
    the fallback code unless the failed code is the fallback code; that
    second call cannot recurse further, so it is the body with its error
    passed on. *)
Definition loadLanguage (e : engine) (w : world) (languageCode : string)
  : engine * world * outcome tree :=
  match loadLanguage_try e w languageCode with
  | (e1, w1, Ok data) => (e1, w1, Ok data)
  | (e1, w1, Raise) =>
      if negb (String.eqb languageCode Registry.fallbackLanguage)
      then loadLanguage_try e1 w1 Registry.fallbackLanguage
      else (e1, w1, Raise)
  end.

(** [[name, value] = cookie.trim().split('=')] for each piece of
    [document.cookie.split(';')] *)
Definition cookie_string (jar : list (string * string)) : string :=
  String.concat "; " (map (fun c => c.1 ++ "=" ++ c.2) jar).

Definition is_space (c : ascii) : bool :=
  existsb (Nat.eqb (nat_of_ascii c)) [9; 10; 11; 12; 13; 32; 160].

Fixpoint trim_start (s : string) : string :=
  match s with
  | String c rest => if is_space c then trim_start rest else s
  | EmptyString => s
  end.

Fixpoint trim_end (s : string) : string :=
  match s with
  | EmptyString => EmptyString
  | String c rest =>
      match trim_end rest with
      | EmptyString => if is_space c then EmptyString else String c EmptyString
      | rest' => String c rest'
      end
  end.

Definition trim (s : string) : string := trim_end (trim_start s).

Definition classList_add (c : string) (l : list string) : list string :=
  if existsb (String.eqb c) l then l else l ++ [c].

Definition classList_remove (c : string) (l : list string) : list string :=
  List.filter (fun x => negb (String.eqb c x)) l.

(** [classList.contains] *)
Definition classList_contains (c : string) (l : list string) : bool :=
  existsb (String.eqb c) l.

Section Methods.
Variable b : Browser.

(** The updates of the navigation, the forms and the meta tags write to
    elements below the root that they find by fixed selectors of the
    site's markup; they are taken as they are. *)
Variable updateNavigation : val -> list node -> list node * bool.
Variable updateForms : val -> list node -> list node * bool.
Variable updateMetaTags : option string -> list node -> list node * bool.

(** The loop of [getTranslation]:
    [for (const k of keys) { if (result && typeof result === 'object' && k in result) result = result[k]; else return null; } return result;] *)
Fixpoint resolve (result : val) (keys : list string) : outcome val :=
  match keys with
  | [] => Ok result
  | k :: rest =>
      if truthy result && typeof_object result && has_prop b result k then
        next ← get_prop b result k;
        resolve next rest
      else Ok VNull
  end.

(** [getTranslation(key, translations)]; [stored] is
    [this.translations.get(this.currentLanguage)], read when the argument
    is falsy. *)
Definition getTranslation (stored : val) (key : string) (translations : val)
  : outcome val :=
  try_catch
    (let trans := if truthy translations then translations else stored in
     if negb (truthy trans) then Ok VNull
     else resolve trans (Str.split "." key))
    (Ok VNull).

Definition stored_translations (e : engine) : val :=
  match currentLanguage e with
  | Some c => from_option of_tree VUndefined (translations e !! c)
  | None => VUndefined
  end.

(** The callback of [updateContentWithDataAttributes]. *)
Definition content_callback (e : engine) (translations : val)
    (element : element) (key : string) : outcome effect :=
  translation ← getTranslation (stored_translations e) key translations;
  if truthy translation then
    if String.eqb (tagName element) "INPUT" || String.eqb (tagName element) "TEXTAREA"
    then if hasAttribute element "placeholder"
         then Update <$> set_placeholder b element translation
         else Ok Unchanged
    else Replace <$> set_textContent b translation
  else Ok Unchanged.

(** [updateContentWithDataAttributes(translations)] on the document under
    [root]. *)
Definition updateContentWithDataAttributes (e : engine) (translations : val)
    (root : node) : node * bool :=
  forEach "data-i18n" (content_callback e translations) root.

(** [updateHTMLAttributes()]: the page afterwards, and whether it raised. *)
Definition updateHTMLAttributes (e : engine) (p : page) : page * bool :=
  let cur := key_of (currentLanguage e) in
  match Registry.getLanguageInfo b cur with
  | Raise => (p, true)
  | Ok _ =>
      let html1 := setAttribute (html p) "lang" cur in
      let with_html (x : element) (hc : list string) (bc : option (list string)) :=
        {| html := x; html_classes := hc; body_classes := bc;
           content := content p; mobile_menu_style := mobile_menu_style p |} in
      match Registry.isRTL b cur with
      | Raise => (with_html html1 (html_classes p) (body_classes p), true)
      | Ok is_rtl =>
          let html2 := setAttribute html1 "dir" (if is_rtl then "rtl" else "ltr") in
          let hc :=
            if is_rtl then classList_add "rtl" (html_classes p)
            else classList_remove "rtl" (html_classes p) in
          match body_classes p with
          | None => (with_html html2 hc None, true)
          | Some bc =>
              let bc' := if is_rtl then classList_add "rtl" bc
                         else classList_remove "rtl" bc in
              let hc1 := classList_add ("lang-" ++ cur) hc in
              let hc2 :=
                match previousLanguage e with
                | Some prev =>
                    if negb (String.eqb prev "")
                    then classList_remove ("lang-" ++ prev) hc1 else hc1
                | None => hc1
                end in
              (with_html html2 hc2 (Some bc'), false)
          end
      end
  end.

Definition with_root (p : page) (root : node) : page :=
  match root with
  | Element x children =>
      {| html := x; html_classes := html_classes p;
         body_classes := body_classes p; content := children;
         mobile_menu_style := mobile_menu_style p |}
  | Text _ => p
  end.

Definition with_content (p : page) (children : list node) : page :=
  {| html := html p; html_classes := html_classes p;
     body_classes := body_classes p; content := children;
     mobile_menu_style := mobile_menu_style p |}.

(** The loop of [updateContentWithDataAttributes] assigns to [textContent]
    of the root element itself, which removes all its children. *)
Definition replaces_root (e : engine) (translations : val) (root : node) : bool :=
  match root with
  | Element x _ =>
      match getAttribute x "data-i18n" with
      | Some key =>
          match content_callback e translations x key with
          | Ok (Replace _) => true
          | _ => false
          end
      | None => false
      end
  | Text _ => false
  end.

Definition without_body (p : page) : page :=
  {| html := html p; html_classes := html_classes p;
     body_classes := None; content := content p;
     mobile_menu_style := None |}.

(** [updatePage()]: an error is handled inside; what was written before it
    stays. *)
Definition updatePage (e : engine) (p : page) : engine * page :=
  match currentLanguage e ≫= (fun c => translations e !! c) with
  | None => (handleError e, p)
  | Some t =>
      if negb (truthy (of_tree t)) then (handleError e, p) else
      let '(p1, raised1) := updateHTMLAttributes e p in
      if raised1 then (handleError e, p1) else
      let root1 := Element (html p1) (content p1) in
      let '(root2, raised2) := updateContentWithDataAttributes e (of_tree t) root1 in
      let p2 :=
        if replaces_root e (of_tree t) root1
        then without_body (with_root p1 root2) else with_root p1 root2 in
      if raised2 then (handleError e, p2) else
      let '(c3, raised3) := updateNavigation (of_tree t) (content p2) in
      if raised3 then (handleError e, with_content p2 c3) else
      let '(c4, raised4) := updateForms (of_tree t) c3 in
      if raised4 then (handleError e, with_content p2 c4) else
      let '(c5, raised5) := updateMetaTags (currentLanguage e) c4 in
      if raised5 then (handleError e, with_content p2 c5)
      else (e, with_content p2 c5)
  end.

(** [updateRTL()]: the page afterwards, and whether it raised. *)
Definition updateRTL (e : engine) (p : page) : page * bool :=
  let languageInfo_rtl : outcome bool :=
    languageInfo ← Registry.getLanguageInfo b (key_of (currentLanguage e));
    Registry.entry_rtl b languageInfo in
  match languageInfo_rtl with
  | Raise => (p, true)
  | Ok is_rtl =>
      let hc := if is_rtl then classList_add "rtl" (html_classes p)
                else classList_remove "rtl" (html_classes p) in
      match body_classes p with
      | None =>
          ({| html := html p; html_classes := hc; body_classes := None;
              content := content p;
              mobile_menu_style := mobile_menu_style p |}, true)
      | Some bc =>
          let bc' := if is_rtl then classList_add "rtl" bc
                     else classList_remove "rtl" bc in
          let menu :=
            (fun style =>
               <["text-align" := if is_rtl then "right" else "left"]>
                 (<["direction" := if is_rtl then "rtl" else "ltr"]> style))
              <$> mobile_menu_style p in
          ({| html := html p; html_classes := hc; body_classes := Some bc';
              content := content p; mobile_menu_style := menu |}, false)
      end
  end.

(** [saveLanguage(languageCode)]: storage, then the cookie, then the URL
    parameter; a failure ends it silently. *)
Definition saveLanguage (w : world) (languageCode : string) : world :=
  match setItem (localStorage w) Registry.localStorageKey languageCode with
  | Raise => w
  | Ok ls =>
      let put (l : list (string * string)) (k : string) :=
        if bool_decide (is_Some (assoc k l))
        then map (fun c => if String.eqb c.1 k then (k, languageCode) else c) l
        else (l ++ [(k, languageCode)])%list in
      {| network := network w; requests := requests w; now := now w;
         localStorage := ls;
         cookies := put (cookies w) Registry.cookieName;
         search := put (search w) Registry.urlParameter;
         document := document w |}
  end.

(** [setLanguage(languageCode)] *)
Definition setLanguage (e : engine) (w : world) (languageCode : string)
  : engine * world :=
  let failed (e' : engine) (w' : world) : engine * world :=
    let e'' := handleError e' in
    (set_engine_languages e'' (previousLanguage e'') (previousLanguage e''), w') in
  match Registry.lookup b languageCode with
  | Raise => failed e w
  | Ok entry =>
      if negb (Registry.entry_truthy entry) then failed e w else
      let e1 := set_engine_languages e (Some languageCode) (currentLanguage e) in
      let '(e2, w2, loaded) :=
        if bool_decide (is_Some (translations e1 !! languageCode))
        then (e1, w, Ok tt)
        else let '(e', w', r) := loadLanguage e1 w languageCode in
             (e', w', (fun _ => tt) <$> r) in
      match loaded with
      | Raise => failed e2 w2
      | Ok _ =>
          let '(e3, p3) := updatePage e2 (document w2) in
          let '(p4, raised) := updateRTL e3 p3 in
          let w4 := set_document w2 p4 in
          if raised then failed e3 w4 else
          let w5 := saveLanguage w4 languageCode in
          (emit e3 (LanguageChanged (previousLanguage e3) languageCode), w5)
      end
  end.

(** [getSavedLanguage()] *)
Definition getSavedLanguage (w : world) : option string :=
  let supported (k : string) : outcome bool :=
    Registry.entry_truthy <$> Registry.lookup b k in
  let from_cookies :=
    fix from_cookies (pieces : list string) (otherwise : outcome (option string))
      : outcome (option string) :=
      match pieces with
      | [] => otherwise
      | cookie :: rest =>
          let parts := Str.split "=" (trim cookie) in
          let name := hd "" parts in
          let value := nth_error parts 1 in
          if String.eqb name Registry.cookieName
          then ok ← supported (default "undefined" value);
               if ok : bool then Ok value else from_cookies rest otherwise
          else from_cookies rest otherwise
      end in
  let from_url : outcome (option string) :=
    match assoc Registry.urlParameter (search w) with
    | Some urlLang =>
        if negb (String.eqb urlLang "")
        then ok ← supported urlLang;
             Ok (if ok : bool then Some urlLang else None)
        else Ok None
    | None => Ok None
    end in
  let body : outcome (option string) :=
    saved ← getItem (localStorage w) Registry.localStorageKey;
    from_storage ←
      match saved with
      | Some s => if negb (String.eqb s "") then supported s else Ok false
      | None => Ok false
      end;
    if from_storage : bool then Ok saved
    else from_cookies (Str.split ";" (cookie_string (cookies w))) from_url in
  match body with
  | Ok r => r
  | Raise => None
  end.

(** [preloadLanguages(languageCodes)]: the loads are started one after the
    other; a failed one is dropped. *)
Fixpoint preloadLanguages (e : engine) (w : world) (languageCodes : list string)
  : engine * world :=
  match languageCodes with
  | [] => (e, w)
  | c :: rest =>
      let '(e', w', _) := loadLanguage e w c in
      preloadLanguages e' w' rest
  end.

(** [initializeRTL()] *)
Definition initializeRTL (e : engine) (p : page) : page * bool :=
  match Registry.isRTL b (key_of (currentLanguage e)) with
  | Raise => (p, true)
  | Ok true => updateRTL e p
  | Ok false => (p, false)
  end.

(** [init()] *)
Definition init (e : engine) (w : world) : engine * world :=
  match loadLanguage e w (key_of (currentLanguage e)) with
  | (e1, w1, Raise) => (handleError e1, w1)
  | (e1, w1, Ok _) =>
      let savedLanguage := getSavedLanguage w1 in
      let '(e2, w2) :=
        match savedLanguage with
        | Some s =>
            if negb (String.eqb s "")
               && negb (bool_decide (Some s = currentLanguage e1))
            then setLanguage e1 w1 s else (e1, w1)
        | None => (e1, w1)
        end in
      let '(e3, w3) :=
        if Registry.lazyLoading
        then preloadLanguages e2 w2 Registry.preloadLanguages
        else (e2, w2) in
      let '(p4, raised) := initializeRTL e3 (document w3) in
      let w4 := set_document w3 p4 in
      if raised then (handleError e3, w4) else
      let e5 :=
        {| currentLanguage := currentLanguage e3;
           previousLanguage := previousLanguage e3;
           translations := translations e3; cache := cache e3;
           isInitialized := true; emitted := emitted e3 |} in
      (emit e5 (Ready (currentLanguage e5)), w4)
  end.

End Methods.

Arguments replaces_root : simpl never.

(** [getCurrentLanguage()] *)
Definition getCurrentLanguage (e : engine) : option string := currentLanguage e.

(** [destroy()]: the cache and the translations are cleared, the engine is
    no longer initialized and the current language is the default one;
    [previousLanguage] is kept.  The listeners it drops are the callers'. *)
Definition destroy (e : engine) : engine :=
  {| currentLanguage := Some Registry.defaultLanguage;
     previousLanguage := previousLanguage e;
     translations := ∅;
     cache := ∅;
     isInitialized := false;
     emitted := emitted e |}.

End LocalizationEngine.
(** ** The event system ([on] and [emit])

    The engine, the toggle component and the orchestrator each carry the
    same two methods over a map from event names to arrays of callbacks.
    A callback is the caller's: here it acts on a state of the caller's,
    and tells whether it raised.  It does not register listeners itself. *)

Module Events.

Section Listeners.
Context {Data State : Type}.

Definition listener : Type := Data → State → State * bool.

(** [this.eventListeners] *)
Definition listeners : Type := gmap string (list listener).

(** [on(event, callback)] *)
Definition on (event : string) (callback : listener) (this : listeners) : listeners :=
  let this1 :=
    if bool_decide (is_Some (this !! event)) then this else <[event := []]> this in
  <[event := (default [] (this1 !! event) ++ [callback])%list]> this1.

(** [emit(event, data)]: an error of a callback is caught and logged, and
    the loop goes on with the next callback. *)
Definition emit (event : string) (data : Data) (this : listeners) (s : State) : State :=
  match this !! event with
  | Some callbacks =>
      fold_left
        (fun s callback =>
           match callback data s with
           | (s', _) => s'
           end)
        callbacks s
  | None => s
  end.

End Listeners.

End Events.

(** ** Specification-side definitions *)

Import Dom.

Module Spec.

(** The specification's reading of a dotted key: the entry of the tree that
    the segments lead to through own entries, if there is one. *)
Fixpoint lookup_path (t : tree) (segs : list string) : option tree :=
  match segs with
  | [] => Some t
  | k :: rest =>
      match t with
      | Leaf _ => None
      | Node entries =>
          match assoc k entries with
          | Some t' => lookup_path t' rest
          | None => None
          end
      end
  end.

(** A key stays on the tree when each of its segments either names an own
    entry of the node it is applied to, or names nothing at all there: not an
    own entry, not a unit index or [length] of a leaf string, and not a
    member of a built-in prototype. *)
Fixpoint stays_on_tree (h : Host) (t : tree) (segs : list string) : bool :=
  match segs with
  | [] => true
  | k :: rest =>
      match t with
      | Leaf s =>
          String.eqb s "" ||
          (bool_decide (str_own s k = None) &&
           bool_decide (builtin_prop h (VStr s) k = None))
      | Node entries =>
          match assoc k entries with
          | Some t' => stays_on_tree h t' rest
          | None => bool_decide (builtin_prop h (VObj entries) k = None)
          end
      end
  end.


(** A segment holds no separator. *)
Fixpoint sep_free (sep : ascii) (s : string) : bool :=
  match s with
  | EmptyString => true
  | String c rest => negb (Ascii.eqb c sep) && sep_free sep rest
  end.

(** *** Positions in a document *)

(** The node at a position: [path] lists, from the root down, the index of
    the child to descend into. *)
Fixpoint node_at (path : list nat) (n : node) : option node :=
  match path with
  | [] => Some n
  | i :: rest =>
      match n with
      | Element _ children => children !! i ≫= node_at rest
      | Text _ => None
      end
  end.

(** The loop of [callback] over the elements with [attr] replaces the
    children of none of the elements that [path] passes through on its way
    down from [n]: the node at the position stays in the document. *)
Fixpoint kept (attr : string) (callback : element → string → outcome effect)
    (path : list nat) (n : node) : Prop :=
  match path with
  | [] => True
  | i :: rest =>
      match n with
      | Element e children =>
          (∀ key new_children, getAttribute e attr = Some key →
             callback e key ≠ Ok (Replace new_children))
          ∧ (∀ child, children !! i = Some child → kept attr callback rest child)
      | Text _ => True
      end
  end.


(** *** The synchronizer on documents whose markers resolve to strings *)

(** [every P n]: [P] holds of every element of the subtree [n]. *)
Fixpoint every (P : element → Prop) (n : node) : Prop :=
  match n with
  | Text _ => True
  | Element e children =>
      P e ∧ (fix all (l : list node) : Prop :=
               match l with
               | [] => True
               | c :: rest => every P c ∧ all rest
               end) children
  end.

Definition markers : list string :=
  ["data-i18n"; "data-i18n-placeholder"; "data-i18n-value"].

(** An element that carries no marker. *)
Definition unmarked (e : element) : Prop :=
  ∀ attr, attr ∈ markers → getAttribute e attr = None.

(** [forEach] with a callback that cannot raise. *)
Fixpoint apply_pass (attr : string) (f : element → string → effect) (n : node) : node :=
  match n with
  | Text _ => n
  | Element e children =>
      match getAttribute e attr with
      | None => Element e (map (apply_pass attr f) children)
      | Some key =>
          match f e key with
          | Unchanged => Element e (map (apply_pass attr f) children)
          | Update e' => Element e' (map (apply_pass attr f) children)
          | Replace new_children => Element e new_children
          end
      end
  end.

Section Synchronizer.
Variable b : Browser.
Variable this : SimpleLanguageToggle.toggle.
Variable language : string.

(** The key resolves to a string or to NOT_FOUND. *)
Definition plain (key : string) : Prop :=
  SimpleLanguageToggle.getTranslation b this key language = Ok VNull
  ∨ ∃ s, SimpleLanguageToggle.getTranslation b this key language = Ok (VStr s).

(** The string a key resolves to, when it is a hit. *)
Definition hit (key : string) : option string :=
  match SimpleLanguageToggle.getTranslation b this key language with
  | Ok (VStr s) => if String.eqb s "" then None else Some s
  | _ => None
  end.

Definition write_placeholder (s : string) (e : element) : element :=
  if reflects_placeholder e then setAttribute e "placeholder" s
  else set_prop e "placeholder" (VStr s).

Definition write_value (s : string) (e : element) : element :=
  set_prop e "value" (VStr s).

(** The setter of [value] accepts the string on the element. *)
Definition accepts (e : element) (s : string) : bool :=
  match set_value b e (VStr s) with
  | Ok _ => true
  | Raise => false
  end.

Definition written_content (e : element) (s : string) : list node :=
  if Str.includes "<" s && Str.includes ">" s
  then parse_fragment b (tagName e) s else [Text s].

Definition text_effect (e : element) (key : string) : effect :=
  match hit key with
  | Some s => if hasAttribute e "placeholder"
              then Update (write_placeholder s e)
              else Replace (written_content e s)
  | None => Unchanged
  end.

Definition placeholder_effect (e : element) (key : string) : effect :=
  match hit key with
  | Some s => Update (write_placeholder s e)
  | None => Unchanged
  end.

Definition value_effect (e : element) (key : string) : effect :=
  match hit key with
  | Some s => Update (write_value s e)
  | None => Unchanged
  end.

(** The loops over the text and the placeholder markers. *)
Definition sync_text (n : node) : node :=
  apply_pass "data-i18n-placeholder" placeholder_effect
    (apply_pass "data-i18n" text_effect n).

(** The three loops of [applyTranslations], one after the other, when none
    of them raises. *)
Definition sync (n : node) : node :=
  apply_pass "data-i18n-value" value_effect
    (apply_pass "data-i18n-placeholder" placeholder_effect
       (apply_pass "data-i18n" text_effect n)).

(** What the three loops together do to one element. *)
Definition sync_element (e : element) : element :=
  let e1 :=
    match getAttribute e "data-i18n" ≫= hit with
    | Some s => if hasAttribute e "placeholder" then write_placeholder s e else e
    | None => e
    end in
  let e2 :=
    match getAttribute e "data-i18n-placeholder" ≫= hit with
    | Some s => write_placeholder s e1
    | None => e1
    end in
  match getAttribute e "data-i18n-value" ≫= hit with
  | Some s => write_value s e2
  | None => e2
  end.

(** The placeholder and the value of an element set to given strings. *)
Definition put (ph vl : option string) (e : element) : element :=
  let e1 := match ph with Some s => write_placeholder s e | None => e end in
  match vl with Some s => write_value s e1 | None => e1 end.

(** The string that the three loops leave in the placeholder of an element:
    that of the placeholder marker, or else that of the text marker on an
    element with a [placeholder] attribute. *)
Definition last_placeholder (e : element) : option string :=
  match getAttribute e "data-i18n-placeholder" ≫= hit with
  | Some s => Some s
  | None => if hasAttribute e "placeholder"
            then getAttribute e "data-i18n" ≫= hit else None
  end.

(** The keys of the markers of the element resolve to strings or to
    NOT_FOUND. *)
Definition resolvable (e : element) : Prop :=
  ∀ attr key, attr ∈ markers → getAttribute e attr = Some key → plain key.

(** The element can be synchronized: each of its marker keys resolves to a
    string or to NOT_FOUND, and the markup that a text marker writes into it
    brings no marker of its own. *)
Definition synchronizable (e : element) : Prop :=
  resolvable e
  ∧ (∀ key s, getAttribute e "data-i18n" = Some key → hit key = Some s →
       Forall (every unmarked) (written_content e s)).

(** The tree of [language] is loaded and has entries:
    [applyTranslations] does not return at once. *)
Definition loaded : Prop :=
  ∃ v, get_prop b (VObj (SimpleLanguageToggle.translations this)) language = Ok v
       ∧ truthy v = true ∧ SimpleLanguageToggle.keys_length v ≠ 0.

End Synchronizer.

(** Every marker key of the element that is a hit in [other] is a hit in
    [language]. *)
Definition covers (b : Browser) (this : SimpleLanguageToggle.toggle)
    (language other : string) (e : element) : Prop :=
  ∀ attr key, attr ∈ markers → getAttribute e attr = Some key →
    is_Some (hit b this other key) → is_Some (hit b this language key).

(** The document of a page, from its root element. *)
Definition root_of (p : SimpleLanguageToggle.page) : node :=
  Element (SimpleLanguageToggle.html p) (SimpleLanguageToggle.content p).

(** The [lang] attribute of the root element set to [language]. *)
Definition with_lang (language : string) (root : node) : node :=
  match root with
  | Element e children => Element (setAttribute e "lang" language) children
  | Text _ => root
  end.

(** The language [toggleLanguage] switches to. *)
Definition opposite (language : string) : string :=
  if String.eqb language "en" then "ar" else "en".

(** *** The language files and the widget *)

(** The pair of trees that one path gives: both files answer [ok] and
    parse. *)
Definition served (fetch : string → SimpleLanguageToggle.response) (path : string)
  : option (tree * tree) :=
  match fetch (path ++ "en.json"), fetch (path ++ "ar.json") with
  | SimpleLanguageToggle.Response true (Some en),
    SimpleLanguageToggle.Response true (Some ar) => Some (en, ar)
  | _, _ => None
  end.

(** The pair of the first path that gives both files. *)
Fixpoint first_served (fetch : string → SimpleLanguageToggle.response)
    (paths : list string) : option (tree * tree) :=
  match paths with
  | [] => None
  | path :: rest =>
      match served fetch path with
      | Some both => Some both
      | None => first_served fetch rest
      end
  end.

(** The widget shows [language]: the option of that language (Arabic for
    "ar", English for anything else) is [active] and not [inactive], the
    other one is [inactive] and not [active], the slider is on the right
    for Arabic only, and the button is laid out left to right with no
    inline position on the slider. *)
Definition laid_out (language : string) (w : SimpleLanguageToggle.widget) : bool :=
  let arabic := String.eqb language "ar" in
  let has := SimpleLanguageToggle.class_contains in
  Bool.eqb (has "active" (SimpleLanguageToggle.option_classes w).1) (negb arabic)
  && Bool.eqb (has "inactive" (SimpleLanguageToggle.option_classes w).1) arabic
  && Bool.eqb (has "active" (SimpleLanguageToggle.option_classes w).2) arabic
  && Bool.eqb (has "inactive" (SimpleLanguageToggle.option_classes w).2) (negb arabic)
  && Bool.eqb (has "slide-right" (SimpleLanguageToggle.slider_classes w)) arabic
  && bool_decide (SimpleLanguageToggle.option_text w = ("EN", "العربية"))
  && bool_decide (SimpleLanguageToggle.button_direction w = Some "ltr")
  && bool_decide (SimpleLanguageToggle.flex_direction w = Some "row")
  && bool_decide (SimpleLanguageToggle.slider_style w !! "left" = None)
  && bool_decide (SimpleLanguageToggle.slider_style w !! "transform" = None).

(** *** The engine's cache *)

(** The tree that the cache holds for [code] in an entry that has not
    expired at the time of [w]. *)
Definition fresh_entry (e : LocalizationEngine.engine) (w : LocalizationEngine.world)
    (code : string) : option tree :=
  match LocalizationEngine.cache e !! code with
  | Some (data, timestamp) =>
      if bool_decide (LocalizationEngine.now w - timestamp < Registry.cacheExpiry)%Z
      then Some data else None
  | None => None
  end.

(** The tree that can be had for [code] itself: from a fresh cache entry,
    or else from the network. *)
Definition available (e : LocalizationEngine.engine) (w : LocalizationEngine.world)
    (code : string) : option tree :=
  match fresh_entry e w code with
  | Some data => Some data
  | None => LocalizationEngine.network w code
  end.

End Spec.
Import Spec.

(** ** Closed examples *)

Module Example.
Import StandardHost SimpleLanguageToggle.

(** A fragment parser that knows one fragment; any other string is text. *)
Definition parse (context markup : string) : list node :=
  if String.eqb markup "<b>Hi</b>"
  then [Element {| tagName := "B"; attributes := ∅; props := ∅ |} [Text "Hi"]]
  else [Text markup].

Definition browser : Browser := {| js := es_host; parse_fragment := parse |}.

Definition element (tag : string) (attrs : list (string * string)) : Dom.element :=
  {| tagName := tag; attributes := list_to_map attrs; props := ∅ |}.

(** A toggle whose two language files hold [en] and [ar]. *)
Definition loaded (language : string) (en ar : list (string * tree)) : toggle :=
  {| containerId := "language-toggle";
     currentLanguage := language;
     translations := [("en", Node en); ("ar", Node ar)] |}.

(** [{a: {b: {c: "X"}}}], [{a: {b: {}}}], [{a: "scalar"}] *)
Definition abc : list (string * tree) :=
  [("a", Node [("b", Node [("c", Leaf "X")])])].
Definition ab_empty : list (string * tree) := [("a", Node [("b", Node [])])].
Definition a_scalar : list (string * tree) := [("a", Leaf "scalar")].


Definition welcome_page : node :=
  Element (element "HTML" [("lang", "en")])
    [Element (element "P" [("data-i18n", "k")]) [Text "old"];
     Element (element "INPUT" [("data-i18n-placeholder", "p")]) []].

(** A page on which a marked element sits inside another marked element,
    and a tree in which the key of the inner one names a subtree. *)
Definition nested : list (string * tree) :=
  [("a", Leaf "Hello"); ("b", Node [("x", Leaf "y")]); ("c", Leaf "New")].


(** The widget as [createToggle] builds it for English. *)
Definition widget : SimpleLanguageToggle.widget :=
  {| data_current_lang := "en";
     button_direction := None;
     flex_direction := None;
     option_text := ("EN", "العربية");
     option_classes := (["lang-option"; "active"], ["lang-option"; "inactive"]);
     slider_classes := ["slider-bg"];
     slider_style := ∅ |}.

(** A toggle in English on a page with the given children of the root. *)
Definition english (en ar : list (string * tree)) (children : list node)
  : SimpleLanguageToggle.state :=
  {| this_ := loaded "en" en ar;
     localStorage := Store ∅;
     document :=
       {| html := element "HTML" [("lang", "en")];
          content := children;
          toggle_widget := Some widget;
          header_style := Some ∅;
          dispatched := [] |} |}.

(** Mirrored trees, and a page synchronized with the English one. *)
Definition greeting_en : list (string * tree) := [("k", Leaf "Hello")].
Definition greeting_ar : list (string * tree) := [("k", Leaf "مرحبا")].
Definition greeting : list node :=
  [Element (element "P" [("data-i18n", "k")]) [Text "Hello"]].

(** Mirrored trees in which the English string of the key is empty, and a
    page that shows the English state: the paragraph is empty. *)
Definition blank_en : list (string * tree) := [("k", Leaf "")].
Definition blank_ar : list (string * tree) := [("k", Leaf "مرحبا")].
Definition blank : list node :=
  [Element (element "P" [("data-i18n", "k")]) []].

(** The children of the root of [nested_page]. *)
Definition nested_content : list node :=
  [Element (element "DIV" [("data-i18n", "a")])
     [Element (element "SPAN" [("data-i18n", "b")]) []];
   Element (element "P" [("data-i18n", "c")]) [Text "old"]].



Definition no_files (url : string) : response := NetworkError.

(** A page on which no toggle has been created: it has no widget and no
    header. *)
Definition bare_page : SimpleLanguageToggle.page :=
  {| html := element "HTML" [];
     content := greeting;
     toggle_widget := None;
     header_style := None;
     dispatched := [] |}.

(** An engine's world: a page with one marked paragraph; the English file
    can be fetched, no other file can; [stored] is what [localStorage]
    holds. *)
Definition site : LocalizationEngine.page :=
  {| LocalizationEngine.html := element "HTML" [("lang", "en")];
     LocalizationEngine.html_classes := [];
     LocalizationEngine.body_classes := Some [];
     LocalizationEngine.content :=
       [Element (element "P" [("data-i18n", "k")]) [Text "old"]];
     LocalizationEngine.mobile_menu_style := None |}.

Definition english_only (code : string) : option tree :=
  if String.eqb code "en" then Some (Node [("k", Leaf "Hello")]) else None.

Definition world (stored : list (string * string)) : LocalizationEngine.world :=
  {| LocalizationEngine.network := english_only;
     LocalizationEngine.requests := [];
     LocalizationEngine.now := 1000;
     LocalizationEngine.localStorage := Store (list_to_map stored);
     LocalizationEngine.cookies := [];
     LocalizationEngine.search := [];
     LocalizationEngine.document := site |}.

(** Both language files can be fetched; no file can. *)
Definition both_languages (code : string) : option tree :=
  if String.eqb code "en" then Some (Node [("k", Leaf "Hello")])
  else if String.eqb code "ar" then Some (Node [("k", Leaf "مرحبا")])
  else None.

Definition offline (code : string) : option tree := None.

(** The surroundings of an engine on [site], with the given network,
    storage, cookie jar and query string. *)
Definition surroundings (network : string → option tree) (ls : storage)
    (jar query : list (string * string)) : LocalizationEngine.world :=
  {| LocalizationEngine.network := network;
     LocalizationEngine.requests := [];
     LocalizationEngine.now := 1000;
     LocalizationEngine.localStorage := ls;
     LocalizationEngine.cookies := jar;
     LocalizationEngine.search := query;
     LocalizationEngine.document := site |}.

(** Selector-driven updates that find none of their targets. *)
Definition no_targets {A : Type} (_ : A) (children : list node) : list node * bool :=
  (children, false).

Definition init (stored : list (string * string))
  : LocalizationEngine.engine * LocalizationEngine.world :=
  LocalizationEngine.init browser no_targets no_targets no_targets
    LocalizationEngine.fresh (world stored).

Definition setLanguage (s : LocalizationEngine.engine * LocalizationEngine.world)
    (code : string) : LocalizationEngine.engine * LocalizationEngine.world :=
  LocalizationEngine.setLanguage browser no_targets no_targets no_targets s.1 s.2 code.

End Example.
(** ** Properties of the key resolver *)

Section ResolverFacts.
Variable b : Browser.

Lemma of_tree_defined (t : tree) : is_undefined (of_tree t) = false.
Proof. by destruct t. Qed.

Lemma simple_resolve_hit (segs : list string) :
  forall t t', lookup_path t segs = Some t' ->
    SimpleLanguageToggle.resolve b (of_tree t) segs = Ok (of_tree t').
Proof.
  induction segs as [|k rest IH]; intros t t' Hp; simpl in *.
  - by inversion Hp.
  - destruct t as [s|entries]; [done|].
    destruct (assoc k entries) as [t1|] eqn:Hk; [|done].
    cbn. rewrite Hk. cbn. rewrite of_tree_defined. by apply IH.
Qed.

Lemma engine_resolve_hit (segs : list string) :
  forall t t', lookup_path t segs = Some t' ->
    LocalizationEngine.resolve b (of_tree t) segs = Ok (of_tree t').
Proof.
  induction segs as [|k rest IH]; intros t t' Hp; simpl in *.
  - by inversion Hp.
  - destruct t as [s|entries]; [done|].
    destruct (assoc k entries) as [t1|] eqn:Hk; [|done].
    cbn. unfold has_prop. cbn. rewrite Hk. cbn. by apply IH.
Qed.

Lemma resolve_agree (segs : list string) :
  forall t, stays_on_tree b t segs = true ->
    SimpleLanguageToggle.resolve b (of_tree t) segs
    = LocalizationEngine.resolve b (of_tree t) segs.
Proof.
  induction segs as [|k rest IH]; intros t Hs; [done|].
  destruct t as [s|entries]; simpl in Hs.
  - cbn. destruct (String.eqb s "") eqn:Hempty; cbn; [done|].
    simpl in Hs. apply andb_true_iff in Hs as [H1 H2].
    apply bool_decide_eq_true in H1, H2.
    unfold get_prop. cbn. by rewrite H1, H2.
  - cbn. unfold has_prop, get_prop. cbn.
    destruct (assoc k entries) as [t1|] eqn:Hk; cbn.
    + rewrite of_tree_defined. by apply IH.
    + apply bool_decide_eq_true in Hs. by rewrite Hs.
Qed.

Lemma simple_resolve_miss (segs : list string) :
  forall t, stays_on_tree b t segs = true -> lookup_path t segs = None ->
    SimpleLanguageToggle.resolve b (of_tree t) segs = Ok VNull.
Proof.
  induction segs as [|k rest IH]; intros t Hs Hp; [done|].
  destruct t as [s|entries]; simpl in Hs, Hp.
  - cbn. destruct (String.eqb s "") eqn:Hempty; cbn; [done|].
    simpl in Hs. apply andb_true_iff in Hs as [H1 H2].
    apply bool_decide_eq_true in H1, H2.
    unfold get_prop. cbn. by rewrite H1, H2.
  - cbn. unfold get_prop. cbn.
    destruct (assoc k entries) as [t1|] eqn:Hk; cbn.
    + rewrite of_tree_defined. by apply IH.
    + apply bool_decide_eq_true in Hs. by rewrite Hs.
Qed.

(** The engine's resolver is wrapped in [try]/[catch]. *)
Lemma engine_getTranslation_total (stored translations : val) (key : string) :
  exists v, LocalizationEngine.getTranslation b stored key translations = Ok v.
Proof.
  unfold LocalizationEngine.getTranslation, try_catch.
  destruct (if negb _ then _ else _); eauto.
Qed.

Lemma engine_getTranslation_node (stored : val) entries key :
  LocalizationEngine.getTranslation b stored key (VObj entries)
  = try_catch (LocalizationEngine.resolve b (VObj entries) (Str.split "." key))
              (Ok VNull).
Proof. done. Qed.

Lemma simple_getTranslation_own this language t key :
  assoc language (SimpleLanguageToggle.translations this) = Some t ->
  SimpleLanguageToggle.getTranslation b this key language
  = SimpleLanguageToggle.resolve b (of_tree t) (Str.split "." key).
Proof.
  intros Hl. unfold SimpleLanguageToggle.getTranslation, get_prop. cbn.
  by rewrite Hl.
Qed.

(** The toggle's resolver has no [try]: it raises exactly when the walk
    reaches, after some of the segments, a value on which the next segment
    names a built-in property whose read raises. *)
Lemma get_prop_raises (v : val) (k : string) :
  truthy v = true →
  get_prop b v k = Raise ↔ own_prop v k = None ∧ builtin_prop b v k = Some Raise.
Proof.
  intros Htruthy. unfold get_prop.
  destruct v; try done;
    (destruct (own_prop _ k); [split; [done|by intros [? _]]|]);
    (destruct (builtin_prop b _ k) as [[y|]|];
       split; try done; by intros [_ ?]).
Qed.

Lemma simple_resolve_raises (segs : list string) :
  ∀ value,
    SimpleLanguageToggle.resolve b value segs = Raise
    ↔ ∃ (n : nat) (v : val) (k : string),
        segs !! n = Some k
        ∧ SimpleLanguageToggle.resolve b value (take n segs) = Ok v
        ∧ truthy v = true
        ∧ own_prop v k = None
        ∧ builtin_prop b v k = Some Raise.
Proof.
  induction segs as [|k rest IH]; intros value.
  { split; [done|]. by intros (n & v & k & Hk & _). }
  cbn [SimpleLanguageToggle.resolve]. split.
  - destruct (truthy value) eqn:Htruthy; [|done].
    destruct (get_prop b value k) as [next|] eqn:Hnext; cbn.
    + destruct (is_undefined next) eqn:Hundefined; [done|].
      intros (n & v & k' & Hk' & Hv & Hrest)%IH.
      exists (S n), v, k'. split; [done|]. split; [|done].
      cbn. by rewrite Htruthy, Hnext; cbn; rewrite Hundefined.
    + intros _. exists 0%nat, value, k.
      apply get_prop_raises in Hnext as [Hown Hbuiltin]; done.
  - intros (n & v & k' & Hk' & Hv & Htruthy & Hown & Hbuiltin).
    destruct n as [|n]; cbn in Hk', Hv.
    + injection Hk' as <-. injection Hv as <-. rewrite Htruthy.
      by rewrite (proj2 (get_prop_raises value k Htruthy) (conj Hown Hbuiltin)).
    + destruct (truthy value); [|by injection Hv as <-].
      destruct (get_prop b value k) as [next|]; cbn in *; [|done].
      destruct (is_undefined next); [by injection Hv as <-|].
      apply IH. by exists n, v, k'.
Qed.

End ResolverFacts.

(** C1 (amended). For every translation tree and every dotted key,
    [getTranslation] splits the key on '.' and walks the tree one segment at
    a time.  The engine's resolver never raises.  The toggle's resolver has
    no [try]: it raises exactly when the walk reaches, after some of the
    segments, a value on which the next segment names a built-in property
    whose read raises.  When the segments lead through own entries to an
    entry of the tree, both resolvers return that entry: the leaf string,
    or the subtree when the key stops at an inner node.  When the path is
    not in the tree and the key stays on the tree, both return NOT_FOUND. *)
Theorem getTranslation_walks_tree (b : Browser)
    (this : SimpleLanguageToggle.toggle) (language : string)
    (entries : list (string * tree)) (stored : val) (key : string) :
  assoc language (SimpleLanguageToggle.translations this) = Some (Node entries) →
  (∃ v, LocalizationEngine.getTranslation b stored key (VObj entries) = Ok v)
  ∧ (SimpleLanguageToggle.getTranslation b this key language = Raise
     ↔ ∃ (n : nat) (v : val) (k : string),
         Str.split "." key !! n = Some k
         ∧ SimpleLanguageToggle.resolve b (VObj entries) (take n (Str.split "." key))
           = Ok v
         ∧ truthy v = true
         ∧ own_prop v k = None
         ∧ builtin_prop b v k = Some Raise)
  ∧ (∀ t, lookup_path (Node entries) (Str.split "." key) = Some t →
       SimpleLanguageToggle.getTranslation b this key language = Ok (of_tree t)
       ∧ LocalizationEngine.getTranslation b stored key (VObj entries) = Ok (of_tree t))
  ∧ (lookup_path (Node entries) (Str.split "." key) = None →
     stays_on_tree b (Node entries) (Str.split "." key) = true →
       SimpleLanguageToggle.getTranslation b this key language = Ok VNull
       ∧ LocalizationEngine.getTranslation b stored key (VObj entries) = Ok VNull).
Proof.
  intros Hloaded. split; [apply engine_getTranslation_total|].
  rewrite (simple_getTranslation_own b this language _ key Hloaded).
  split; [apply simple_resolve_raises|].
  rewrite engine_getTranslation_node. split.
  - intros t Hp. split.
    + by apply simple_resolve_hit.
    + change (VObj entries) with (of_tree (Node entries)).
      by rewrite (engine_resolve_hit b _ _ _ Hp).
  - intros Hp Hs. split.
    + by apply simple_resolve_miss.
    + change (VObj entries) with (of_tree (Node entries)).
      rewrite <- resolve_agree by done.
      by rewrite simple_resolve_miss.
Qed.

(** The three resolutions the specification lists: "a.b.c" against
    [{a: {b: {c: "X"}}}], [{a: {b: {}}}] and [{a: "scalar"}]; and a key on
    which the toggle's resolver raises: against [{a: {b: {c: "X"}}}] the key
    "a.constructor.caller" leads to the function [Object], whose [caller]
    cannot be read. *)
Lemma getTranslation_walks_tree_examples :
  (SimpleLanguageToggle.getTranslation Example.browser
     (Example.loaded "en" Example.abc []) "a.b.c" "en" = Ok (VStr "X")
   ∧ LocalizationEngine.getTranslation Example.browser VUndefined "a.b.c"
       (VObj Example.abc) = Ok (VStr "X"))
  ∧ (SimpleLanguageToggle.getTranslation Example.browser
       (Example.loaded "en" Example.ab_empty []) "a.b.c" "en" = Ok VNull
     ∧ LocalizationEngine.getTranslation Example.browser VUndefined "a.b.c"
         (VObj Example.ab_empty) = Ok VNull)
  ∧ (SimpleLanguageToggle.getTranslation Example.browser
       (Example.loaded "en" Example.a_scalar []) "a.b.c" "en" = Ok VNull
     ∧ LocalizationEngine.getTranslation Example.browser VUndefined "a.b.c"
         (VObj Example.a_scalar) = Ok VNull)
  ∧ SimpleLanguageToggle.getTranslation Example.browser
      (Example.loaded "en" Example.abc []) "a.constructor.caller" "en" = Raise.
Proof.
  split; [|split; [|split]].
  - exact (proj1 (proj2 (proj2 (getTranslation_walks_tree Example.browser
             (Example.loaded "en" Example.abc []) "en" Example.abc VUndefined
             "a.b.c" eq_refl))) (Leaf "X") eq_refl).
  - exact (proj2 (proj2 (proj2 (getTranslation_walks_tree Example.browser
             (Example.loaded "en" Example.ab_empty []) "en" Example.ab_empty
             VUndefined "a.b.c" eq_refl))) eq_refl eq_refl).
  - exact (proj2 (proj2 (proj2 (getTranslation_walks_tree Example.browser
             (Example.loaded "en" Example.a_scalar []) "en" Example.a_scalar
             VUndefined "a.b.c" eq_refl))) eq_refl eq_refl).
  - apply (proj1 (proj2 (getTranslation_walks_tree Example.browser
             (Example.loaded "en" Example.abc []) "en" Example.abc VUndefined
             "a.constructor.caller" eq_refl))).
    exists 2%nat, (VBuiltinFn "Object.prototype.constructor"), "caller".
    repeat split; reflexivity.
Defined.

(** C1, as stated, fails: a key that stops at an inner node resolves to that
    subtree.  Against [{a: {b: {c: "X"}}}] the key "a.b" yields the object
    [{c: "X"}] from both resolvers. *)
Lemma getTranslation_returns_subtree :
  SimpleLanguageToggle.getTranslation Example.browser
    (Example.loaded "en" Example.abc []) "a.b" "en"
  = Ok (VObj [("c", Leaf "X")])
  ∧ LocalizationEngine.getTranslation Example.browser VUndefined "a.b"
      (VObj Example.abc)
    = Ok (VObj [("c", Leaf "X")]).
Proof. split; reflexivity. Qed.

(** C9 (amended). The two resolvers return the same result for every
    translation tree and every dotted key that stays on the tree: each
    segment names an own entry of the node it is applied to, or names nothing
    there (not a unit index or [length] of a leaf string, not a built-in
    member). *)
Theorem resolvers_agree_on_tree (b : Browser)
    (this : SimpleLanguageToggle.toggle) (language : string)
    (entries : list (string * tree)) (stored : val) (key : string) :
  assoc language (SimpleLanguageToggle.translations this) = Some (Node entries) →
  stays_on_tree b (Node entries) (Str.split "." key) = true →
  SimpleLanguageToggle.getTranslation b this key language
  = LocalizationEngine.getTranslation b stored key (VObj entries).
Proof.
  intros Hloaded Hs.
  rewrite (simple_getTranslation_own b this language _ key Hloaded).
  rewrite engine_getTranslation_node.
  change (VObj entries) with (of_tree (Node entries)).
  rewrite <- resolve_agree by done.
  destruct (lookup_path (Node entries) (Str.split "." key)) as [t|] eqn:Hp.
  - by rewrite (simple_resolve_hit b _ _ _ Hp).
  - by rewrite simple_resolve_miss.
Qed.

Lemma resolvers_agree_on_tree_example :
  SimpleLanguageToggle.getTranslation Example.browser
    (Example.loaded "en" Example.abc []) "a.b.c" "en"
  = LocalizationEngine.getTranslation Example.browser VUndefined "a.b.c"
      (VObj Example.abc).
Proof.
  apply (resolvers_agree_on_tree Example.browser
           (Example.loaded "en" Example.abc []) "en" Example.abc VUndefined
           "a.b.c" eq_refl).
  reflexivity.
Defined.

(** C9, as stated, fails: against [{a: "scalar"}] the key "a.0" continues
    past the leaf; the toggle's resolver indexes the string and returns "s",
    the engine's resolver returns NOT_FOUND. *)
Lemma resolvers_differ_past_leaf :
  SimpleLanguageToggle.getTranslation Example.browser
    (Example.loaded "en" Example.a_scalar []) "a.0" "en" = Ok (VStr "s")
  ∧ LocalizationEngine.getTranslation Example.browser VUndefined "a.0"
      (VObj Example.a_scalar) = Ok VNull.
Proof. split; reflexivity. Qed.

(** ** The stored preference of the toggle *)

(** C10. Reading the stored language preference is total and yields "en" or
    "ar": [getStoredLanguage] returns "ar" exactly when the stored value is
    the string "ar", and "en" for every other stored value, for a missing
    value, and when the access to storage raises. *)
Theorem getStoredLanguage_en_or_ar (ls : storage) :
  (SimpleLanguageToggle.getStoredLanguage ls = "ar"
   ∨ SimpleLanguageToggle.getStoredLanguage ls = "en")
  ∧ (SimpleLanguageToggle.getStoredLanguage ls = "ar"
     ↔ getItem ls "marln_language_preference" = Ok (Some "ar"))
  ∧ (getItem ls "marln_language_preference" = Raise
     → SimpleLanguageToggle.getStoredLanguage ls = "en")
  ∧ (getItem ls "marln_language_preference" = Ok None
     → SimpleLanguageToggle.getStoredLanguage ls = "en")
  ∧ (∀ s, getItem ls "marln_language_preference" = Ok (Some s) → s ≠ "ar"
     → SimpleLanguageToggle.getStoredLanguage ls = "en").
Proof.
  unfold SimpleLanguageToggle.getStoredLanguage.
  destruct (getItem ls "marln_language_preference") as [[s|]|] eqn:Hget;
    [destruct (String.eqb_spec s "ar") as [->|Hne]|..];
    repeat split; intros; simplify_eq; auto; try done.
Qed.

(** ** Splitting and joining *)

Section SplitJoin.
Variable sep : ascii.

Lemma split_nonempty (s : string) : Str.split sep s ≠ [].
Proof.
  induction s as [|c rest IH]; simpl; [done|].
  destruct (Ascii.eqb c sep); [done|].
  by destruct (Str.split sep rest).
Qed.

Lemma split_sep_free (s : string) :
  Forall (fun seg => sep_free sep seg = true) (Str.split sep s).
Proof.
  induction s as [|c rest IH]; simpl.
  - by constructor.
  - destruct (Ascii.eqb c sep) eqn:Hc.
    + by constructor.
    + destruct (Str.split sep rest) as [|seg segs]; inversion IH; subst.
      * constructor; [simpl; by rewrite Hc|done].
      * constructor; [simpl; by rewrite Hc|done].
Qed.

Lemma split_app_sep (seg rest : string) :
  sep_free sep seg = true →
  Str.split sep (seg ++ String sep rest) = seg :: Str.split sep rest.
Proof.
  induction seg as [|c seg IH]; simpl; intros Hfree.
  - by rewrite Ascii.eqb_refl.
  - apply andb_true_iff in Hfree as [Hc Hfree].
    apply negb_true_iff in Hc. rewrite Hc, (IH Hfree). done.
Qed.

Lemma split_one (seg : string) :
  sep_free sep seg = true → Str.split sep seg = [seg].
Proof.
  induction seg as [|c seg IH]; simpl; intros Hfree; [done|].
  apply andb_true_iff in Hfree as [Hc Hfree].
  apply negb_true_iff in Hc. by rewrite Hc, (IH Hfree).
Qed.

Lemma split_join (segs : list string) :
  segs ≠ [] → Forall (fun seg => sep_free sep seg = true) segs →
  Str.split sep (Str.join sep segs) = segs.
Proof.
  induction segs as [|seg rest IH]; [done|].
  intros _ Hall. inversion Hall as [|? ? Hseg Hrest]; subst.
  destruct rest as [|seg' rest].
  - simpl. by apply split_one.
  - change (Str.join sep (seg :: seg' :: rest))
      with (seg ++ String sep (Str.join sep (seg' :: rest))).
    rewrite split_app_sep by done. f_equal. by apply IH.
Qed.

End SplitJoin.

(** ** The callbacks of the synchronizer *)

Section ForEach.
Variable attr : string.
Variable callback : element → string → outcome effect.

Lemma forEach_element (e : element) (children : list node) :
  forEach attr callback (Element e children)
  = match getAttribute e attr with
    | None =>
        let '(children', raised) := forEach_list attr callback children in
        (Element e children', raised)
    | Some key =>
        match callback e key with
        | Raise => (Element e children, true)
        | Ok Unchanged =>
            let '(children', raised) := forEach_list attr callback children in
            (Element e children', raised)
        | Ok (Update e') =>
            let '(children', raised) := forEach_list attr callback children in
            (Element e' children', raised)
        | Ok (Replace new_children) =>
            let '(_, raised) := forEach_list attr callback children in
            (Element e new_children, raised)
        end
    end.
Proof.
  assert (Heach : ∀ l,
    (fix each (l : list node) : list node * bool :=
       match l with
       | [] => ([], false)
       | c :: rest =>
           let '(c', raised) := forEach attr callback c in
           if raised then (c' :: rest, true)
           else let '(rest', raised') := each rest in (c' :: rest', raised')
       end) l = forEach_list attr callback l).
  { induction l as [|c rest IH]; simpl; [done|]. by rewrite IH. }
  simpl. rewrite !Heach. done.
Qed.

Lemma forEach_list_text (texts : list string) :
  forEach_list attr callback (Text <$> texts) = (Text <$> texts, false).
Proof.
  induction texts as [|t rest IH]; [done|].
  rewrite fmap_cons. simpl. by rewrite IH.
Qed.

End ForEach.

Section Callbacks.
Variable b : Browser.
Variable this : SimpleLanguageToggle.toggle.

Lemma simple_resolve_prefix (l1 l2 : list string) :
  ∀ v r, SimpleLanguageToggle.resolve b v (l1 ++ l2) = Ok r →
    ∃ r', SimpleLanguageToggle.resolve b v l1 = Ok r'.
Proof.
  induction l1 as [|k l1 IH]; intros v r Hr; simpl in *; [eauto|].
  destruct (truthy v); [|eauto].
  destruct (get_prop b v k) as [next|]; simpl in *; [|done].
  destruct (is_undefined next); [eauto|]. by eapply IH.
Qed.

Lemma simple_getTranslation_inv (key language : string) (r : val) :
  SimpleLanguageToggle.getTranslation b this key language = Ok r →
  ∃ value, get_prop b (VObj (SimpleLanguageToggle.translations this)) language = Ok value
           ∧ SimpleLanguageToggle.resolve b value (Str.split "." key) = Ok r.
Proof.
  unfold SimpleLanguageToggle.getTranslation.
  destruct (get_prop b _ language) as [value|]; simpl; [eauto|done].
Qed.

(** The scan for partial matches raises only if the resolution of the whole
    key does. *)
Lemma findPartialTranslation_ok (key language : string) (r : val) :
  SimpleLanguageToggle.getTranslation b this key language = Ok r →
  SimpleLanguageToggle.findPartialTranslation b this key language = Ok tt.
Proof.
  intros Hkey. apply simple_getTranslation_inv in Hkey as (value & Hvalue & Hr).
  assert (Hall : ∀ i : nat, (1 ≤ i)%nat → ∃ r',
    SimpleLanguageToggle.getTranslation b this
      (Str.join "." (take i (Str.split "." key))) language = Ok r').
  { intros i Hi. unfold SimpleLanguageToggle.getTranslation.
    rewrite Hvalue. simpl.
    rewrite split_join.
    - apply (simple_resolve_prefix _ (drop i (Str.split "." key)) value r).
      by rewrite take_drop.
    - pose proof (split_nonempty "." key).
      destruct (Str.split "." key); [done|]. destruct i; [lia|done].
    - apply Forall_take, split_sep_free. }
  unfold SimpleLanguageToggle.findPartialTranslation.
  assert (Hpos : Forall (fun i : nat => (1 ≤ i)%nat)
                   (seq 1 (length (Str.split "." key) - 1))).
  { apply Forall_forall. intros i Hi%elem_of_seq. lia. }
  revert Hpos. generalize (seq 1 (length (Str.split "." key) - 1)).
  intros indices. induction indices as [|i rest IH]; intros Hpos; [done|].
  inversion Hpos as [|? ? Hi Hrest]; subst.
  destruct (Hall i Hi) as [r' Hr']. rewrite Hr'. simpl. by apply IH.
Qed.

End Callbacks.

Lemma input_type_not_placeholder (e : element) :
  String.eqb (input_type e) "placeholder" = false.
Proof.
  unfold input_type. destruct (getAttribute e "type") as [t|]; [|done].
  destruct (existsb _ input_types) eqn:Hknown; [|done].
  apply existsb_exists in Hknown as (x & Hin & Heq).
  apply String.eqb_eq in Heq. rewrite Heq.
  simpl in Hin. by repeat (destruct Hin as [<-|Hin]; [done|]).
Qed.

(** *** What the callbacks do on a hit and on a miss *)

Section OneMarker.
Variable b : Browser.
Variable this : SimpleLanguageToggle.toggle.
Variable language : string.





(** The loops over the placeholder and the value markers replace no
    children. *)
Lemma placeholder_callback_in_place (e : element) (key : string)
    (new_children : list node) :
  SimpleLanguageToggle.placeholder_callback b this language e key
  ≠ Ok (Replace new_children).
Proof.
  unfold SimpleLanguageToggle.placeholder_callback.
  destruct (SimpleLanguageToggle.getTranslation b this key language) as [t|];
    simpl; [|done].
  destruct (truthy t); [|done]. by destruct (set_placeholder b e t).
Qed.

Lemma value_callback_in_place (e : element) (key : string)
    (new_children : list node) :
  SimpleLanguageToggle.value_callback b this language e key
  ≠ Ok (Replace new_children).
Proof.
  unfold SimpleLanguageToggle.value_callback.
  destruct (SimpleLanguageToggle.getTranslation b this key language) as [t|];
    simpl; [|done].
  destruct (truthy t); [|done]. by destruct (set_value b e t).
Qed.

End OneMarker.



(** ** The engine: unsupported codes, failed loads, the saved preference *)

Section Engine.
Variable b : Browser.
Variable updateNavigation updateForms : val → list node → list node * bool.
Variable updateMetaTags : option string → list node → list node * bool.

Local Abbreviation setLanguage :=
  (LocalizationEngine.setLanguage b updateNavigation updateForms updateMetaTags).

(** C4 (what the code does). For a code whose registry lookup is falsy,
    [setLanguage] fetches nothing and leaves the surroundings as they are,
    reports an error, and sets the current language to the value of
    [previousLanguage]: the language that was current before the last
    successful switch, or [null] when there was none.  The current language
    is kept only when it equals that value. *)
Theorem setLanguage_unsupported (e : LocalizationEngine.engine)
    (w : LocalizationEngine.world) (code : string) :
  Registry.entry_truthy <$> Registry.lookup b code = Ok false →
  (setLanguage e w code).2 = w
  ∧ LocalizationEngine.requests (setLanguage e w code).2 = LocalizationEngine.requests w
  ∧ LocalizationEngine.currentLanguage (setLanguage e w code).1
    = LocalizationEngine.previousLanguage e
  ∧ LocalizationEngine.emitted (setLanguage e w code).1
    = (LocalizationEngine.emitted e ++ [LocalizationEngine.Failure])%list.
Proof.
  intros Hlookup. unfold LocalizationEngine.setLanguage.
  destruct (Registry.lookup b code) as [entry|]; simpl in Hlookup; [|done].
  injection Hlookup as ->. simpl. done.
Qed.

Lemma lookup_own (code : string) (i : Registry.LanguageInfo) :
  assoc code Registry.SUPPORTED_LANGUAGES = Some i →
  Registry.lookup b code = Ok (Registry.Info i).
Proof. intros Hown. unfold Registry.lookup. by rewrite Hown. Qed.

(** Loading a code whose file cannot be fetched falls back to the fallback
    code: the tree of the fallback code is stored under the fallback code,
    and nothing is stored under the requested code. *)
Lemma loadLanguage_falls_back (e : LocalizationEngine.engine)
    (w : LocalizationEngine.world) (code : string) (t : tree) :
  code ≠ Registry.fallbackLanguage →
  LocalizationEngine.cache e !! code = None →
  LocalizationEngine.network w code = None →
  LocalizationEngine.network w Registry.fallbackLanguage = Some t →
  (∀ d ts, LocalizationEngine.cache e !! Registry.fallbackLanguage = Some (d, ts) → d = t) →
  ∃ e' w',
    LocalizationEngine.loadLanguage e w code = (e', w', Ok t)
    ∧ LocalizationEngine.currentLanguage e' = LocalizationEngine.currentLanguage e
    ∧ LocalizationEngine.previousLanguage e' = LocalizationEngine.previousLanguage e
    ∧ LocalizationEngine.emitted e' = LocalizationEngine.emitted e
    ∧ LocalizationEngine.translations e'
      = <[Registry.fallbackLanguage := t]> (LocalizationEngine.translations e)
    ∧ LocalizationEngine.document w' = LocalizationEngine.document w
    ∧ LocalizationEngine.localStorage w' = LocalizationEngine.localStorage w.
Proof.
  intros Hne Hcache Hnet Hfb Hconsistent.
  unfold LocalizationEngine.loadLanguage, LocalizationEngine.loadLanguage_try at 1.
  rewrite Hcache, Hnet.
  apply String.eqb_neq in Hne. rewrite Hne. simpl.
  unfold LocalizationEngine.loadLanguage_try. simpl.
  destruct (LocalizationEngine.cache e !! Registry.fallbackLanguage)
    as [[d ts]|] eqn:Hfbc.
  - rewrite (Hconsistent d ts eq_refl).
    case_bool_decide; [|rewrite Hfb]; eexists _, _; done.
  - rewrite Hfb. eexists _, _; done.
Qed.

Lemma saveLanguage_document (w : LocalizationEngine.world) (code : string) :
  LocalizationEngine.document (LocalizationEngine.saveLanguage w code)
  = LocalizationEngine.document w.
Proof.
  unfold LocalizationEngine.saveLanguage.
  by destruct (setItem (LocalizationEngine.localStorage w) _ code).
Qed.

(** C3 (what the code does). When the file of a supported code other than
    the fallback code cannot be loaded and the fallback file can,
    [setLanguage] loads the fallback tree and stores it under the fallback
    code, but keeps the requested code as the current language: [updatePage]
    finds no tree under the current language, reports an error and writes
    nothing to the root element or its content, and the [languageChanged]
    event names the requested code.  When the file of the fallback code
    itself cannot be loaded, [loadLanguage] raises. *)
Theorem setLanguage_failed_load (e : LocalizationEngine.engine)
    (w : LocalizationEngine.world) (code : string)
    (i : Registry.LanguageInfo) (t : tree) :
  assoc code Registry.SUPPORTED_LANGUAGES = Some i →
  code ≠ Registry.fallbackLanguage →
  LocalizationEngine.translations e !! code = None →
  LocalizationEngine.cache e !! code = None →
  LocalizationEngine.network w code = None →
  LocalizationEngine.network w Registry.fallbackLanguage = Some t →
  (∀ d ts, LocalizationEngine.cache e !! Registry.fallbackLanguage = Some (d, ts) → d = t) →
  is_Some (LocalizationEngine.body_classes (LocalizationEngine.document w)) →
  LocalizationEngine.currentLanguage (setLanguage e w code).1 = Some code
  ∧ LocalizationEngine.translations (setLanguage e w code).1 !! Registry.fallbackLanguage
    = Some t
  ∧ LocalizationEngine.translations (setLanguage e w code).1 !! code = None
  ∧ LocalizationEngine.html (LocalizationEngine.document (setLanguage e w code).2)
    = LocalizationEngine.html (LocalizationEngine.document w)
  ∧ LocalizationEngine.content (LocalizationEngine.document (setLanguage e w code).2)
    = LocalizationEngine.content (LocalizationEngine.document w)
  ∧ LocalizationEngine.emitted (setLanguage e w code).1
    = (LocalizationEngine.emitted e
       ++ [LocalizationEngine.Failure;
           LocalizationEngine.LanguageChanged (LocalizationEngine.currentLanguage e) code])%list
  ∧ (LocalizationEngine.cache e !! Registry.fallbackLanguage = None →
     ∀ w0, LocalizationEngine.network w0 Registry.fallbackLanguage = None →
       (LocalizationEngine.loadLanguage e w0 Registry.fallbackLanguage).2 = Raise).
Proof.
  intros Hown Hne Hnone Hcache Hnet Hfb Hconsistent [bc Hbody].
  unfold LocalizationEngine.setLanguage.
  rewrite (lookup_own code i Hown). simpl.
  rewrite bool_decide_eq_false_2 by (simpl; rewrite Hnone; by intros [? ?]).
  destruct (loadLanguage_falls_back
              (LocalizationEngine.set_engine_languages e (Some code)
                 (LocalizationEngine.currentLanguage e)) w code t Hne Hcache Hnet Hfb
              Hconsistent) as (e' & w' & -> & Hcur & Hprev & Hemit & Htr & Hdoc & Hls).
  simpl in *.
  assert (Hmiss : LocalizationEngine.translations e' !! code = None).
  { rewrite Htr, lookup_insert_ne; done. }
  unfold LocalizationEngine.updatePage. rewrite Hcur. simpl. rewrite Hmiss.
  unfold LocalizationEngine.updateRTL. simpl. rewrite Hcur. simpl.
  unfold Registry.getLanguageInfo. rewrite (lookup_own code i Hown). simpl.
  rewrite Hdoc, Hbody. simpl.
  split; [done|]. split; [by rewrite Htr, lookup_insert_eq|]. split; [done|].
  rewrite !saveLanguage_document. simpl.
  split; [done|]. split; [done|]. split.
  - by rewrite Hemit, Hprev, <- app_assoc.
  - intros Hfbc w0 Hnet0.
    unfold LocalizationEngine.loadLanguage, LocalizationEngine.loadLanguage_try.
    by rewrite Hfbc, Hnet0.
Qed.

(** *** The direction of the document *)

Lemma set_placeholder_attribute (x x' : element) (v : val) (attr : string) :
  set_placeholder b x v = Ok x' → attr ≠ "placeholder" →
  getAttribute x' attr = getAttribute x attr.
Proof.
  unfold set_placeholder. intros Hset Hne.
  destruct (reflects_placeholder x).
  - destruct (dom_string b v) as [s|]; simpl in Hset; [|done].
    injection Hset as <-. unfold getAttribute, setAttribute. simpl.
    by rewrite lookup_insert_ne.
  - by injection Hset as <-.
Qed.

Lemma content_root_attribute (e : LocalizationEngine.engine) (translations : val)
    (x : element) (children : list node) (attr : string) :
  attr ≠ "placeholder" →
  ∃ x' children',
    (LocalizationEngine.updateContentWithDataAttributes b e translations
       (Element x children)).1 = Element x' children'
    ∧ getAttribute x' attr = getAttribute x attr.
Proof.
  intros Hne. unfold LocalizationEngine.updateContentWithDataAttributes.
  rewrite forEach_element.
  destruct (forEach_list "data-i18n" _ children) as [children' raised].
  destruct (getAttribute x "data-i18n") as [key|]; [|by eexists _, _].
  destruct (LocalizationEngine.content_callback b e translations x key)
    as [[|x'|new]|] eqn:Hcb; try by eexists _, _.
  eexists _, _. split; [done|].
  unfold LocalizationEngine.content_callback in Hcb.
  destruct (LocalizationEngine.getTranslation b _ key translations) as [t|];
    simpl in Hcb; [|done].
  destruct (truthy t); [|done].
  destruct (_ || _); [|by destruct (set_textContent b t)].
  destruct (hasAttribute x "placeholder"); [|done].
  destruct (set_placeholder b x t) as [x''|] eqn:Hset; simpl in Hcb; [|done].
  injection Hcb as <-. by eapply set_placeholder_attribute.
Qed.

(** After [updatePage] with the tree of the current language loaded, the
    [dir] attribute of the root element is the direction of that language. *)
Lemma updatePage_dir (e : LocalizationEngine.engine) (p : LocalizationEngine.page)
    (code : string) (i : Registry.LanguageInfo) (entries : list (string * tree)) :
  LocalizationEngine.currentLanguage e = Some code →
  assoc code Registry.SUPPORTED_LANGUAGES = Some i →
  LocalizationEngine.translations e !! code = Some (Node entries) →
  getAttribute
    (LocalizationEngine.html
       (LocalizationEngine.updatePage b updateNavigation updateForms updateMetaTags e p).2)
    "dir"
  = Some (if Registry.rtl i then "rtl" else "ltr").
Proof.
  intros Hcur Hown Htree.
  unfold LocalizationEngine.updatePage. rewrite Hcur. simpl. rewrite Htree. simpl.
  unfold LocalizationEngine.updateHTMLAttributes. rewrite Hcur. simpl.
  unfold Registry.getLanguageInfo, Registry.isRTL.
  rewrite (lookup_own code i Hown). simpl.
  assert (Hdir : ∀ h, getAttribute (setAttribute h "dir"
                                      (if Registry.rtl i then "rtl" else "ltr")) "dir"
                      = Some (if Registry.rtl i then "rtl" else "ltr")).
  { intros h. unfold getAttribute, setAttribute. simpl. by rewrite lookup_insert_eq. }
  destruct (LocalizationEngine.body_classes p) as [bc|]; simpl; [|by rewrite Hdir].
  match goal with
  | |- context [LocalizationEngine.updateContentWithDataAttributes b e ?t (Element ?x ?c)] =>
      destruct (content_root_attribute e t x c "dir" ltac:(done))
        as (x' & c' & Hroot & Hattr);
      destruct (LocalizationEngine.updateContentWithDataAttributes b e t (Element x c))
        as [root2 raised2]
  end.
  simpl in Hroot. subst root2. rewrite Hdir in Hattr.
  destruct (LocalizationEngine.replaces_root b e _ _);
    (destruct raised2; simpl; [done|]);
    (destruct (updateNavigation _ _) as [c3 [|]]; simpl; [done|]);
    (destruct (updateForms _ _) as [c4 [|]]; simpl; [done|]);
    by destruct (updateMetaTags _ _) as [c5 [|]].
Qed.

Lemma updateRTL_html (e : LocalizationEngine.engine) (p : LocalizationEngine.page) :
  LocalizationEngine.html (LocalizationEngine.updateRTL b e p).1
  = LocalizationEngine.html p.
Proof.
  unfold LocalizationEngine.updateRTL.
  destruct (_ ≫= _) as [is_rtl|]; [|done].
  by destruct (LocalizationEngine.body_classes p).
Qed.

(** After [setLanguage] to a code of the registry whose tree is loaded, the
    [dir] attribute of the root element is the direction of that code. *)
Lemma setLanguage_dir (e : LocalizationEngine.engine) (w : LocalizationEngine.world)
    (code : string) (i : Registry.LanguageInfo) (entries : list (string * tree)) :
  assoc code Registry.SUPPORTED_LANGUAGES = Some i →
  LocalizationEngine.translations e !! code = Some (Node entries) →
  getAttribute
    (LocalizationEngine.html (LocalizationEngine.document (setLanguage e w code).2))
    "dir"
  = Some (if Registry.rtl i then "rtl" else "ltr").
Proof.
  intros Hown Htree. unfold LocalizationEngine.setLanguage.
  rewrite (lookup_own code i Hown). simpl.
  rewrite bool_decide_eq_true_2 by (simpl; rewrite Htree; by eexists).
  pose proof (updatePage_dir
                (LocalizationEngine.set_engine_languages e (Some code)
                   (LocalizationEngine.currentLanguage e))
                (LocalizationEngine.document w) code i entries eq_refl Hown Htree)
    as Hdir.
  destruct (LocalizationEngine.updatePage _ _ _ _ _ _) as [e3 p3]. simpl in Hdir.
  pose proof (updateRTL_html e3 p3) as Hhtml.
  destruct (LocalizationEngine.updateRTL b e3 p3) as [p4 raised]. simpl in Hhtml.
  destruct raised; simpl; rewrite ?saveLanguage_document; simpl; by rewrite Hhtml.
Qed.

End Engine.


Lemma setLanguage_unsupported_example :
  LocalizationEngine.currentLanguage (Example.init []).1 = Some "en"
  ∧ (Example.setLanguage (Example.init []) "xx").2 = (Example.init []).2
  ∧ LocalizationEngine.requests (Example.setLanguage (Example.init []) "xx").2
    = LocalizationEngine.requests (Example.init []).2
  ∧ LocalizationEngine.currentLanguage (Example.setLanguage (Example.init []) "xx").1
    = None.
Proof.
  split; [reflexivity|].
  pose proof (setLanguage_unsupported Example.browser Example.no_targets
                Example.no_targets Example.no_targets
                (Example.init []).1 (Example.init []).2 "xx" eq_refl)
    as (Hw & Hreq & Hcur & _).
  split; [exact Hw|]. split; [exact Hreq|].
  etransitivity; [exact Hcur|]. reflexivity.
Defined.

Lemma setLanguage_failed_load_example :
  LocalizationEngine.currentLanguage (Example.init []).1 = Some "en"
  ∧ LocalizationEngine.currentLanguage (Example.setLanguage (Example.init []) "ar").1
    = Some "ar"
  ∧ LocalizationEngine.translations (Example.setLanguage (Example.init []) "ar").1 !! "ar"
    = None
  ∧ LocalizationEngine.content
      (LocalizationEngine.document (Example.setLanguage (Example.init []) "ar").2)
    = [Element (Example.element "P" [("data-i18n", "k")]) [Text "old"]].
Proof.
  split; [reflexivity|].
  assert (Hcache : ∀ d ts,
            LocalizationEngine.cache (Example.init []).1 !! Registry.fallbackLanguage
            = Some (d, ts) → d = Node [("k", Leaf "Hello")]).
  { intros d ts Hc. vm_compute in Hc. by injection Hc as <- _. }
  pose proof (setLanguage_failed_load Example.browser Example.no_targets
                Example.no_targets Example.no_targets
                (Example.init []).1 (Example.init []).2 "ar" _
                (Node [("k", Leaf "Hello")])
                eq_refl ltac:(discriminate) eq_refl eq_refl eq_refl eq_refl
                Hcache ltac:(by eexists))
    as (Hcur & _ & Hmiss & _ & Hcontent & _).
  split; [exact Hcur|]. split; [exact Hmiss|].
  etransitivity; [exact Hcontent|]. reflexivity.
Defined.

(** The stored preference comes first: a code of the registry found in
    [localStorage] is returned whatever the cookie and the URL hold; when
    storage cannot be read nothing is returned. *)
Lemma getSavedLanguage_storage_first (b : Browser) (w : LocalizationEngine.world)
    (code : string) (i : Registry.LanguageInfo) :
  code ≠ "" →
  assoc code Registry.SUPPORTED_LANGUAGES = Some i →
  getItem (LocalizationEngine.localStorage w) Registry.localStorageKey = Ok (Some code) →
  LocalizationEngine.getSavedLanguage b w = Some code.
Proof.
  intros Hcode Hown Hstored.
  unfold LocalizationEngine.getSavedLanguage. rewrite Hstored. simpl.
  apply String.eqb_neq in Hcode. rewrite Hcode. simpl.
  unfold Registry.lookup. by rewrite Hown.
Qed.

Lemma getSavedLanguage_storage_unavailable (b : Browser) (w : LocalizationEngine.world) :
  getItem (LocalizationEngine.localStorage w) Registry.localStorageKey = Raise →
  LocalizationEngine.getSavedLanguage b w = None.
Proof.
  intros Hstored. unfold LocalizationEngine.getSavedLanguage. by rewrite Hstored.
Qed.

(** C8 (what the code does). A stored preference is accepted when the
    registry lookup for it is truthy.  A name that is not a code of the
    registry but that the registry object inherits from the built-in
    prototype of plain objects passes that test: [getSavedLanguage] returns
    it, ahead of the cookie and the URL parameter. *)
Theorem getSavedLanguage_accepts_inherited (b : Browser)
    (w : LocalizationEngine.world) (name : string) (v : val) :
  name ≠ "" →
  assoc name Registry.SUPPORTED_LANGUAGES = None →
  builtin_prop b (VObj []) name = Some (Ok v) →
  truthy v = true →
  getItem (LocalizationEngine.localStorage w) Registry.localStorageKey = Ok (Some name) →
  LocalizationEngine.getSavedLanguage b w = Some name.
Proof.
  intros Hname Hnot Hproto Htruthy Hstored.
  unfold LocalizationEngine.getSavedLanguage. rewrite Hstored. simpl.
  apply String.eqb_neq in Hname. rewrite Hname. simpl.
  unfold Registry.lookup. rewrite Hnot, Hproto. simpl. by rewrite Htruthy.
Qed.

(** With "constructor" in storage, [init] makes "constructor" the current
    language. *)
Lemma getSavedLanguage_accepts_inherited_example :
  assoc "constructor" Registry.SUPPORTED_LANGUAGES = None
  ∧ LocalizationEngine.getSavedLanguage Example.browser
      (Example.world [("marln-language", "constructor")]) = Some "constructor"
  ∧ LocalizationEngine.currentLanguage
      (Example.init [("marln-language", "constructor")]).1 = Some "constructor".
Proof.
  split; [reflexivity|]. split; [|reflexivity].
  exact (getSavedLanguage_accepts_inherited Example.browser
           (Example.world [("marln-language", "constructor")]) "constructor"
           (VBuiltinFn "Object.prototype.constructor")
           ltac:(discriminate) eq_refl eq_refl eq_refl eq_refl).
Defined.

(** ** The synchronizer as a function on documents *)

(** Induction on a document: the property holds of an element when it holds
    of its children. *)
Lemma node_induction (P : node → Prop) :
  (∀ data, P (Text data)) →
  (∀ e children, Forall P children → P (Element e children)) →
  ∀ n, P n.
Proof.
  intros Htext Helement. fix IH 1. intros [data|e children].
  - apply Htext.
  - apply Helement. induction children as [|c rest IHrest].
    + constructor.
    + constructor; [apply IH|exact IHrest].
Qed.

Lemma every_element (P : element → Prop) (e : element) (children : list node) :
  every P (Element e children) ↔ P e ∧ Forall (every P) children.
Proof.
  simpl. split; intros [He Hc]; (split; [done|]).
  - induction children as [|c rest IH]; [constructor|].
    destruct Hc as [Hc Hrest]. constructor; [done|by apply IH].
  - induction Hc as [|c rest Hc Hrest IH]; [done|]. by split.
Qed.

Lemma every_impl (P Q : element → Prop) (n : node) :
  (∀ e, P e → Q e) → every P n → every Q n.
Proof.
  intros HPQ. induction n as [data|e children IH] using node_induction; [done|].
  rewrite !every_element. intros [He Hc]. split; [by apply HPQ|].
  rewrite Forall_forall in IH. rewrite Forall_forall in Hc.
  apply Forall_forall. intros c Hin. by apply IH, Hc.
Qed.

Section Passes.
Variable attr : string.
Variable callback : element → string → outcome effect.
Variable f : element → string → effect.

(** A loop whose callback does not raise on any element of the document is
    the pass of its effects. *)
Lemma forEach_apply_pass (n : node) :
  every (fun e => ∀ key, getAttribute e attr = Some key → callback e key = Ok (f e key)) n →
  forEach attr callback n = (apply_pass attr f n, false).
Proof.
  induction n as [data|e children IH] using node_induction; [done|].
  rewrite every_element. intros [He Hc].
  assert (Hlist : forEach_list attr callback children
                  = (map (apply_pass attr f) children, false)).
  { clear He. induction children as [|c rest IHrest]; [done|].
    inversion IH as [|? ? IHc IHr]; inversion Hc as [|? ? Hc1 Hc2]; subst.
    simpl. rewrite (IHc Hc1), (IHrest IHr Hc2). done. }
  rewrite forEach_element. simpl.
  destruct (getAttribute e attr) as [key|] eqn:Hattr.
  - rewrite (He key eq_refl), Hlist. by destruct (f e key).
  - by rewrite Hlist.
Qed.

(** A loop that completes is the pass of its effects, when each call of
    the callback either raises or has that effect. *)
Lemma forEach_completed (n : node) :
  every (fun e => ∀ key, getAttribute e attr = Some key →
                   callback e key = Raise ∨ callback e key = Ok (f e key)) n →
  (forEach attr callback n).2 = false →
  forEach attr callback n = (apply_pass attr f n, false).
Proof.
  induction n as [data|e children IH] using node_induction; [done|].
  rewrite every_element. intros [He Hc].
  assert (Hlist : (forEach_list attr callback children).2 = false →
                  forEach_list attr callback children
                  = (map (apply_pass attr f) children, false)).
  { clear He. induction children as [|c rest IHrest]; [done|].
    inversion IH as [|? ? IHc IHr]; inversion Hc as [|? ? Hc1 Hc2]; subst.
    simpl. destruct (forEach attr callback c) as [c' raised] eqn:Hfc.
    destruct raised; [done|]. specialize (IHc Hc1 eq_refl).
    injection IHc as ->.
    destruct (forEach_list attr callback rest) as [rest' raised'] eqn:Hfr.
    simpl. intros ->. specialize (IHrest IHr Hc2 eq_refl).
    by injection IHrest as ->. }
  rewrite forEach_element. simpl.
  destruct (getAttribute e attr) as [key|] eqn:Hattr.
  - destruct (He key eq_refl) as [Hcb|Hcb]; rewrite Hcb; [done|].
    destruct (forEach_list attr callback children) as [children' raised] eqn:Hfl.
    destruct (f e key); simpl; intros ->; specialize (Hlist eq_refl);
      injection Hlist as ->; done.
  - destruct (forEach_list attr callback children) as [children' raised] eqn:Hfl.
    simpl. intros ->. specialize (Hlist eq_refl). by injection Hlist as ->.
Qed.




(** A pass keeps a property of the elements that its updates keep and that
    the content it writes has. *)
Lemma apply_pass_every (Q : element → Prop) (n : node) :
  every (fun e => Q e ∧ ∀ key, getAttribute e attr = Some key →
                    match f e key with
                    | Unchanged => True
                    | Update e' => Q e'
                    | Replace new_children => Forall (every Q) new_children
                    end) n →
  every Q (apply_pass attr f n).
Proof.
  induction n as [data|e children IH] using node_induction; [done|].
  rewrite every_element. intros [[HQ He] Hc].
  assert (Hlist : Forall (every Q) (map (apply_pass attr f) children)).
  { apply Forall_map. rewrite Forall_forall in IH. rewrite Forall_forall in Hc.
    apply Forall_forall. intros c Hin. by apply IH, Hc. }
  simpl. destruct (getAttribute e attr) as [key|] eqn:Hattr.
  - specialize (He key eq_refl). destruct (f e key); by apply every_element.
  - by apply every_element.
Qed.

(** A pass does nothing to a subtree without its marker. *)
Lemma apply_pass_unmarked (n : node) :
  every (fun e => getAttribute e attr = None) n → apply_pass attr f n = n.
Proof.
  induction n as [data|e children IH] using node_induction; [done|].
  rewrite every_element. intros [He Hc]. simpl. rewrite He. f_equal.
  induction children as [|c rest IHrest]; [done|].
  inversion IH; inversion Hc; subst. simpl. f_equal; auto.
Qed.

End Passes.

(** *** Writes to one element *)

Lemma marker_not_placeholder (attr : string) : attr ∈ markers → attr ≠ "placeholder".
Proof.
  intros Hin ->. apply list_elem_of_In in Hin. simpl in Hin.
  by destruct Hin as [?|[?|[?|[]]]].
Qed.

Lemma getAttribute_write_placeholder (s attr : string) (e : element) :
  attr ≠ "placeholder" →
  getAttribute (write_placeholder s e) attr = getAttribute e attr.
Proof.
  intros Hne. unfold write_placeholder, getAttribute.
  destruct (reflects_placeholder e); simpl; [|done].
  by rewrite lookup_insert_ne.
Qed.

Lemma getAttribute_write_value (s attr : string) (e : element) :
  getAttribute (write_value s e) attr = getAttribute e attr.
Proof. done. Qed.

Lemma tagName_write_placeholder (s : string) (e : element) :
  tagName (write_placeholder s e) = tagName e.
Proof. unfold write_placeholder. by destruct (reflects_placeholder e). Qed.

Lemma unmarked_plain (P : string → Prop) (e : element) :
  unmarked e →
  ∀ attr key, attr ∈ markers → getAttribute e attr = Some key → P key.
Proof. intros Hu attr key Hin Hattr. by rewrite (Hu attr Hin) in Hattr. Qed.

Section SyncFacts.
Variable b : Browser.
Variable this : SimpleLanguageToggle.toggle.
Variable language : string.

Local Abbreviation plain := (plain b this language).
Local Abbreviation hit := (hit b this language).
Local Abbreviation synchronizable := (synchronizable b this language).
Local Abbreviation sync := (sync b this language).

Lemma hit_miss (key : string) :
  SimpleLanguageToggle.getTranslation b this key language = Ok VNull → hit key = None.
Proof. unfold Spec.hit. by intros ->. Qed.

Lemma set_placeholder_string (e : element) (s : string) :
  set_placeholder b e (VStr s) = Ok (write_placeholder s e).
Proof. unfold set_placeholder, write_placeholder. by destruct (reflects_placeholder e). Qed.

Lemma set_value_string (e : element) (s : string) :
  set_value b e (VStr s) = if accepts b e s then Ok (write_value s e) else Raise.
Proof.
  unfold accepts, set_value, write_value.
  destruct (String.eqb (tagName e) "INPUT" && String.eqb (input_type e) "file"); simpl.
  { destruct (String.eqb_spec s "") as [->|Hne]; done. }
  destruct (has_numeric_value e).
  { destruct (finite_number b (VStr s)) as [finite|]; simpl; [|done].
    by destruct (negb finite && needs_finite_value e). }
  by destruct (has_value_property e).
Qed.

Lemma text_callback_plain (e : element) (key : string) :
  plain key →
  SimpleLanguageToggle.text_callback b this language e key
  = Ok (text_effect b this language e key).
Proof.
  unfold text_effect, Spec.hit, SimpleLanguageToggle.text_callback.
  intros [Hmiss|[s Hs]].
  - rewrite Hmiss. simpl.
    by rewrite (findPartialTranslation_ok b this key language VNull Hmiss).
  - rewrite Hs. simpl. destruct (String.eqb s "") eqn:Hempty; simpl.
    + by rewrite (findPartialTranslation_ok b this key language (VStr s) Hs).
    + rewrite input_type_not_placeholder, andb_false_r.
      destruct (hasAttribute e "placeholder").
      * by rewrite set_placeholder_string.
      * unfold written_content, set_innerHTML, set_textContent. simpl.
        destruct (Str.includes "<" s); simpl; [|by rewrite ?Hempty].
        destruct (Str.includes ">" s); simpl; [done|by rewrite ?Hempty].
Qed.

Lemma placeholder_callback_plain (e : element) (key : string) :
  plain key →
  SimpleLanguageToggle.placeholder_callback b this language e key
  = Ok (placeholder_effect b this language e key).
Proof.
  unfold placeholder_effect, Spec.hit, SimpleLanguageToggle.placeholder_callback.
  intros [Hmiss|[s Hs]].
  - by rewrite Hmiss.
  - rewrite Hs. simpl. destruct (String.eqb s "") eqn:Hempty; simpl; [done|].
    by rewrite set_placeholder_string.
Qed.

(** The callback of the value loop raises when the setter refuses the
    string, and has the effect of the write otherwise. *)
Lemma value_callback_plain (e : element) (key : string) :
  plain key →
  SimpleLanguageToggle.value_callback b this language e key
  = match hit key with
    | Some s => if accepts b e s then Ok (Update (write_value s e)) else Raise
    | None => Ok Unchanged
    end.
Proof.
  unfold Spec.hit, SimpleLanguageToggle.value_callback.
  intros [Hmiss|[s Hs]].
  - by rewrite Hmiss.
  - rewrite Hs. simpl. destruct (String.eqb s "") eqn:Hempty; simpl; [done|].
    rewrite set_value_string. by destruct (accepts b e s).
Qed.

Lemma value_callback_effect (e : element) (key : string) :
  plain key →
  SimpleLanguageToggle.value_callback b this language e key = Raise
  ∨ SimpleLanguageToggle.value_callback b this language e key
    = Ok (value_effect b this language e key).
Proof.
  intros Hplain. rewrite (value_callback_plain e key Hplain). unfold value_effect.
  destruct (hit key) as [s|]; [|by right].
  destruct (accepts b e s); [by right|by left].
Qed.

Local Abbreviation resolvable := (resolvable b this language).

Lemma resolvable_write_placeholder (s : string) (e : element) :
  resolvable e → resolvable (write_placeholder s e).
Proof.
  intros Hr attr key Hin. rewrite getAttribute_write_placeholder
    by by apply marker_not_placeholder.
  by apply Hr.
Qed.

Lemma resolvable_write_value (s : string) (e : element) :
  resolvable e → resolvable (write_value s e).
Proof. done. Qed.

Lemma unmarked_resolvable (e : element) : unmarked e → resolvable e.
Proof. intros Hu attr key Hin Hattr. by rewrite (Hu attr Hin) in Hattr. Qed.

Lemma text_pass_resolvable (n : node) :
  every synchronizable n →
  every resolvable (apply_pass "data-i18n" (text_effect b this language) n).
Proof.
  intros Hn. apply apply_pass_every. revert Hn. apply every_impl.
  intros e [Hr Hcontent]. split; [done|]. intros key Hattr.
  unfold text_effect. destruct (hit key) as [s|] eqn:Hhit; [|done].
  destruct (hasAttribute e "placeholder").
  - by apply resolvable_write_placeholder.
  - specialize (Hcontent key s Hattr Hhit).
    eapply Forall_impl; [exact Hcontent|].
    intros c. apply every_impl, unmarked_resolvable.
Qed.

Lemma placeholder_pass_resolvable (n : node) :
  every resolvable n →
  every resolvable
    (apply_pass "data-i18n-placeholder" (placeholder_effect b this language) n).
Proof.
  intros Hn. apply apply_pass_every. revert Hn. apply every_impl.
  intros e Hr. split; [done|]. intros key Hattr.
  unfold placeholder_effect. destruct (hit key) as [s|]; [|done].
  by apply resolvable_write_placeholder.
Qed.

(** On a document that can be synchronized, the loops over the text and
    the placeholder markers do not raise: [applyTranslations] is their two
    passes followed by the loop over the value markers. *)
Lemma applyTranslations_passes (root : node) :
  loaded b this language →
  every synchronizable root →
  SimpleLanguageToggle.applyTranslations b this language root
  = forEach "data-i18n-value" (SimpleLanguageToggle.value_callback b this language)
      (apply_pass "data-i18n-placeholder" (placeholder_effect b this language)
         (apply_pass "data-i18n" (text_effect b this language) root)).
Proof.
  intros (v & Hv & Htruthy & Hkeys) Hroot.
  unfold SimpleLanguageToggle.applyTranslations. rewrite Hv, Htruthy. simpl.
  apply Nat.eqb_neq in Hkeys. rewrite Hkeys.
  rewrite (forEach_apply_pass _ _ (text_effect b this language)).
  2: { revert Hroot. apply every_impl. intros e [Hr _] key Hattr.
       apply text_callback_plain, (Hr "data-i18n"); [|done].
       apply list_elem_of_In. simpl. auto. }
  simpl.
  rewrite (forEach_apply_pass _ _ (placeholder_effect b this language)).
  2: { generalize (text_pass_resolvable root Hroot). apply every_impl.
       intros e Hr key Hattr.
       apply placeholder_callback_plain, (Hr "data-i18n-placeholder"); [|done].
       apply list_elem_of_In. simpl. auto. }
  done.
Qed.

(** When it completes, it is the three passes. *)
Lemma applyTranslations_sync (root : node) :
  loaded b this language →
  every synchronizable root →
  (SimpleLanguageToggle.applyTranslations b this language root).2 = false →
  SimpleLanguageToggle.applyTranslations b this language root = (sync root, false).
Proof.
  intros Hloaded Hroot. rewrite applyTranslations_passes by done.
  apply forEach_completed.
  generalize (placeholder_pass_resolvable _ (text_pass_resolvable root Hroot)).
  apply every_impl. intros e Hr key Hattr.
  apply value_callback_effect, (Hr "data-i18n-value"); [|done].
  apply list_elem_of_In. simpl. auto.
Qed.

(** When the tree is not loaded or has no entry, [applyTranslations]
    returns at once. *)
Lemma applyTranslations_not_loaded (root : node) (v : val) :
  get_prop b (VObj (SimpleLanguageToggle.translations this)) language = Ok v →
  truthy v = false ∨ SimpleLanguageToggle.keys_length v = 0 →
  SimpleLanguageToggle.applyTranslations b this language root = (root, false).
Proof.
  intros Hv Hor. unfold SimpleLanguageToggle.applyTranslations. rewrite Hv.
  destruct (truthy v); simpl; [|done].
  destruct Hor as [?|Hzero]; [done|]. by rewrite Hzero.
Qed.

End SyncFacts.

(** *** The three passes on one element *)

Lemma reflects_write_placeholder (s : string) (e : element) :
  reflects_placeholder (write_placeholder s e) = reflects_placeholder e.
Proof. unfold reflects_placeholder. by rewrite tagName_write_placeholder. Qed.

Lemma write_placeholder_twice (s1 s2 : string) (e : element) :
  write_placeholder s2 (write_placeholder s1 e) = write_placeholder s2 e.
Proof.
  unfold write_placeholder at 1. rewrite reflects_write_placeholder.
  unfold write_placeholder.
  destruct (reflects_placeholder e); unfold setAttribute, set_prop; simpl;
    by rewrite insert_insert_eq.
Qed.

Lemma write_value_twice (s1 s2 : string) (e : element) :
  write_value s2 (write_value s1 e) = write_value s2 e.
Proof. unfold write_value, set_prop. simpl. by rewrite insert_insert_eq. Qed.

Lemma write_placeholder_value (s1 s2 : string) (e : element) :
  write_placeholder s2 (write_value s1 e) = write_value s1 (write_placeholder s2 e).
Proof.
  unfold write_placeholder, write_value, reflects_placeholder, setAttribute, set_prop.
  simpl. destruct (_ || _); simpl; [done|].
  by rewrite insert_insert_ne.
Qed.

Lemma hasAttribute_write_placeholder (s : string) (e : element) :
  hasAttribute (write_placeholder s e) "placeholder"
  = hasAttribute e "placeholder" || reflects_placeholder e.
Proof.
  unfold write_placeholder, hasAttribute.
  destruct (reflects_placeholder e); simpl.
  - rewrite lookup_insert_eq, orb_true_r. by apply bool_decide_eq_true_2.
  - by rewrite orb_false_r.
Qed.

Lemma put_put (p1 p2 v1 v2 : option string) (e : element) :
  put p2 v2 (put p1 v1 e)
  = put (from_option Some p1 p2) (from_option Some v1 v2) e.
Proof.
  unfold put. destruct p1, p2, v1, v2; simpl;
    rewrite ?write_placeholder_value, ?write_value_twice, ?write_placeholder_twice,
      ?write_placeholder_value, ?write_value_twice; done.
Qed.

Lemma getAttribute_put (p v : option string) (attr : string) (e : element) :
  attr ≠ "placeholder" → getAttribute (put p v e) attr = getAttribute e attr.
Proof.
  intros Hne. unfold put.
  destruct p, v; rewrite ?getAttribute_write_value, ?getAttribute_write_placeholder; done.
Qed.

Lemma tagName_put (p v : option string) (e : element) :
  tagName (put p v e) = tagName e.
Proof.
  unfold put. destruct p, v; simpl; rewrite ?tagName_write_placeholder; done.
Qed.

Lemma hasAttribute_put (p v : option string) (e : element) :
  hasAttribute (put p v e) "placeholder"
  = hasAttribute e "placeholder" || (reflects_placeholder e && bool_decide (is_Some p)).
Proof.
  unfold put.
  assert (Hv : ∀ s x, hasAttribute (write_value s x) "placeholder"
                      = hasAttribute x "placeholder") by done.
  destruct p, v; rewrite ?Hv, ?hasAttribute_write_placeholder; simpl;
    try (by rewrite andb_true_r); by rewrite andb_false_r, orb_false_r.
Qed.

Section Fused.
Variable b : Browser.
Variable this : SimpleLanguageToggle.toggle.
Variable language : string.

Local Abbreviation hit := (hit b this language).
Local Abbreviation synchronizable := (synchronizable b this language).
Local Abbreviation sync := (sync b this language).
Local Abbreviation sync_element := (sync_element b this language).
Local Abbreviation last_placeholder := (last_placeholder b this language).

Lemma sync_element_put (e : element) :
  sync_element e
  = put (last_placeholder e) (getAttribute e "data-i18n-value" ≫= hit) e.
Proof.
  unfold Spec.sync_element, Spec.last_placeholder, put.
  destruct (getAttribute e "data-i18n-placeholder" ≫= hit) as [s2|];
    destruct (getAttribute e "data-i18n" ≫= hit) as [s1|];
    destruct (hasAttribute e "placeholder"); simpl;
    rewrite ?write_placeholder_twice; done.
Qed.

Lemma unmarked_every_attr (attr : string) (n : node) :
  attr ∈ markers → every unmarked n → every (fun e => getAttribute e attr = None) n.
Proof. intros Hin. apply every_impl. intros e Hu. by apply Hu. Qed.

Lemma unmarked_content_fixed (attr : string) (f : element → string → effect)
    (l : list node) :
  attr ∈ markers → Forall (every unmarked) l → map (apply_pass attr f) l = l.
Proof.
  intros Hin Hl. induction Hl as [|c rest Hc Hrest IH]; [done|].
  simpl. rewrite IH. f_equal. by apply apply_pass_unmarked, unmarked_every_attr.
Qed.

Lemma text_pass_element (e : element) (children : list node) :
  apply_pass "data-i18n" (text_effect b this language) (Element e children)
  = match getAttribute e "data-i18n" ≫= hit with
    | Some s =>
        if hasAttribute e "placeholder"
        then Element (write_placeholder s e)
               (map (apply_pass "data-i18n" (text_effect b this language)) children)
        else Element e (written_content b e s)
    | None =>
        Element e (map (apply_pass "data-i18n" (text_effect b this language)) children)
    end.
Proof.
  cbn [apply_pass]. set (p := apply_pass _ _).
  destruct (getAttribute e "data-i18n") as [key|]; simpl; [|done].
  unfold text_effect. destruct (hit key) as [s|]; [|done].
  by destruct (hasAttribute e "placeholder").
Qed.

Lemma placeholder_pass_element (e : element) (children : list node) :
  apply_pass "data-i18n-placeholder" (placeholder_effect b this language)
    (Element e children)
  = Element
      (match getAttribute e "data-i18n-placeholder" ≫= hit with
       | Some s => write_placeholder s e
       | None => e
       end)
      (map (apply_pass "data-i18n-placeholder" (placeholder_effect b this language))
         children).
Proof.
  cbn [apply_pass]. set (p := apply_pass _ _).
  destruct (getAttribute e "data-i18n-placeholder") as [key|]; simpl; [|done].
  unfold placeholder_effect. by destruct (hit key) as [s|].
Qed.

Lemma value_pass_element (e : element) (children : list node) :
  apply_pass "data-i18n-value" (value_effect b this language) (Element e children)
  = Element
      (match getAttribute e "data-i18n-value" ≫= hit with
       | Some s => write_value s e
       | None => e
       end)
      (map (apply_pass "data-i18n-value" (value_effect b this language)) children).
Proof.
  cbn [apply_pass]. set (p := apply_pass _ _).
  destruct (getAttribute e "data-i18n-value") as [key|]; simpl; [|done].
  unfold value_effect. by destruct (hit key) as [s|].
Qed.

(** The three passes on an element: its placeholder and value are written,
    and its children are either replaced by the content of the text marker or
    synchronized in their turn. *)
Lemma sync_node (e : element) (children : list node) :
  synchronizable e →
  sync (Element e children)
  = Element (sync_element e)
      (match getAttribute e "data-i18n" ≫= hit with
       | Some s => if hasAttribute e "placeholder"
                   then map sync children else written_content b e s
       | None => map sync children
       end).
Proof.
  intros [_ Hcontent].
  assert (Hin2 : "data-i18n-placeholder" ∈ markers)
    by (apply list_elem_of_In; simpl; auto).
  assert (Hin3 : "data-i18n-value" ∈ markers)
    by (apply list_elem_of_In; simpl; auto).
  assert (Hmap : ∀ l, map (apply_pass "data-i18n-value" (value_effect b this language))
                   (map (apply_pass "data-i18n-placeholder" (placeholder_effect b this language))
                      (map (apply_pass "data-i18n" (text_effect b this language)) l))
                 = map sync l).
  { intros l. rewrite !map_map. done. }
  assert (Hw : ∀ s x, getAttribute (write_placeholder s x) "data-i18n-placeholder"
                      = getAttribute x "data-i18n-placeholder").
  { intros s x. by apply getAttribute_write_placeholder. }
  assert (Hw' : ∀ s x, getAttribute (write_placeholder s x) "data-i18n-value"
                       = getAttribute x "data-i18n-value").
  { intros s x. by apply getAttribute_write_placeholder. }
  unfold Spec.sync at 1. rewrite text_pass_element.
  unfold Spec.sync_element.
  destruct (getAttribute e "data-i18n" ≫= hit) as [s1|] eqn:Hhit1.
  - destruct (hasAttribute e "placeholder") eqn:Hph.
    + rewrite placeholder_pass_element, value_pass_element, Hmap, Hw.
      destruct (getAttribute e "data-i18n-placeholder" ≫= hit); by rewrite ?Hw'.
    + rewrite placeholder_pass_element, value_pass_element.
      apply bind_Some in Hhit1 as (key1 & Hkey1 & Hhit1).
      specialize (Hcontent key1 s1 Hkey1 Hhit1).
      rewrite (unmarked_content_fixed "data-i18n-placeholder" _ _ Hin2 Hcontent),
        (unmarked_content_fixed "data-i18n-value" _ _ Hin3 Hcontent).
      destruct (getAttribute e "data-i18n-placeholder" ≫= hit); by rewrite ?Hw'.
  - rewrite placeholder_pass_element, value_pass_element, Hmap.
    destruct (getAttribute e "data-i18n-placeholder" ≫= hit); by rewrite ?Hw'.
Qed.

End Fused.

(** *** Synchronizing twice, and with another language in between *)

Lemma unmarked_synchronizable (b : Browser) (this : SimpleLanguageToggle.toggle)
    (language : string) (e : element) :
  unmarked e → synchronizable b this language e.
Proof.
  intros Hu. split; [by apply unmarked_resolvable|].
  intros key s Hattr. rewrite Hu in Hattr; [done|].
  apply list_elem_of_In. simpl. auto.
Qed.

Lemma synchronizable_put (b : Browser) (this : SimpleLanguageToggle.toggle)
    (language : string) (p v : option string) (e : element) :
  synchronizable b this language e → synchronizable b this language (put p v e).
Proof.
  intros [Hr Hcontent]. split.
  - intros attr key Hin. rewrite getAttribute_put by by apply marker_not_placeholder.
    by apply Hr.
  - intros key s. rewrite getAttribute_put by done.
    unfold written_content. rewrite tagName_put. apply Hcontent.
Qed.

Lemma map_fixed {A : Type} (f : A → A) (l : list A) :
  map f l = l → Forall (fun x => f x = x) l.
Proof.
  induction l as [|x rest IH]; simpl; [constructor|].
  intros [= Hx Hrest]. constructor; auto.
Qed.

Section TwoLanguages.
Variable b : Browser.
Variable this : SimpleLanguageToggle.toggle.
Variable language other : string.

(** Synchronizing with another language keeps a document synchronizable. *)
Lemma sync_synchronizable (n : node) :
  every (synchronizable b this other) n →
  every (synchronizable b this language) n →
  every (synchronizable b this language) (sync b this other n).
Proof.
  induction n as [data|e children IH] using node_induction; [done|].
  rewrite !every_element. intros [Heo Hco] [Hel Hcl].
  rewrite sync_node by done. apply every_element. split.
  - rewrite sync_element_put. by apply synchronizable_put.
  - assert (Hkids : Forall (every (synchronizable b this language))
                      (map (sync b this other) children)).
    { apply Forall_map. rewrite Forall_forall in IH. rewrite Forall_forall in Hco.
      rewrite Forall_forall in Hcl.
      apply Forall_forall. intros c Hin. by apply IH; [|apply Hco|apply Hcl]. }
    destruct (getAttribute e "data-i18n" ≫= hit b this other) as [s|] eqn:Hhit;
      [|done].
    destruct (hasAttribute e "placeholder"); [done|].
    apply bind_Some in Hhit as (key & Hkey & Hhit).
    destruct Heo as [_ Hcontent]. specialize (Hcontent key s Hkey Hhit).
    eapply Forall_impl; [exact Hcontent|].
    intros c. apply every_impl, unmarked_synchronizable.
Qed.

End TwoLanguages.

Section Idempotent.
Variable b : Browser.
Variable this : SimpleLanguageToggle.toggle.
Variable language : string.

Local Abbreviation hit := (hit b this language).
Local Abbreviation synchronizable := (synchronizable b this language).
Local Abbreviation sync := (sync b this language).
Local Abbreviation sync_element := (sync_element b this language).
Local Abbreviation last_placeholder := (last_placeholder b this language).

Lemma sync_unmarked (n : node) : every unmarked n → sync n = n.
Proof.
  intros Hu. unfold Spec.sync.
  rewrite (apply_pass_unmarked "data-i18n" _ n),
    (apply_pass_unmarked "data-i18n-placeholder" _ n),
    (apply_pass_unmarked "data-i18n-value" _ n); [done|..];
    (eapply every_impl; [|exact Hu]); intros e He; apply He;
    apply list_elem_of_In; simpl; auto.
Qed.

Lemma sync_element_twice (e : element) :
  sync_element (sync_element e) = sync_element e.
Proof.
  rewrite !sync_element_put, put_put.
  rewrite getAttribute_put by done.
  unfold Spec.last_placeholder.
  rewrite !getAttribute_put by done. rewrite hasAttribute_put.
  destruct (getAttribute e "data-i18n-placeholder" ≫= hit) as [s2|]; simpl.
  - by destruct (getAttribute e "data-i18n-value" ≫= hit).
  - destruct (hasAttribute e "placeholder"); simpl.
    + destruct (getAttribute e "data-i18n" ≫= hit);
        by destruct (getAttribute e "data-i18n-value" ≫= hit).
    + rewrite andb_false_r.
      by destruct (getAttribute e "data-i18n-value" ≫= hit).
Qed.

(** Synchronizing a synchronized document changes nothing. *)
Lemma sync_twice (n : node) :
  every synchronizable n → sync (sync n) = sync n.
Proof.
  induction n as [data|e children IH] using node_induction; [done|].
  rewrite every_element. intros [He Hc].
  assert (Hkids : map sync (map sync children) = map sync children).
  { rewrite Forall_forall in IH. rewrite Forall_forall in Hc.
    rewrite map_map. apply map_ext_in. intros c Hin%list_elem_of_In.
    by apply IH, Hc. }
  rewrite (sync_node b this language e children He).
  rewrite sync_node.
  2: { rewrite sync_element_put. by apply synchronizable_put. }
  rewrite sync_element_twice. f_equal.
  rewrite sync_element_put. rewrite getAttribute_put by done.
  rewrite hasAttribute_put.
  destruct (getAttribute e "data-i18n" ≫= hit) as [s|] eqn:Hhit; [|done].
  destruct (hasAttribute e "placeholder"); simpl; [done|].
  apply bind_Some in Hhit as (key & Hkey & Hhit).
  destruct He as [_ Hcontent]. specialize (Hcontent key s Hkey Hhit).
  destruct (reflects_placeholder e && _).
  - clear -Hcontent. induction Hcontent as [|c rest Hc Hrest IHc]; [done|].
    simpl. rewrite IHc. f_equal. by apply sync_unmarked.
  - unfold written_content. by rewrite tagName_put.
Qed.

End Idempotent.

Section RoundTrip.
Variable b : Browser.
Variable this : SimpleLanguageToggle.toggle.
Variable language other : string.

Local Abbreviation covered := (covers b this language other).

Lemma covered_hit (attr : string) (e : element) :
  attr ∈ markers → covered e →
  getAttribute e attr ≫= hit b this language = None →
  getAttribute e attr ≫= hit b this other = None.
Proof.
  intros Hin Hcov Hnone.
  destruct (getAttribute e attr) as [key|] eqn:Hattr; [|done]. simpl in *.
  destruct (hit b this other key) as [so|] eqn:Ho; [|done].
  destruct (Hcov attr key Hin Hattr) as [sl Hs]; [by eexists|].
  by rewrite Hs in Hnone.
Qed.

Lemma put_fixed_placeholder (p v : option string) (e : element) :
  put p v e = e → is_Some p → hasAttribute e "placeholder" = reflects_placeholder e || hasAttribute e "placeholder".
Proof.
  intros Hfix [s ->]. rewrite <- Hfix at 1. rewrite hasAttribute_put.
  rewrite bool_decide_eq_true_2 by by eexists.
  rewrite andb_true_r. apply orb_comm.
Qed.

(** On an element that synchronizing with [language] leaves as it is,
    synchronizing with [other] and then with [language] restores it. *)
Lemma sync_element_round_trip (e : element) :
  covered e →
  sync_element b this language e = e →
  sync_element b this language (sync_element b this other e) = e.
Proof.
  intros Hcov Hfix.
  assert (Hin1 : "data-i18n" ∈ markers) by (apply list_elem_of_In; simpl; auto).
  assert (Hin2 : "data-i18n-placeholder" ∈ markers)
    by (apply list_elem_of_In; simpl; auto).
  assert (Hin3 : "data-i18n-value" ∈ markers)
    by (apply list_elem_of_In; simpl; auto).
  rewrite sync_element_put in Hfix.
  rewrite (sync_element_put b this other e).
  rewrite sync_element_put, put_put.
  rewrite getAttribute_put by done.
  etransitivity; [|exact Hfix]. f_equal.
  - unfold last_placeholder. rewrite !getAttribute_put by done.
    rewrite hasAttribute_put.
    pose proof (covered_hit _ e Hin2 Hcov) as H2.
    pose proof (covered_hit _ e Hin1 Hcov) as H1.
    destruct (getAttribute e "data-i18n-placeholder" ≫= hit b this language)
      as [s2|]; [done|].
    rewrite (H2 eq_refl).
    destruct (hasAttribute e "placeholder"); simpl.
    + destruct (getAttribute e "data-i18n" ≫= hit b this language) as [s1|]; [done|].
      by rewrite (H1 eq_refl).
    + by rewrite andb_false_r.
  - pose proof (covered_hit _ e Hin3 Hcov) as H3.
    destruct (getAttribute e "data-i18n-value" ≫= hit b this language) as [s3|];
      [done|].
    by rewrite (H3 eq_refl).
Qed.

(** The same on a document. *)
Lemma sync_round_trip (n : node) :
  every covered n →
  every (synchronizable b this other) n →
  every (synchronizable b this language) n →
  sync b this language n = n →
  sync b this language (sync b this other n) = n.
Proof.
  induction n as [data|e children IH] using node_induction; [done|].
  rewrite !every_element. intros [Hcov Hccov] [Heo Hco] [Hel Hcl] Hfix.
  assert (Hin1 : "data-i18n" ∈ markers) by (apply list_elem_of_In; simpl; auto).
  assert (Hin2 : "data-i18n-placeholder" ∈ markers)
    by (apply list_elem_of_In; simpl; auto).
  rewrite (sync_node b this language e children Hel) in Hfix.
  injection Hfix as Hefix Hcfix.
  assert (Hkids : map (sync b this language) children = children →
                  map (sync b this language) (map (sync b this other) children)
                  = children).
  { intros Hmap%map_fixed. rewrite map_map.
    rewrite <- (map_id children) at 2. apply map_ext_in.
    intros c Hin%list_elem_of_In.
    rewrite Forall_forall in IH, Hccov, Hco, Hcl, Hmap.
    by apply IH; [|apply Hccov|apply Hco|apply Hcl|apply Hmap]. }
  rewrite (sync_node b this other e children Heo).
  rewrite sync_node.
  2: { rewrite sync_element_put. by apply synchronizable_put. }
  rewrite (sync_element_round_trip e Hcov Hefix). f_equal.
  rewrite (sync_element_put b this other e). rewrite getAttribute_put by done.
  rewrite hasAttribute_put.
  pose proof (covered_hit _ e Hin1 Hcov) as H1.
  destruct (getAttribute e "data-i18n" ≫= hit b this language) as [s|] eqn:Hhit.
  - destruct (hasAttribute e "placeholder") eqn:Hph; simpl.
    + destruct (getAttribute e "data-i18n" ≫= hit b this other); by apply Hkids.
    + (* the content of the text marker: the placeholder marker cannot have
         created the attribute in between *)
      assert (Hno : reflects_placeholder e
                    && bool_decide (is_Some (last_placeholder b this other e)) = false).
      { unfold last_placeholder. rewrite Hph.
        pose proof (covered_hit _ e Hin2 Hcov) as H2.
        destruct (getAttribute e "data-i18n-placeholder" ≫= hit b this other)
          as [s2|] eqn:Ho; [|by rewrite andb_false_r].
        destruct (getAttribute e "data-i18n-placeholder" ≫= hit b this language)
          as [s2'|] eqn:Hl; [|by specialize (H2 eq_refl)].
        rewrite sync_element_put in Hefix.
        assert (Hsome : is_Some (last_placeholder b this language e)).
        { unfold last_placeholder. rewrite Hl. by eexists. }
        pose proof (put_fixed_placeholder _ _ e Hefix Hsome) as Hattr.
        rewrite Hph, orb_false_r in Hattr. by rewrite <- Hattr. }
      rewrite Hno. unfold written_content. rewrite tagName_put. exact Hcfix.
  - rewrite (H1 eq_refl). by apply Hkids.
Qed.

End RoundTrip.
(** *** Tactics for closed documents *)

(** The cases of a marker attribute. *)
Ltac marker_cases Hin :=
  apply list_elem_of_In in Hin; simpl in Hin;
  destruct Hin as [<-|[<-|[<-|[]]]].

(** On a closed element: each marker key resolves to a string or to
    NOT_FOUND. *)
Ltac closed_resolvable :=
  let attr := fresh "attr" in
  let key := fresh "key" in
  let Hin := fresh "Hin" in
  let Hattr := fresh "Hattr" in
  intros attr key Hin Hattr; marker_cases Hin;
  vm_compute in Hattr; try discriminate Hattr;
  injection Hattr as <-;
  first [ left; vm_compute; reflexivity
        | right; eexists; vm_compute; reflexivity ].


(** On a closed toggle: the tree is loaded and has entries; every marker key
    that is a hit in one language is a hit in the other. *)
Ltac closed_loaded :=
  eexists; split; [vm_compute; reflexivity|]; split; [reflexivity|];
  vm_compute; discriminate.

Ltac closed_covers :=
  let attr := fresh "attr" in
  let key := fresh "key" in
  let Hin := fresh "Hin" in
  let Hattr := fresh "Hattr" in
  intros attr key Hin Hattr _; marker_cases Hin;
  vm_compute in Hattr; try discriminate Hattr;
  injection Hattr as <-; vm_compute; eexists; reflexivity.

(** *** A loop that raises on the way, run again *)

Section Again.
Variable attr : string.
Variable callback : element → string → outcome effect.

(** The callback works in place and is stable: it replaces no children,
    and on the element it has updated it makes the same update again. *)
Hypothesis Hstable : ∀ e key,
  getAttribute e attr = Some key →
  match callback e key with
  | Ok (Update e') =>
      getAttribute e' attr = Some key ∧ callback e' key = Ok (Update e')
  | Ok (Replace _) => False
  | _ => True
  end.


End Again.

Section Refused.
Variable b : Browser.
Variable this : SimpleLanguageToggle.toggle.
Variable language : string.

Local Abbreviation hit := (hit b this language).
Local Abbreviation synchronizable := (synchronizable b this language).
Local Abbreviation sync_text := (sync_text b this language).
Local Abbreviation last_placeholder := (last_placeholder b this language).
Local Abbreviation value_loop :=
  (forEach "data-i18n-value" (SimpleLanguageToggle.value_callback b this language)).




(** The first two passes on an element. *)
Lemma sync_text_node (e : element) (children : list node) :
  synchronizable e →
  sync_text (Element e children)
  = Element (put (last_placeholder e) None e)
      (match getAttribute e "data-i18n" ≫= hit with
       | Some s => if hasAttribute e "placeholder"
                   then map sync_text children else written_content b e s
       | None => map sync_text children
       end).
Proof.
  intros [_ Hcontent].
  assert (Hin2 : "data-i18n-placeholder" ∈ markers)
    by (apply list_elem_of_In; simpl; auto).
  assert (Hmap : ∀ l, map (apply_pass "data-i18n-placeholder"
                             (placeholder_effect b this language))
                        (map (apply_pass "data-i18n" (text_effect b this language)) l)
                      = map sync_text l).
  { intros l. by rewrite map_map. }
  assert (Hw : ∀ s x, getAttribute (write_placeholder s x) "data-i18n-placeholder"
                      = getAttribute x "data-i18n-placeholder").
  { intros s x. by apply getAttribute_write_placeholder. }
  unfold Spec.sync_text at 1. rewrite text_pass_element.
  unfold Spec.last_placeholder, put.
  destruct (getAttribute e "data-i18n" ≫= hit) as [s1|] eqn:Hhit1.
  - destruct (hasAttribute e "placeholder") eqn:Hph.
    + rewrite placeholder_pass_element, Hmap, Hw.
      destruct (getAttribute e "data-i18n-placeholder" ≫= hit);
        by rewrite ?write_placeholder_twice.
    + rewrite placeholder_pass_element.
      apply bind_Some in Hhit1 as (key1 & Hkey1 & Hhit1).
      specialize (Hcontent key1 s1 Hkey1 Hhit1).
      rewrite (unmarked_content_fixed "data-i18n-placeholder" _ _ Hin2 Hcontent).
      by destruct (getAttribute e "data-i18n-placeholder" ≫= hit).
  - rewrite placeholder_pass_element, Hmap.
    destruct (getAttribute e "data-i18n-placeholder" ≫= hit); [done|].
    by destruct (hasAttribute e "placeholder").
Qed.







End Refused.
(** ** An element somewhere in the document *)

Lemma node_at_child (i : nat) (rest : list nat) (e : element)
    (children : list node) (n : node) :
  node_at (i :: rest) (Element e children) = Some n
  ↔ ∃ c, children !! i = Some c ∧ node_at rest c = Some n.
Proof.
  cbn [node_at]. destruct (children !! i) as [c|]; simpl.
  - split; [by exists c|]. by intros (c' & [= <-] & Hn).
  - split; [done|]. by intros (c' & ? & _).
Qed.

Lemma every_node_at (P : element → Prop) (path : list nat) :
  ∀ root n, every P root → node_at path root = Some n → every P n.
Proof.
  induction path as [|i rest IH]; intros root n Hroot Hn.
  { by injection Hn as <-. }
  destruct root as [data|e children]; [done|].
  apply node_at_child in Hn as (c & Hc & Hn).
  apply every_element in Hroot as [_ Hchildren].
  rewrite Forall_forall in Hchildren.
  apply (IH c n); [|done]. by apply Hchildren, list_elem_of_lookup_2 with i.
Qed.

Section Positions.
Variable attr : string.
Variable callback : element → string → outcome effect.

Lemma forEach_list_lookup (l : list node) (i : nat) (c : node) :
  (forEach_list attr callback l).2 = false → l !! i = Some c →
  (forEach_list attr callback l).1 !! i = Some (forEach attr callback c).1
  ∧ (forEach attr callback c).2 = false.
Proof.
  revert i. induction l as [|x rest IH]; intros i; [done|].
  simpl. destruct (forEach attr callback x) as [x' raised] eqn:Hx.
  destruct raised; [done|].
  destruct (forEach_list attr callback rest) as [rest' raised'] eqn:Hrest.
  simpl in *. intros -> Hi. destruct i as [|i]; simpl in *.
  - injection Hi as <-. by rewrite Hx.
  - by apply IH.
Qed.

(** A loop that completes reaches every node that it keeps in the
    document, and does there what it does on the subtree alone. *)
Lemma forEach_at (path : list nat) :
  ∀ root n,
    node_at path root = Some n →
    kept attr callback path root →
    (forEach attr callback root).2 = false →
    node_at path (forEach attr callback root).1 = Some (forEach attr callback n).1
    ∧ (forEach attr callback n).2 = false.
Proof.
  induction path as [|i rest IH]; intros root n Hn Hkept Hdone.
  { injection Hn as <-. done. }
  destruct root as [data|e children]; [done|].
  apply node_at_child in Hn as (c & Hc & Hn).
  destruct Hkept as [Hself Hbelow]. specialize (Hbelow c Hc).
  rewrite forEach_element in Hdone |- *.
  pose proof (forEach_list_lookup children i c) as Hlookup.
  destruct (forEach_list attr callback children) as [children' raised] eqn:Hchildren.
  simpl in Hlookup.
  assert (Hcont : raised = false →
            node_at (i :: rest) (Element e children')
            = Some (forEach attr callback n).1
            ∧ (forEach attr callback n).2 = false).
  { intros ->. destruct (Hlookup eq_refl Hc) as [Hi Hcdone].
    destruct (IH c n Hn Hbelow Hcdone) as [Hat Hndone].
    split; [|done]. apply node_at_child. by eexists. }
  assert (Hcont' : ∀ e', raised = false →
            node_at (i :: rest) (Element e' children')
            = Some (forEach attr callback n).1
            ∧ (forEach attr callback n).2 = false).
  { intros e' Hr. destruct (Hcont Hr) as [Hat Hndone]. split; [|done].
    apply node_at_child. by apply node_at_child in Hat. }
  destruct (getAttribute e attr) as [key|] eqn:Hattr; [|by apply Hcont].
  specialize (Hself key).
  destruct (callback e key) as [[|e'|new_children]|]; simpl in *;
    [by apply Hcont|by apply Hcont'| |done].
  by destruct (Hself new_children eq_refl).
Qed.

(** A loop that replaces no children keeps every node. *)
Lemma kept_in_place (path : list nat) :
  (∀ e key new_children, callback e key ≠ Ok (Replace new_children)) →
  ∀ n, kept attr callback path n.
Proof.
  intros Hnever. induction path as [|i rest IH]; intros n; [done|].
  destruct n as [data|e children]; [done|]. split; [|auto].
  intros key new_children _. apply Hnever.
Qed.


End Positions.

Section Locality.
Variable b : Browser.
Variable this : SimpleLanguageToggle.toggle.
Variable language : string.

(** [applyTranslations], when it completes, does at a node that its first
    loop keeps in the document what it does on the subtree alone. *)
Lemma applyTranslations_at (path : list nat) (root n : node) :
  node_at path root = Some n →
  kept "data-i18n" (SimpleLanguageToggle.text_callback b this language) path root →
  (SimpleLanguageToggle.applyTranslations b this language root).2 = false →
  node_at path (SimpleLanguageToggle.applyTranslations b this language root).1
  = Some (SimpleLanguageToggle.applyTranslations b this language n).1
  ∧ (SimpleLanguageToggle.applyTranslations b this language n).2 = false.
Proof.
  intros Hn Hkept. unfold SimpleLanguageToggle.applyTranslations.
  destruct (get_prop b _ language) as [v|]; [|done].
  destruct (negb (truthy v)); [done|]. simpl.
  destruct (SimpleLanguageToggle.keys_length v =? 0)%nat; [done|].
  pose proof (forEach_at "data-i18n" (SimpleLanguageToggle.text_callback b this language)
                path root n Hn Hkept) as H1.
  destruct (forEach "data-i18n" _ root) as [root1 raised1].
  destruct raised1; [done|]. destruct (H1 eq_refl) as [Hn1 Hdone1]. clear H1.
  destruct (forEach "data-i18n" _ n) as [n1 r1]. simpl in Hn1, Hdone1. subst r1.
  pose proof (forEach_at "data-i18n-placeholder"
                (SimpleLanguageToggle.placeholder_callback b this language)
                path root1 n1 Hn1
                (kept_in_place _ _ path (placeholder_callback_in_place b this language)
                   root1)) as H2.
  destruct (forEach "data-i18n-placeholder" _ root1) as [root2 raised2].
  destruct raised2; [done|]. destruct (H2 eq_refl) as [Hn2 Hdone2]. clear H2.
  destruct (forEach "data-i18n-placeholder" _ n1) as [n2 r2].
  simpl in Hn2, Hdone2. subst r2.
  apply forEach_at; [done|].
  apply kept_in_place, value_callback_in_place.
Qed.

End Locality.
(** ** A hit and a miss of a marker, in a pass over the document *)


Section OnePass.
Variable b : Browser.
Variable this : SimpleLanguageToggle.toggle.
Variable language : string.

Local Abbreviation applyTranslations :=
  (SimpleLanguageToggle.applyTranslations b this language).





End OnePass.












(** ** Switching the language and back *)

Section Toggle.
Variable b : Browser.

(** Only the trees of [this] matter to the synchronizer. *)
Lemma applyTranslations_this (c c' l l' : string) (t : list (string * tree)) :
  SimpleLanguageToggle.applyTranslations b
    {| SimpleLanguageToggle.containerId := c;
       SimpleLanguageToggle.currentLanguage := l;
       SimpleLanguageToggle.translations := t |}
  = SimpleLanguageToggle.applyTranslations b
      {| SimpleLanguageToggle.containerId := c';
         SimpleLanguageToggle.currentLanguage := l';
         SimpleLanguageToggle.translations := t |}.
Proof. reflexivity. Qed.

Lemma updateToggleLayout_widget (language : string)
    (p : SimpleLanguageToggle.page) (w : SimpleLanguageToggle.widget) :
  SimpleLanguageToggle.toggle_widget p = Some w →
  ∃ w', SimpleLanguageToggle.updateToggleLayout language p
        = Ok {| SimpleLanguageToggle.html :=
                  setAttribute (SimpleLanguageToggle.html p) "lang"
                    (if String.eqb language "ar" then "ar" else "en");
                SimpleLanguageToggle.content := SimpleLanguageToggle.content p;
                SimpleLanguageToggle.toggle_widget := Some w';
                SimpleLanguageToggle.header_style := SimpleLanguageToggle.header_style p;
                SimpleLanguageToggle.dispatched := SimpleLanguageToggle.dispatched p |}.
Proof.
  intros Hw. unfold SimpleLanguageToggle.updateToggleLayout. rewrite Hw.
  destruct (String.eqb language "ar"); eexists; reflexivity.
Qed.

Lemma opposite_lang (language : string) :
  (if String.eqb (opposite language) "ar" then "ar" else "en") = opposite language.
Proof. unfold opposite. by destruct (String.eqb language "en"). Qed.

Lemma opposite_twice (language : string) :
  language = "en" → opposite (opposite language) = "en".
Proof. by intros ->. Qed.

Lemma sync_is_element (this : SimpleLanguageToggle.toggle) (language : string)
    (e : element) (children : list node) :
  ∃ e' children', sync b this language (Element e children) = Element e' children'.
Proof.
  assert (Hpass : ∀ attr f x c, ∃ x' c', apply_pass attr f (Element x c) = Element x' c').
  { intros attr f x c. simpl. destruct (getAttribute x attr) as [key|]; [|eauto].
    destruct (f x key); eauto. }
  unfold sync.
  destruct (Hpass "data-i18n" (text_effect b this language) e children)
    as (e1 & c1 & ->).
  destruct (Hpass "data-i18n-placeholder" (placeholder_effect b this language) e1 c1)
    as (e2 & c2 & ->).
  apply Hpass.
Qed.

(** One call of [toggleLanguage] that completes, on a page that can be
    synchronized with the language it switches to. *)
Lemma toggleLanguage_step (s : SimpleLanguageToggle.state) :
  let this := SimpleLanguageToggle.this_ s in
  let language := opposite (SimpleLanguageToggle.currentLanguage this) in
  let s' := (SimpleLanguageToggle.toggleLanguage b s).1 in
  loaded b this language →
  every (synchronizable b this language) (root_of (SimpleLanguageToggle.document s)) →
  (SimpleLanguageToggle.toggleLanguage b s).2 = false →
  SimpleLanguageToggle.currentLanguage (SimpleLanguageToggle.this_ s') = language
  ∧ SimpleLanguageToggle.translations (SimpleLanguageToggle.this_ s')
    = SimpleLanguageToggle.translations this
  ∧ root_of (SimpleLanguageToggle.document s')
    = with_lang language (sync b this language (root_of (SimpleLanguageToggle.document s))).
Proof.
  intros this language s' Hloaded Hsync. subst s'.
  unfold SimpleLanguageToggle.toggleLanguage.
  destruct (SimpleLanguageToggle.toggle_widget (SimpleLanguageToggle.document s))
    as [w|]; [|done].
  fold this. fold (opposite (SimpleLanguageToggle.currentLanguage this)). fold language.
  cbn [SimpleLanguageToggle.html SimpleLanguageToggle.content].
  change (Element (SimpleLanguageToggle.html (SimpleLanguageToggle.document s))
            (SimpleLanguageToggle.content (SimpleLanguageToggle.document s)))
    with (root_of (SimpleLanguageToggle.document s)).
  match goal with
  | |- context [SimpleLanguageToggle.applyTranslations b ?t language ?r] =>
      change (SimpleLanguageToggle.applyTranslations b t language r)
        with (SimpleLanguageToggle.applyTranslations b this language r)
  end.
  pose proof (applyTranslations_sync b this language _ Hloaded Hsync) as Happly.
  destruct (sync_is_element this language
              (SimpleLanguageToggle.html (SimpleLanguageToggle.document s))
              (SimpleLanguageToggle.content (SimpleLanguageToggle.document s)))
    as (e' & c' & Hroot).
  fold (root_of (SimpleLanguageToggle.document s)) in Hroot.
  destruct (SimpleLanguageToggle.applyTranslations b this language
              (root_of (SimpleLanguageToggle.document s))) as [root2 raised].
  destruct raised; [done|]. specialize (Happly eq_refl). injection Happly as ->.
  rewrite Hroot. cbn [SimpleLanguageToggle.with_root].
  unfold SimpleLanguageToggle.updateToggleLayout.
  cbn [SimpleLanguageToggle.toggle_widget]. intros _.
  unfold root_of, with_lang. subst language. unfold opposite.
  by destruct (String.eqb (SimpleLanguageToggle.currentLanguage this) "en").
Qed.

Lemma getAttribute_setAttribute_ne (e : element) (attr attr' v : string) :
  attr ≠ attr' → getAttribute (setAttribute e attr' v) attr = getAttribute e attr.
Proof. intros Hne. unfold getAttribute, setAttribute. simpl. by rewrite lookup_insert_ne. Qed.

Lemma marker_not_lang (attr : string) : attr ∈ markers → attr ≠ "lang".
Proof.
  intros Hin ->. apply list_elem_of_In in Hin. simpl in Hin.
  by destruct Hin as [?|[?|[?|[]]]].
Qed.

Lemma put_with_lang (p v : option string) (e : element) (language : string) :
  put p v (setAttribute e "lang" language) = setAttribute (put p v e) "lang" language.
Proof.
  unfold put, write_placeholder, write_value, reflects_placeholder, setAttribute,
    set_prop. simpl.
  destruct p, v, (String.eqb (tagName e) "INPUT" || String.eqb (tagName e) "TEXTAREA");
    simpl; try done; by rewrite insert_insert_ne.
Qed.

Section WithLang.
Variable this : SimpleLanguageToggle.toggle.
Variable language lang : string.

Lemma hasAttribute_with_lang (e : element) :
  hasAttribute (setAttribute e "lang" lang) "placeholder" = hasAttribute e "placeholder".
Proof. unfold hasAttribute, setAttribute. simpl. by rewrite lookup_insert_ne. Qed.

Lemma synchronizable_with_lang (e : element) :
  synchronizable b this language e →
  synchronizable b this language (setAttribute e "lang" lang).
Proof.
  intros [Hr Hcontent]. split.
  - intros attr key Hin. rewrite getAttribute_setAttribute_ne
      by by apply marker_not_lang.
    by apply Hr.
  - intros key s. rewrite getAttribute_setAttribute_ne by done. apply Hcontent.
Qed.

Lemma sync_element_with_lang (e : element) :
  sync_element b this language (setAttribute e "lang" lang)
  = setAttribute (sync_element b this language e) "lang" lang.
Proof.
  rewrite !sync_element_put, <- put_with_lang. unfold last_placeholder.
  rewrite hasAttribute_with_lang. by rewrite !getAttribute_setAttribute_ne.
Qed.

Lemma sync_with_lang (root : node) :
  every (synchronizable b this language) root →
  sync b this language (with_lang lang root)
  = with_lang lang (sync b this language root).
Proof.
  destruct root as [data|e children]; [done|].
  rewrite every_element. intros [He _]. simpl.
  rewrite !sync_node by (done || by apply synchronizable_with_lang).
  simpl. rewrite sync_element_with_lang, hasAttribute_with_lang.
  by rewrite getAttribute_setAttribute_ne.
Qed.

Lemma every_with_lang (P : element → Prop) (root : node) :
  (∀ e, P e → P (setAttribute e "lang" lang)) →
  every P root → every P (with_lang lang root).
Proof.
  intros HP. destruct root as [data|e children]; [done|].
  simpl. intros [He Hc]. split; [by apply HP|done].
Qed.

End WithLang.

Lemma with_lang_twice (l1 l2 : string) (root : node) :
  with_lang l2 (with_lang l1 root) = with_lang l2 root.
Proof.
  destruct root as [data|e children]; [done|].
  simpl. unfold setAttribute. simpl. by rewrite insert_insert_eq.
Qed.

Lemma covers_with_lang (this : SimpleLanguageToggle.toggle)
    (language other lang : string) (e : element) :
  covers b this language other e →
  covers b this language other (setAttribute e "lang" lang).
Proof.
  intros Hc attr key Hin. rewrite getAttribute_setAttribute_ne
    by by apply marker_not_lang.
  by apply Hc.
Qed.

End Toggle.

Lemma same_translations (b : Browser) (this this' : SimpleLanguageToggle.toggle) :
  SimpleLanguageToggle.translations this' = SimpleLanguageToggle.translations this →
  loaded b this' = loaded b this
  ∧ synchronizable b this' = synchronizable b this
  ∧ sync b this' = sync b this.
Proof. destruct this, this'. simpl. intros ->. repeat split. Qed.

(** C5 (amended). Start from the English state with both trees loaded: the
    current language is English and applying the English tree changes
    nothing.  Let the page be synchronizable with both trees, and let every
    marker key that is a hit in the Arabic tree be a hit in the English tree.
    Then, whenever switching to Arabic and switching back to English both
    complete, the toggle ends in English and the document is restored: the
    root element and everything below it are as in the English state, with
    the [lang] attribute of the root set to "en".  The toggle never writes
    the [dir] attribute of the root, which keeps its value.  The engine's
    [setLanguage] to "en", with the English tree loaded, sets it to "ltr". *)
Theorem toggle_round_trip (b : Browser) (s : SimpleLanguageToggle.state) :
  let this := SimpleLanguageToggle.this_ s in
  let root := root_of (SimpleLanguageToggle.document s) in
  let s1 := (SimpleLanguageToggle.toggleLanguage b s).1 in
  let s2 := (SimpleLanguageToggle.toggleLanguage b s1).1 in
  SimpleLanguageToggle.currentLanguage this = "en" →
  loaded b this "en" →
  loaded b this "ar" →
  every (synchronizable b this "en") root →
  every (synchronizable b this "ar") root →
  every (covers b this "en" "ar") root →
  SimpleLanguageToggle.applyTranslations b this "en" root = (root, false) →
  (SimpleLanguageToggle.toggleLanguage b s).2 = false →
  (SimpleLanguageToggle.toggleLanguage b s1).2 = false →
  SimpleLanguageToggle.currentLanguage (SimpleLanguageToggle.this_ s1) = "ar"
  ∧ SimpleLanguageToggle.currentLanguage (SimpleLanguageToggle.this_ s2) = "en"
  ∧ root_of (SimpleLanguageToggle.document s2) = with_lang "en" root
  ∧ getAttribute (SimpleLanguageToggle.html (SimpleLanguageToggle.document s2)) "dir"
    = getAttribute (SimpleLanguageToggle.html (SimpleLanguageToggle.document s)) "dir"
  ∧ (∀ updateNavigation updateForms updateMetaTags e world entries,
       LocalizationEngine.translations e !! "en" = Some (Node entries) →
       getAttribute
         (LocalizationEngine.html
            (LocalizationEngine.document
               (LocalizationEngine.setLanguage b updateNavigation updateForms
                  updateMetaTags e world "en").2)) "dir"
       = Some "ltr").
Proof.
  intros this root s1 s2 Hen Hloaded_en Hloaded_ar Hsync_en Hsync_ar Hcov Hstate
    Hdone1 Hdone2.
  assert (Hfixed : sync b this "en" root = root).
  { rewrite applyTranslations_sync in Hstate by (done || by rewrite Hstate).
    by injection Hstate. }
  destruct (toggleLanguage_step b s) as (Hcur1 & Htr1 & Hroot1); [..|done|].
  { fold this. by rewrite Hen. }
  { fold this. by rewrite Hen. }
  fold this s1 in Hcur1, Htr1, Hroot1. rewrite Hen in Hcur1, Hroot1.
  change (opposite "en") with "ar" in Hcur1, Hroot1. fold root in Hroot1.
  destruct (same_translations b this (SimpleLanguageToggle.this_ s1) Htr1)
    as (Hl & Hsy & Hsn).
  destruct (toggleLanguage_step b s1) as (Hcur2 & Htr2 & Hroot2); [..|done|].
  { rewrite Hcur1, Hl. exact Hloaded_en. }
  { rewrite Hcur1, Hsy, Hroot1. change (opposite "ar") with "en".
    apply every_with_lang; [apply synchronizable_with_lang|].
    by apply sync_synchronizable. }
  fold s2 in Hcur2, Htr2, Hroot2.
  rewrite Hcur1 in Hcur2, Hroot2. change (opposite "ar") with "en" in Hcur2, Hroot2.
  rewrite Hsn, Hroot1 in Hroot2.
  rewrite sync_with_lang in Hroot2 by by apply sync_synchronizable.
  rewrite sync_round_trip in Hroot2 by done.
  rewrite with_lang_twice in Hroot2.
  split; [done|]. split; [done|]. split; [done|]. split.
  - unfold root_of, root in Hroot2. simpl in Hroot2. injection Hroot2 as -> _.
    by apply getAttribute_setAttribute_ne.
  - intros updateNavigation updateForms updateMetaTags e world entries Htree.
    exact (setLanguage_dir b updateNavigation updateForms updateMetaTags e world
             "en" _ entries eq_refl Htree).
Qed.

Lemma greeting_synchronizable (language : string) :
  language = "en" ∨ language = "ar" →
  every (synchronizable Example.browser
           (Example.loaded "en" Example.greeting_en Example.greeting_ar) language)
    (Element (Example.element "HTML" [("lang", "en")]) Example.greeting).
Proof.
  intros [-> | ->]; apply every_element; (split;
    [split; [closed_resolvable|]; intros key s Hattr; discriminate Hattr|]);
    (apply Forall_cons_2; [|apply Forall_nil_2]);
    apply every_element; (split; [|apply Forall_cons_2; [done|apply Forall_nil_2]]);
    (split; [closed_resolvable|]);
    intros key s Hattr Hhit; vm_compute in Hattr; injection Hattr as <-;
    vm_compute in Hhit; injection Hhit as <-;
    (apply Forall_cons_2; [done|apply Forall_nil_2]).
Qed.

Lemma toggle_round_trip_example :
  SimpleLanguageToggle.currentLanguage
    (SimpleLanguageToggle.this_
       (SimpleLanguageToggle.toggleLanguage Example.browser
          (SimpleLanguageToggle.toggleLanguage Example.browser
             (Example.english Example.greeting_en Example.greeting_ar Example.greeting)).1).1)
  = "en"
  ∧ root_of
      (SimpleLanguageToggle.document
         (SimpleLanguageToggle.toggleLanguage Example.browser
            (SimpleLanguageToggle.toggleLanguage Example.browser
               (Example.english Example.greeting_en Example.greeting_ar Example.greeting)).1).1)
    = with_lang "en"
        (root_of (SimpleLanguageToggle.document
                    (Example.english Example.greeting_en Example.greeting_ar
                       Example.greeting))).
Proof.
  assert (Hcov : every (covers Example.browser
                          (Example.loaded "en" Example.greeting_en Example.greeting_ar)
                          "en" "ar")
                   (Element (Example.element "HTML" [("lang", "en")]) Example.greeting)).
  { apply every_element. split; [closed_covers|].
    apply Forall_cons_2; [|apply Forall_nil_2].
    apply every_element. split; [closed_covers|].
    apply Forall_cons_2; [done|apply Forall_nil_2]. }
  assert (Hdone1 : (SimpleLanguageToggle.toggleLanguage Example.browser
                      (Example.english Example.greeting_en Example.greeting_ar
                         Example.greeting)).2 = false)
    by (vm_compute; reflexivity).
  assert (Hdone2 : (SimpleLanguageToggle.toggleLanguage Example.browser
                      (SimpleLanguageToggle.toggleLanguage Example.browser
                         (Example.english Example.greeting_en Example.greeting_ar
                            Example.greeting)).1).2 = false)
    by (vm_compute; reflexivity).
  pose proof (toggle_round_trip Example.browser
                (Example.english Example.greeting_en Example.greeting_ar Example.greeting)
                eq_refl
                ltac:(closed_loaded) ltac:(closed_loaded)
                (greeting_synchronizable "en" (or_introl eq_refl))
                (greeting_synchronizable "ar" (or_intror eq_refl))
                Hcov ltac:(vm_compute; reflexivity) Hdone1 Hdone2)
    as (_ & Hcur & Hroot & _).
  split; [exact Hcur|exact Hroot].
Defined.

(** C5, as stated, fails, also on trees that mirror each other key for key.
    The English string of the key "k" is empty: in the English state the
    paragraph is empty; the switch to Arabic writes the Arabic string, and
    the switch back finds no string to write, so that the paragraph keeps
    the Arabic one.  And on the page with the greeting, whose root has no
    [dir] attribute, the switch to Arabic and back leaves the root without
    it: the direction is not "ltr". *)
Lemma toggle_round_trip_not_restored :
  (SimpleLanguageToggle.applyTranslations Example.browser
     (Example.loaded "en" Example.blank_en Example.blank_ar) "en"
     (root_of (SimpleLanguageToggle.document
                 (Example.english Example.blank_en Example.blank_ar Example.blank)))
   = (root_of (SimpleLanguageToggle.document
                 (Example.english Example.blank_en Example.blank_ar Example.blank)),
      false)
   ∧ textContent
       (root_of (SimpleLanguageToggle.document
                   (Example.english Example.blank_en Example.blank_ar Example.blank)))
     = ""
   ∧ (SimpleLanguageToggle.toggleLanguage Example.browser
        (Example.english Example.blank_en Example.blank_ar Example.blank)).2 = false
   ∧ (SimpleLanguageToggle.toggleLanguage Example.browser
        (SimpleLanguageToggle.toggleLanguage Example.browser
           (Example.english Example.blank_en Example.blank_ar Example.blank)).1).2
     = false
   ∧ SimpleLanguageToggle.currentLanguage
       (SimpleLanguageToggle.this_
          (SimpleLanguageToggle.toggleLanguage Example.browser
             (SimpleLanguageToggle.toggleLanguage Example.browser
                (Example.english Example.blank_en Example.blank_ar Example.blank)).1).1)
     = "en"
   ∧ textContent
       (root_of
          (SimpleLanguageToggle.document
             (SimpleLanguageToggle.toggleLanguage Example.browser
                (SimpleLanguageToggle.toggleLanguage Example.browser
                   (Example.english Example.blank_en Example.blank_ar Example.blank)).1).1))
     = "مرحبا")
  ∧ getAttribute
      (SimpleLanguageToggle.html
         (SimpleLanguageToggle.document
            (Example.english Example.greeting_en Example.greeting_ar Example.greeting)))
      "dir" = None
  ∧ getAttribute
      (SimpleLanguageToggle.html
         (SimpleLanguageToggle.document
            (SimpleLanguageToggle.toggleLanguage Example.browser
               (Example.english Example.greeting_en Example.greeting_ar
                  Example.greeting)).1)) "dir" = None
  ∧ getAttribute
      (SimpleLanguageToggle.html
         (SimpleLanguageToggle.document
            (SimpleLanguageToggle.toggleLanguage Example.browser
               (SimpleLanguageToggle.toggleLanguage Example.browser
                  (Example.english Example.greeting_en Example.greeting_ar
                     Example.greeting)).1).1)) "dir" = None.
Proof. repeat split; vm_compute; reflexivity. Qed.
(** ** The toggle: loading, construction, layout *)

Section LoadTranslations.
Variable fetch : string → SimpleLanguageToggle.response.

(** The values that an earlier path left in [enData] do not reach the
    result: the loop ends with the pair of the first path that gives both
    files, or without a value for the Arabic tree. *)
Lemma try_paths_first_served (paths : list string) (enData arData : option tree) :
  match first_served fetch paths with
  | Some (en, ar) =>
      SimpleLanguageToggle.try_paths fetch paths enData arData = (Some en, Some ar)
  | None => (SimpleLanguageToggle.try_paths fetch paths enData arData).2 = arData
  end.
Proof.
  revert enData arData.
  induction paths as [|path rest IH]; intros enData arData; [done|].
  cbn [first_served SimpleLanguageToggle.try_paths]. unfold served.
  destruct (fetch (path ++ "en.json")) as [|[|] [en|]]; try apply IH.
  destruct (fetch (path ++ "ar.json")) as [|[|] [ar|]]; try apply IH.
  done.
Qed.

(** X1. [loadTranslations] succeeds exactly when the first of the four
    paths from which both files can be fetched and parsed gives two truthy
    trees; the translations are then the two trees of that one path.  A
    tree fetched from an earlier path whose other file failed never
    reaches the result, and the pair of a later path never replaces that
    of the first. *)
Theorem loadTranslations_first_served :
  SimpleLanguageToggle.loadTranslations fetch
  = match first_served fetch SimpleLanguageToggle.possiblePaths with
    | Some (en, ar) =>
        if truthy (of_tree en) && truthy (of_tree ar)
        then Ok [("en", en); ("ar", ar)] else Raise
    | None => Raise
    end.
Proof.
  unfold SimpleLanguageToggle.loadTranslations.
  pose proof (try_paths_first_served SimpleLanguageToggle.possiblePaths None None) as H.
  destruct (first_served fetch SimpleLanguageToggle.possiblePaths) as [[en ar]|].
  - rewrite H. by destruct (truthy (of_tree en)), (truthy (of_tree ar)).
  - destruct (SimpleLanguageToggle.try_paths fetch _ None None) as [e a].
    simpl in H. subst a. by destruct e.
Qed.

End LoadTranslations.

(** *** Class lists *)

Lemma class_contains_add (c : string) (l : list string) :
  SimpleLanguageToggle.class_contains c (SimpleLanguageToggle.class_add c l) = true.
Proof.
  unfold SimpleLanguageToggle.class_contains, SimpleLanguageToggle.class_add.
  destruct (existsb (String.eqb c) l) eqn:Hc; [done|].
  rewrite existsb_app. simpl. rewrite String.eqb_refl. by rewrite orb_true_r.
Qed.

Lemma class_contains_remove (c : string) (l : list string) :
  SimpleLanguageToggle.class_contains c (SimpleLanguageToggle.class_remove c l) = false.
Proof.
  unfold SimpleLanguageToggle.class_contains, SimpleLanguageToggle.class_remove.
  induction l as [|x l IH]; [done|]. simpl.
  destruct (String.eqb c x) eqn:Hx; simpl; [done|]. by rewrite Hx.
Qed.

Lemma class_contains_add_ne (c c' : string) (l : list string) :
  c ≠ c' →
  SimpleLanguageToggle.class_contains c (SimpleLanguageToggle.class_add c' l)
  = SimpleLanguageToggle.class_contains c l.
Proof.
  intros Hne. unfold SimpleLanguageToggle.class_contains, SimpleLanguageToggle.class_add.
  destruct (existsb (String.eqb c') l); [done|].
  rewrite existsb_app. simpl. apply String.eqb_neq in Hne. rewrite Hne.
  by rewrite !orb_false_r.
Qed.

Lemma class_contains_remove_ne (c c' : string) (l : list string) :
  c ≠ c' →
  SimpleLanguageToggle.class_contains c (SimpleLanguageToggle.class_remove c' l)
  = SimpleLanguageToggle.class_contains c l.
Proof.
  intros Hne. unfold SimpleLanguageToggle.class_contains, SimpleLanguageToggle.class_remove.
  induction l as [|x l IH]; [done|]. simpl.
  destruct (String.eqb c' x) eqn:Hx; simpl.
  - apply String.eqb_eq in Hx. subst x. apply String.eqb_neq in Hne. by rewrite Hne.
  - by rewrite IH.
Qed.

(** Adding a class that is there, and removing one that is not, change
    nothing. *)
Lemma class_add_present (c : string) (l : list string) :
  SimpleLanguageToggle.class_contains c l = true →
  SimpleLanguageToggle.class_add c l = l.
Proof.
  unfold SimpleLanguageToggle.class_contains, SimpleLanguageToggle.class_add.
  by intros ->.
Qed.

Lemma class_remove_absent (c : string) (l : list string) :
  SimpleLanguageToggle.class_contains c l = false →
  SimpleLanguageToggle.class_remove c l = l.
Proof.
  unfold SimpleLanguageToggle.class_contains, SimpleLanguageToggle.class_remove.
  induction l as [|x l IH]; [done|]. simpl.
  destruct (String.eqb c x); simpl; [done|]. intros H. by rewrite IH.
Qed.

(** Swapping one class for another twice is swapping it once. *)
Lemma class_swap_twice (c c' : string) (l : list string) :
  c ≠ c' →
  let swap l := SimpleLanguageToggle.class_add c (SimpleLanguageToggle.class_remove c' l) in
  swap (swap l) = swap l.
Proof.
  intros Hne swap. unfold swap.
  rewrite (class_remove_absent c').
  - apply class_add_present, class_contains_add.
  - rewrite class_contains_add_ne by done. apply class_contains_remove.
Qed.

(** *** The layout of the widget *)


Lemma updateToggleLayout_laid_out (language : string)
    (p : SimpleLanguageToggle.page) (w : SimpleLanguageToggle.widget) :
  SimpleLanguageToggle.toggle_widget p = Some w →
  ∃ w',
    SimpleLanguageToggle.updateToggleLayout language p
    = Ok {| SimpleLanguageToggle.html :=
              setAttribute (SimpleLanguageToggle.html p) "lang"
                (if String.eqb language "ar" then "ar" else "en");
            SimpleLanguageToggle.content := SimpleLanguageToggle.content p;
            SimpleLanguageToggle.toggle_widget := Some w';
            SimpleLanguageToggle.header_style := SimpleLanguageToggle.header_style p;
            SimpleLanguageToggle.dispatched := SimpleLanguageToggle.dispatched p |}
    ∧ laid_out language w' = true
    ∧ SimpleLanguageToggle.data_current_lang w' = SimpleLanguageToggle.data_current_lang w.
Proof.
  intros Hw. unfold SimpleLanguageToggle.updateToggleLayout. rewrite Hw.
  assert (Hstyle : ∀ k, k = "left" ∨ k = "transform" →
            delete "transform" (delete "left" (SimpleLanguageToggle.slider_style w)) !! k
            = None).
  { intros k [->| ->]; [|apply lookup_delete_eq].
    rewrite lookup_delete_ne by done. apply lookup_delete_eq. }
  destruct (String.eqb language "ar") eqn:Har; eexists; (split; [reflexivity|]);
    (split; [|reflexivity]); unfold laid_out; rewrite Har; simpl;
    rewrite ?class_contains_add, ?class_contains_remove;
    rewrite ?class_contains_add_ne, ?class_contains_remove by done;
    rewrite !bool_decide_eq_true_2 by (done || apply Hstyle; auto); done.
Qed.

(** *** What one call of [toggleLanguage] does *)

Section ToggleFacts.
Variable b : Browser.

Lemma forEach_shape (attr : string) (callback : element → string → outcome effect)
    (e : element) (children : list node) :
  ∃ e' children' raised,
    forEach attr callback (Element e children) = (Element e' children', raised).
Proof.
  rewrite forEach_element.
  destruct (forEach_list attr callback children) as [children' raised].
  destruct (getAttribute e attr) as [key|]; [|by eexists _, _, _].
  destruct (callback e key) as [[| |]|]; by eexists _, _, _.
Qed.

Lemma applyTranslations_shape (this : SimpleLanguageToggle.toggle) (language : string)
    (e : element) (children : list node) :
  ∃ e' children' raised,
    SimpleLanguageToggle.applyTranslations b this language (Element e children)
    = (Element e' children', raised).
Proof.
  unfold SimpleLanguageToggle.applyTranslations.
  destruct (get_prop b _ language) as [v|]; [|by eexists _, _, _].
  destruct (negb (truthy v)); [by eexists _, _, _|].
  destruct (_ || _); [by eexists _, _, _|].
  destruct (forEach_shape "data-i18n" (SimpleLanguageToggle.text_callback b this language)
              e children) as (e1 & c1 & r1 & ->).
  destruct r1; [by eexists _, _, _|].
  destruct (forEach_shape "data-i18n-placeholder"
              (SimpleLanguageToggle.placeholder_callback b this language) e1 c1)
    as (e2 & c2 & r2 & ->).
  destruct r2; [by eexists _, _, _|].
  apply forEach_shape.
Qed.

(** [toggleLanguage] on a page with the button: the language and the
    stored preference are switched first; when applying the translations
    raises, the call ends there; otherwise the widget is laid out, the
    header is set left to right, and the event is dispatched. *)
Lemma toggleLanguage_cases (s : SimpleLanguageToggle.state)
    (w : SimpleLanguageToggle.widget) :
  SimpleLanguageToggle.toggle_widget (SimpleLanguageToggle.document s) = Some w →
  let old := SimpleLanguageToggle.currentLanguage (SimpleLanguageToggle.this_ s) in
  let s' := (SimpleLanguageToggle.toggleLanguage b s).1 in
  let p := SimpleLanguageToggle.document s in
  let p' := SimpleLanguageToggle.document s' in
  SimpleLanguageToggle.this_ s'
  = {| SimpleLanguageToggle.containerId :=
         SimpleLanguageToggle.containerId (SimpleLanguageToggle.this_ s);
       SimpleLanguageToggle.currentLanguage := opposite old;
       SimpleLanguageToggle.translations :=
         SimpleLanguageToggle.translations (SimpleLanguageToggle.this_ s) |}
  ∧ SimpleLanguageToggle.localStorage s'
    = SimpleLanguageToggle.saveLanguagePreference
        (SimpleLanguageToggle.localStorage s) (opposite old)
  ∧ ∃ w',
      SimpleLanguageToggle.toggle_widget p' = Some w'
      ∧ SimpleLanguageToggle.data_current_lang w' = opposite old
      ∧ if (SimpleLanguageToggle.toggleLanguage b s).2
        then SimpleLanguageToggle.dispatched p' = SimpleLanguageToggle.dispatched p
             ∧ SimpleLanguageToggle.header_style p' = SimpleLanguageToggle.header_style p
             ∧ w' = {| SimpleLanguageToggle.data_current_lang := opposite old;
                       SimpleLanguageToggle.button_direction :=
                         SimpleLanguageToggle.button_direction w;
                       SimpleLanguageToggle.flex_direction :=
                         SimpleLanguageToggle.flex_direction w;
                       SimpleLanguageToggle.option_text :=
                         SimpleLanguageToggle.option_text w;
                       SimpleLanguageToggle.option_classes :=
                         SimpleLanguageToggle.option_classes w;
                       SimpleLanguageToggle.slider_classes :=
                         SimpleLanguageToggle.slider_classes w;
                       SimpleLanguageToggle.slider_style :=
                         SimpleLanguageToggle.slider_style w |}
        else SimpleLanguageToggle.dispatched p'
             = (SimpleLanguageToggle.dispatched p ++ [(old, opposite old)])%list
             ∧ laid_out (opposite old) w' = true
             ∧ getAttribute (SimpleLanguageToggle.html p') "lang" = Some (opposite old).
Proof.
  intros Hw old s' p p'. subst s' p'.
  unfold SimpleLanguageToggle.toggleLanguage. rewrite Hw.
  fold old. fold (opposite old).
  cbn [SimpleLanguageToggle.html SimpleLanguageToggle.content].
  match goal with
  | |- context [SimpleLanguageToggle.applyTranslations b ?t ?l ?r] =>
      lazymatch r with
      | Element ?x ?y => pose proof (applyTranslations_shape t l x y) as Hshape
      end
  end.
  destruct Hshape as (e' & c' & raised & Hshape). rewrite Hshape.
  cbn [SimpleLanguageToggle.with_root].
  destruct raised.
  { simpl. split; [done|]. split; [done|]. by eexists. }
  match goal with
  | |- context [SimpleLanguageToggle.updateToggleLayout ?l ?q] =>
      destruct (updateToggleLayout_laid_out l q _ eq_refl) as (w' & -> & Hlaid & Hcur)
  end.
  simpl. split; [done|]. split; [done|]. exists w'.
  split; [done|]. split; [done|]. split; [done|]. split; [done|].
  unfold getAttribute, setAttribute. simpl. rewrite lookup_insert_eq.
  f_equal. apply opposite_lang.
Qed.

End ToggleFacts.

(** *** The constructor *)










(** X4. Laying out the widget is idempotent: a second call of
    [updateToggleLayout] with the same language changes neither the
    widget nor the document. *)
Theorem updateToggleLayout_idempotent (language : string)
    (p p' : SimpleLanguageToggle.page) :
  SimpleLanguageToggle.updateToggleLayout language p = Ok p' →
  SimpleLanguageToggle.updateToggleLayout language p' = Ok p'.
Proof.
  unfold SimpleLanguageToggle.updateToggleLayout.
  destruct (SimpleLanguageToggle.toggle_widget p) as [w|]; [|done].
  intros [= <-]. cbn [SimpleLanguageToggle.toggle_widget SimpleLanguageToggle.html
                      SimpleLanguageToggle.content SimpleLanguageToggle.header_style
                      SimpleLanguageToggle.dispatched].
  assert (Hhtml : ∀ v x, setAttribute (setAttribute x "lang" v) "lang" v
                         = setAttribute x "lang" v).
  { intros v x. unfold setAttribute. simpl. by rewrite insert_insert_eq. }
  assert (Hstyle : ∀ m : gmap string string,
            delete "transform" (delete "left" (delete "transform" (delete "left" m)))
            = delete "transform" (delete "left" m)).
  { intros m. rewrite (delete_delete (delete "transform" _) "transform" "left").
    by rewrite delete_delete_eq, (delete_delete _ "left" "transform"), delete_delete_eq. }
  destruct (String.eqb language "ar");
    cbn [SimpleLanguageToggle.data_current_lang SimpleLanguageToggle.option_classes
         SimpleLanguageToggle.slider_classes SimpleLanguageToggle.slider_style fst snd];
    rewrite Hhtml, Hstyle, !class_swap_twice by done.
  - by rewrite (class_add_present _ _ (class_contains_add _ _)).
  - by rewrite (class_remove_absent _ _ (class_contains_remove _ _)).
Qed.

(** The constructor reads the language from storage, and [init] keeps it. *)
Lemma constructor_language (b : Browser)
    (fetch : string → SimpleLanguageToggle.response) (container : bool)
    (containerId : string) (ls : storage) (p : SimpleLanguageToggle.page) :
  SimpleLanguageToggle.currentLanguage
    (SimpleLanguageToggle.this_
       (SimpleLanguageToggle.constructor b fetch container containerId ls p).1)
  = SimpleLanguageToggle.getStoredLanguage ls.
Proof.
  unfold SimpleLanguageToggle.constructor, SimpleLanguageToggle.init.
  repeat match goal with
         | |- context [match ?x with _ => _ end] => destruct x
         end; reflexivity.
Qed.

Section ToggleLanguage.
Variable b : Browser.

(** X5. On a page with the button, [toggleLanguage] always switches to
    the other language and stores it, whether or not applying the
    translations raises afterwards: with storage available, what
    [getStoredLanguage] reads back is the new current language, and a
    toggle constructed from that storage (after a reload) starts in it. *)
Theorem toggleLanguage_persists (s : SimpleLanguageToggle.state)
    (w : SimpleLanguageToggle.widget) (items : gmap string string)
    (fetch : string → SimpleLanguageToggle.response) (container : bool)
    (containerId : string) (p : SimpleLanguageToggle.page) :
  SimpleLanguageToggle.toggle_widget (SimpleLanguageToggle.document s) = Some w →
  SimpleLanguageToggle.localStorage s = Store items →
  let s' := (SimpleLanguageToggle.toggleLanguage b s).1 in
  let new := SimpleLanguageToggle.currentLanguage (SimpleLanguageToggle.this_ s') in
  new = opposite (SimpleLanguageToggle.currentLanguage (SimpleLanguageToggle.this_ s))
  ∧ SimpleLanguageToggle.getStoredLanguage (SimpleLanguageToggle.localStorage s') = new
  ∧ SimpleLanguageToggle.currentLanguage
      (SimpleLanguageToggle.this_
         (SimpleLanguageToggle.constructor b fetch container containerId
            (SimpleLanguageToggle.localStorage s') p).1) = new.
Proof.
  intros Hw Hls s' new.
  destruct (toggleLanguage_cases b s w Hw) as (Hthis & Hstore & _).
  fold s' in Hthis, Hstore.
  assert (Hnew : new = opposite (SimpleLanguageToggle.currentLanguage
                                   (SimpleLanguageToggle.this_ s))).
  { unfold new. by rewrite Hthis. }
  assert (Hread : SimpleLanguageToggle.getStoredLanguage
                    (SimpleLanguageToggle.localStorage s') = new).
  { rewrite Hstore, Hls, Hnew.
    unfold SimpleLanguageToggle.saveLanguagePreference,
      SimpleLanguageToggle.getStoredLanguage. simpl.
    rewrite lookup_insert_eq. unfold opposite.
    by destruct (String.eqb _ "en"). }
  split; [done|]. split; [done|].
  by rewrite constructor_language.
Qed.

(** X6. When [toggleLanguage] completes, the widget shows the language
    switched to (its option is the active one, the slider is on its side,
    [data-current-lang] names it), the [lang] attribute of the document
    names it, and exactly one [languageChanged] event has been dispatched,
    from the old language to the new one. *)
Theorem toggleLanguage_completed (s : SimpleLanguageToggle.state)
    (w : SimpleLanguageToggle.widget) :
  SimpleLanguageToggle.toggle_widget (SimpleLanguageToggle.document s) = Some w →
  (SimpleLanguageToggle.toggleLanguage b s).2 = false →
  let old := SimpleLanguageToggle.currentLanguage (SimpleLanguageToggle.this_ s) in
  let p' := SimpleLanguageToggle.document (SimpleLanguageToggle.toggleLanguage b s).1 in
  SimpleLanguageToggle.dispatched p'
  = (SimpleLanguageToggle.dispatched (SimpleLanguageToggle.document s)
     ++ [(old, opposite old)])%list
  ∧ getAttribute (SimpleLanguageToggle.html p') "lang" = Some (opposite old)
  ∧ ∃ w',
      SimpleLanguageToggle.toggle_widget p' = Some w'
      ∧ SimpleLanguageToggle.data_current_lang w' = opposite old
      ∧ laid_out (opposite old) w' = true.
Proof.
  intros Hw Hcompleted old p'.
  destruct (toggleLanguage_cases b s w Hw) as (_ & _ & w' & Hw' & Hcur & Hcase).
  rewrite Hcompleted in Hcase. destruct Hcase as (Hevent & Hlaid & Hlang).
  split; [done|]. split; [done|]. by exists w'.
Qed.

(** X7. When applying the translations raises, [toggleLanguage] ends
    there: the current language, the stored preference and
    [data-current-lang] have already been switched, but the widget keeps
    the layout of the old language, the header is not touched and no
    event is dispatched. *)
Theorem toggleLanguage_interrupted (s : SimpleLanguageToggle.state)
    (w : SimpleLanguageToggle.widget) :
  SimpleLanguageToggle.toggle_widget (SimpleLanguageToggle.document s) = Some w →
  (SimpleLanguageToggle.toggleLanguage b s).2 = true →
  let old := SimpleLanguageToggle.currentLanguage (SimpleLanguageToggle.this_ s) in
  let s' := (SimpleLanguageToggle.toggleLanguage b s).1 in
  let p' := SimpleLanguageToggle.document s' in
  SimpleLanguageToggle.currentLanguage (SimpleLanguageToggle.this_ s') = opposite old
  ∧ SimpleLanguageToggle.localStorage s'
    = SimpleLanguageToggle.saveLanguagePreference
        (SimpleLanguageToggle.localStorage s) (opposite old)
  ∧ SimpleLanguageToggle.dispatched p'
    = SimpleLanguageToggle.dispatched (SimpleLanguageToggle.document s)
  ∧ SimpleLanguageToggle.header_style p'
    = SimpleLanguageToggle.header_style (SimpleLanguageToggle.document s)
  ∧ ∃ w',
      SimpleLanguageToggle.toggle_widget p' = Some w'
      ∧ SimpleLanguageToggle.data_current_lang w' = opposite old
      ∧ SimpleLanguageToggle.option_classes w' = SimpleLanguageToggle.option_classes w
      ∧ SimpleLanguageToggle.slider_classes w' = SimpleLanguageToggle.slider_classes w.
Proof.
  intros Hw Hraised old s' p'.
  destruct (toggleLanguage_cases b s w Hw) as (Hthis & Hstore & w' & Hw' & Hcur & Hcase).
  rewrite Hraised in Hcase. destruct Hcase as (Hevent & Hheader & ->).
  fold s' in Hthis. split; [by rewrite Hthis|].
  split; [done|]. split; [done|]. split; [done|]. by eexists.
Qed.

End ToggleLanguage.

(** X8. [applyTranslations] returns at once, leaving the document as it
    is and raising nothing, when the tree of the language is missing (as
    it is for every language after the files failed to load), is the empty
    string, or is an object without keys. *)
Theorem applyTranslations_nothing_to_apply (b : Browser)
    (this : SimpleLanguageToggle.toggle) (language : string) (root : node) :
  (assoc language (SimpleLanguageToggle.translations this) = None
   ∧ builtin_prop b (VObj (SimpleLanguageToggle.translations this)) language = None)
  ∨ assoc language (SimpleLanguageToggle.translations this) = Some (Node [])
  ∨ assoc language (SimpleLanguageToggle.translations this) = Some (Leaf "") →
  SimpleLanguageToggle.applyTranslations b this language root = (root, false).
Proof.
  intros [[Hnone Hproto]|[Hempty|Hempty]].
  - apply (applyTranslations_not_loaded b this language root VUndefined); [|by left].
    unfold get_prop, own_prop. by rewrite Hnone, Hproto.
  - apply (applyTranslations_not_loaded b this language root (VObj [])); [|by right].
    unfold get_prop, own_prop. by rewrite Hempty.
  - apply (applyTranslations_not_loaded b this language root (VStr "")); [|by left].
    unfold get_prop, own_prop. by rewrite Hempty.
Qed.

(** *** Which marker wins *)

Section Precedence.
Variable b : Browser.
Variable this : SimpleLanguageToggle.toggle.
Variable language : string.


End Precedence.

(** *** Examples *)



Lemma updateToggleLayout_idempotent_example :
  match SimpleLanguageToggle.updateToggleLayout "ar"
          (SimpleLanguageToggle.document
             (Example.english Example.greeting_en Example.greeting_ar Example.greeting))
  with
  | Ok p => SimpleLanguageToggle.updateToggleLayout "ar" p = Ok p
  | Raise => False
  end.
Proof.
  destruct (SimpleLanguageToggle.updateToggleLayout "ar" _) as [p|] eqn:Hlayout.
  - exact (updateToggleLayout_idempotent "ar" _ p Hlayout).
  - discriminate Hlayout.
Defined.

Lemma toggleLanguage_persists_example :
  SimpleLanguageToggle.currentLanguage
    (SimpleLanguageToggle.this_
       (SimpleLanguageToggle.toggleLanguage Example.browser
          (Example.english Example.greeting_en Example.greeting_ar Example.greeting)).1)
  = "ar"
  ∧ SimpleLanguageToggle.getStoredLanguage
      (SimpleLanguageToggle.localStorage
         (SimpleLanguageToggle.toggleLanguage Example.browser
            (Example.english Example.greeting_en Example.greeting_ar Example.greeting)).1)
    = "ar".
Proof.
  pose proof (toggleLanguage_persists Example.browser
                (Example.english Example.greeting_en Example.greeting_ar Example.greeting)
                Example.widget ∅ Example.no_files true "language-toggle"
                Example.bare_page eq_refl eq_refl) as (Hnew & Hstored & _).
  split; [exact Hnew|exact Hstored].
Defined.

Lemma toggleLanguage_completed_example :
  SimpleLanguageToggle.dispatched
    (SimpleLanguageToggle.document
       (SimpleLanguageToggle.toggleLanguage Example.browser
          (Example.english Example.greeting_en Example.greeting_ar Example.greeting)).1)
  = [("en", "ar")]
  ∧ getAttribute
      (SimpleLanguageToggle.html
         (SimpleLanguageToggle.document
            (SimpleLanguageToggle.toggleLanguage Example.browser
               (Example.english Example.greeting_en Example.greeting_ar
                  Example.greeting)).1)) "lang"
    = Some "ar".
Proof.
  pose proof (toggleLanguage_completed Example.browser
                (Example.english Example.greeting_en Example.greeting_ar Example.greeting)
                Example.widget eq_refl eq_refl) as (Hevent & Hlang & _).
  split; [exact Hevent|exact Hlang].
Defined.

Lemma toggleLanguage_interrupted_example :
  (SimpleLanguageToggle.toggleLanguage Example.browser
     (Example.english Example.greeting_en Example.nested Example.nested_content)).2
  = true
  ∧ SimpleLanguageToggle.currentLanguage
      (SimpleLanguageToggle.this_
         (SimpleLanguageToggle.toggleLanguage Example.browser
            (Example.english Example.greeting_en Example.nested
               Example.nested_content)).1)
    = "ar"
  ∧ SimpleLanguageToggle.dispatched
      (SimpleLanguageToggle.document
         (SimpleLanguageToggle.toggleLanguage Example.browser
            (Example.english Example.greeting_en Example.nested
               Example.nested_content)).1)
    = [].
Proof.
  split; [reflexivity|].
  pose proof (toggleLanguage_interrupted Example.browser
                (Example.english Example.greeting_en Example.nested
                   Example.nested_content)
                Example.widget eq_refl eq_refl) as (Hcur & _ & Hevent & _).
  split; [exact Hcur|exact Hevent].
Defined.

Lemma applyTranslations_nothing_to_apply_example :
  SimpleLanguageToggle.applyTranslations Example.browser
    {| SimpleLanguageToggle.containerId := "language-toggle";
       SimpleLanguageToggle.currentLanguage := "en";
       SimpleLanguageToggle.translations := [] |}
    "ar" Example.welcome_page
  = (Example.welcome_page, false).
Proof.
  apply applyTranslations_nothing_to_apply. left. split; reflexivity.
Defined.



(** ** The registry and the engine *)

(** X10. The helpers of the registry agree.  For every code that is an own
    key of the registry or names nothing at all, [isRTL] is true exactly
    for the members of [RTL_LANGUAGES], [getDirection] is "rtl" exactly
    then and "ltr" otherwise, and [getLanguageInfo] gives the entry of the
    code, or the English entry when the code is not in the registry.  None
    of them raises. *)
Theorem registry_helpers_agree (h : Host) (code : string) :
  is_Some (assoc code Registry.SUPPORTED_LANGUAGES)
  ∨ builtin_prop h (VObj []) code = None →
  let is_rtl := existsb (String.eqb code) Registry.RTL_LANGUAGES in
  Registry.isRTL h code = Ok is_rtl
  ∧ Registry.getDirection h code = Ok (VStr (if is_rtl then "rtl" else "ltr"))
  ∧ ∃ i, Registry.getLanguageInfo h code = Ok (Registry.Info i)
         ∧ assoc (if bool_decide (is_Some (assoc code Registry.SUPPORTED_LANGUAGES))
                  then code else "en") Registry.SUPPORTED_LANGUAGES = Some i.
Proof.
  intros Hcode is_rtl. subst is_rtl.
  change Registry.RTL_LANGUAGES with ["ar"].
  unfold Registry.isRTL, Registry.getDirection, Registry.getLanguageInfo, Registry.lookup.
  destruct (assoc code Registry.SUPPORTED_LANGUAGES) as [i|] eqn:Hown.
  - rewrite bool_decide_eq_true_2 by by eexists.
    cbn [assoc Registry.SUPPORTED_LANGUAGES] in Hown.
    repeat match type of Hown with
           | (if String.eqb code ?k then _ else _) = _ =>
               let Hk := fresh "Hk" in
               destruct (String.eqb code k) eqn:Hk;
               [apply String.eqb_eq in Hk; subst code; injection Hown as <-;
                split; [done|]; split; [done|]; by eexists|]
           end.
    done.
  - destruct Hcode as [[? ?]|Hproto]; [done|]. rewrite Hproto.
    rewrite bool_decide_eq_false_2 by by intros [? ?].
    assert (Har : String.eqb code "ar" = false).
    { destruct (String.eqb code "ar") eqn:Har; [|done].
      apply String.eqb_eq in Har. by subst code. }
    simpl. rewrite Har. split; [done|]. split; [done|]. by eexists.
Qed.

(** *** Loading a language *)

Lemma loadLanguage_try_available (e : LocalizationEngine.engine)
    (w : LocalizationEngine.world) (code : string) :
  LocalizationEngine.loadLanguage_try e w code
  = match fresh_entry e w code with
    | Some data => (LocalizationEngine.set_translation e code data, w, Ok data)
    | None =>
        match LocalizationEngine.network w code with
        | Some data =>
            (LocalizationEngine.set_translation
               (LocalizationEngine.set_cache e code data (LocalizationEngine.now w))
               code data,
             LocalizationEngine.log_request w code, Ok data)
        | None => (e, LocalizationEngine.log_request w code, Raise)
        end
    end.
Proof.
  unfold LocalizationEngine.loadLanguage_try, fresh_entry.
  destruct (LocalizationEngine.cache e !! code) as [[data timestamp]|]; [|done].
  by case_bool_decide.
Qed.

Lemma fresh_entry_log_request (e : LocalizationEngine.engine)
    (w : LocalizationEngine.world) (c code : string) :
  fresh_entry e (LocalizationEngine.log_request w c) code = fresh_entry e w code.
Proof. reflexivity. Qed.

Lemma available_log_request (e : LocalizationEngine.engine)
    (w : LocalizationEngine.world) (c code : string) :
  available e (LocalizationEngine.log_request w c) code = available e w code.
Proof. reflexivity. Qed.

(** X11. [loadLanguage] raises exactly when neither the code nor the
    fallback code can be had: no fresh cache entry and no file for the
    code, and the code is the fallback code itself or the same holds of
    the fallback code. *)
Theorem loadLanguage_raises (e : LocalizationEngine.engine)
    (w : LocalizationEngine.world) (code : string) :
  (LocalizationEngine.loadLanguage e w code).2 = Raise
  ↔ available e w code = None
    ∧ (code = Registry.fallbackLanguage
       ∨ available e w Registry.fallbackLanguage = None).
Proof.
  unfold LocalizationEngine.loadLanguage.
  rewrite loadLanguage_try_available. unfold available.
  destruct (fresh_entry e w code) as [data|].
  { simpl. split; [done|]. by intros [? _]. }
  destruct (LocalizationEngine.network w code) as [data|].
  { simpl. split; [done|]. by intros [? _]. }
  destruct (String.eqb code Registry.fallbackLanguage) eqn:Hfb; simpl.
  { apply String.eqb_eq in Hfb. split; auto. }
  apply String.eqb_neq in Hfb.
  rewrite loadLanguage_try_available, fresh_entry_log_request.
  destruct (fresh_entry e w Registry.fallbackLanguage) as [data|].
  { simpl. split; [done|]. intros [_ [?|?]]; done. }
  cbn [LocalizationEngine.network LocalizationEngine.log_request].
  destruct (LocalizationEngine.network w Registry.fallbackLanguage) as [data|]; simpl.
  - split; [done|]. intros [_ [?|?]]; done.
  - split; auto.
Qed.

(** What [loadLanguage] leaves alone, and what it only adds to. *)
Lemma loadLanguage_frame (e : LocalizationEngine.engine)
    (w : LocalizationEngine.world) (code : string) :
  let e' := (LocalizationEngine.loadLanguage e w code).1.1 in
  let w' := (LocalizationEngine.loadLanguage e w code).1.2 in
  LocalizationEngine.currentLanguage e' = LocalizationEngine.currentLanguage e
  ∧ LocalizationEngine.previousLanguage e' = LocalizationEngine.previousLanguage e
  ∧ LocalizationEngine.isInitialized e' = LocalizationEngine.isInitialized e
  ∧ LocalizationEngine.emitted e' = LocalizationEngine.emitted e
  ∧ LocalizationEngine.network w' = LocalizationEngine.network w
  ∧ LocalizationEngine.now w' = LocalizationEngine.now w
  ∧ LocalizationEngine.localStorage w' = LocalizationEngine.localStorage w
  ∧ LocalizationEngine.cookies w' = LocalizationEngine.cookies w
  ∧ LocalizationEngine.search w' = LocalizationEngine.search w
  ∧ LocalizationEngine.document w' = LocalizationEngine.document w
  ∧ (∀ k, is_Some (LocalizationEngine.translations e !! k) →
          is_Some (LocalizationEngine.translations e' !! k))
  ∧ (∀ k, is_Some (available e w k) → is_Some (available e' w' k)).
Proof.
  assert (Hins : ∀ (m : gmap string tree) c d k,
            is_Some (m !! k) → is_Some (<[c := d]> m !! k)).
  { intros m c d k Hk. destruct (decide (c = k)) as [->|Hne].
    - rewrite lookup_insert_eq. by eexists.
    - by rewrite lookup_insert_ne. }
  assert (Htry : ∀ e w code,
    let e' := (LocalizationEngine.loadLanguage_try e w code).1.1 in
    let w' := (LocalizationEngine.loadLanguage_try e w code).1.2 in
    LocalizationEngine.currentLanguage e' = LocalizationEngine.currentLanguage e
    ∧ LocalizationEngine.previousLanguage e' = LocalizationEngine.previousLanguage e
    ∧ LocalizationEngine.isInitialized e' = LocalizationEngine.isInitialized e
    ∧ LocalizationEngine.emitted e' = LocalizationEngine.emitted e
    ∧ LocalizationEngine.network w' = LocalizationEngine.network w
    ∧ LocalizationEngine.now w' = LocalizationEngine.now w
    ∧ LocalizationEngine.localStorage w' = LocalizationEngine.localStorage w
    ∧ LocalizationEngine.cookies w' = LocalizationEngine.cookies w
    ∧ LocalizationEngine.search w' = LocalizationEngine.search w
    ∧ LocalizationEngine.document w' = LocalizationEngine.document w
    ∧ (∀ k, is_Some (LocalizationEngine.translations e !! k) →
            is_Some (LocalizationEngine.translations e' !! k))
    ∧ (∀ k, is_Some (available e w k) → is_Some (available e' w' k))).
  { clear e w code. intros e w code. cbv zeta. rewrite loadLanguage_try_available.
    destruct (fresh_entry e w code) as [data|].
    { simpl. repeat (split; [done|]). split; [by intros; apply Hins|done]. }
    destruct (LocalizationEngine.network w code) as [data|] eqn:Hnet; simpl;
      repeat (split; [done|]); [|done].
    split; [by intros; apply Hins|].
    intros k Hk. unfold available, fresh_entry in *. simpl.
    destruct (decide (code = k)) as [->|Hne].
    - rewrite lookup_insert_eq.
      rewrite bool_decide_eq_true_2; [by eexists|].
      unfold Registry.cacheExpiry. lia.
    - by rewrite lookup_insert_ne. }
  cbv zeta. unfold LocalizationEngine.loadLanguage.
  pose proof (Htry e w code) as H1. cbv zeta in H1.
  destruct (LocalizationEngine.loadLanguage_try e w code) as [[e1 w1] [data|]];
    [exact H1|].
  destruct (negb _); [|exact H1].
  pose proof (Htry e1 w1 Registry.fallbackLanguage) as H2. cbv zeta in H2.
  destruct (LocalizationEngine.loadLanguage_try e1 w1 _) as [[e2 w2] r2].
  simpl in *.
  destruct H1 as (? & ? & ? & ? & ? & ? & ? & ? & ? & ? & Ht1 & Ha1).
  destruct H2 as (? & ? & ? & ? & ? & ? & ? & ? & ? & ? & Ht2 & Ha2).
  repeat (split; [congruence|]). split; auto.
Qed.

Lemma loadLanguage_loads_available (e : LocalizationEngine.engine)
    (w : LocalizationEngine.world) (code : string) (d : tree) :
  available e w code = Some d →
  (LocalizationEngine.loadLanguage e w code).2 = Ok d
  ∧ LocalizationEngine.translations (LocalizationEngine.loadLanguage e w code).1.1 !! code
    = Some d.
Proof.
  unfold available, LocalizationEngine.loadLanguage.
  rewrite loadLanguage_try_available.
  destruct (fresh_entry e w code) as [data|].
  { intros [= ->]. simpl. by rewrite lookup_insert_eq. }
  intros ->. simpl. by rewrite lookup_insert_eq.
Qed.

(** X12. The tree that [loadLanguage] returns is the one it has stored:
    under the code when the code could be had from a fresh cache entry or
    from the network, and otherwise under the fallback code, with the
    entry of the code itself left as it was.  No tree that was loaded
    before is dropped. *)
Theorem loadLanguage_stores_result (e : LocalizationEngine.engine)
    (w : LocalizationEngine.world) (code : string) (d : tree) :
  (LocalizationEngine.loadLanguage e w code).2 = Ok d →
  let e' := (LocalizationEngine.loadLanguage e w code).1.1 in
  ((available e w code = Some d
    ∧ LocalizationEngine.translations e' !! code = Some d)
   ∨ (code ≠ Registry.fallbackLanguage
      ∧ available e w code = None
      ∧ available e w Registry.fallbackLanguage = Some d
      ∧ LocalizationEngine.translations e' !! Registry.fallbackLanguage = Some d
      ∧ LocalizationEngine.translations e' !! code
        = LocalizationEngine.translations e !! code))
  ∧ ∀ k, is_Some (LocalizationEngine.translations e !! k) →
         is_Some (LocalizationEngine.translations e' !! k).
Proof.
  intros Hres e'. split; [|apply loadLanguage_frame].
  subst e'. destruct (available e w code) as [d'|] eqn:Hav.
  { destruct (loadLanguage_loads_available e w code d' Hav) as [Hr Ht].
    rewrite Hr in Hres. injection Hres as ->. by left. }
  right. revert Hres. unfold LocalizationEngine.loadLanguage.
  rewrite loadLanguage_try_available. unfold available in Hav.
  destruct (fresh_entry e w code) as [data|]; [done|]. rewrite Hav.
  destruct (String.eqb code Registry.fallbackLanguage) eqn:Hfb; simpl; [done|].
  apply String.eqb_neq in Hfb.
  rewrite loadLanguage_try_available, fresh_entry_log_request.
  unfold available.
  destruct (fresh_entry e w Registry.fallbackLanguage) as [data|].
  { simpl. intros [= ->]. rewrite lookup_insert_eq, lookup_insert_ne by done. done. }
  cbn [LocalizationEngine.network LocalizationEngine.log_request].
  destruct (LocalizationEngine.network w Registry.fallbackLanguage) as [data|];
    simpl; [|done].
  intros [= ->]. rewrite lookup_insert_eq, lookup_insert_ne by done. done.
Qed.

(** X13. A tree fetched from the network is served from the cache, with
    no request, for one hour from the time it was fetched, even when the
    network has gone; from then on loading the code asks the network
    again. *)
Theorem loadLanguage_cache_window (e : LocalizationEngine.engine)
    (w : LocalizationEngine.world) (code : string) (data : tree) :
  fresh_entry e w code = None →
  LocalizationEngine.network w code = Some data →
  let e1 := (LocalizationEngine.loadLanguage e w code).1.1 in
  let w1 := (LocalizationEngine.loadLanguage e w code).1.2 in
  (LocalizationEngine.loadLanguage e w code).2 = Ok data
  ∧ LocalizationEngine.requests w1 = (LocalizationEngine.requests w ++ [code])%list
  ∧ ∀ w2 : LocalizationEngine.world,
      if bool_decide (LocalizationEngine.now w2 - LocalizationEngine.now w
                      < Registry.cacheExpiry)%Z
      then (LocalizationEngine.loadLanguage e1 w2 code).2 = Ok data
           ∧ (LocalizationEngine.loadLanguage e1 w2 code).1.2 = w2
      else ∃ more,
             LocalizationEngine.requests (LocalizationEngine.loadLanguage e1 w2 code).1.2
             = (LocalizationEngine.requests w2 ++ code :: more)%list.
Proof.
  intros Hstale Hnet e1 w1. subst e1 w1.
  assert (Hfirst : LocalizationEngine.loadLanguage e w code
                   = (LocalizationEngine.set_translation
                        (LocalizationEngine.set_cache e code data
                           (LocalizationEngine.now w)) code data,
                      LocalizationEngine.log_request w code, Ok data)).
  { unfold LocalizationEngine.loadLanguage.
    by rewrite loadLanguage_try_available, Hstale, Hnet. }
  rewrite Hfirst. cbn [fst snd]. split; [done|]. split; [done|]. intros w2.
  match goal with
  | |- context [LocalizationEngine.loadLanguage ?e1 w2 code] =>
      assert (Hfresh : fresh_entry e1 w2 code
                       = if bool_decide (LocalizationEngine.now w2
                                         - LocalizationEngine.now w
                                         < Registry.cacheExpiry)%Z
                         then Some data else None)
  end.
  { unfold fresh_entry. simpl. by rewrite lookup_insert_eq. }
  unfold LocalizationEngine.loadLanguage.
  rewrite !loadLanguage_try_available, !Hfresh. case_bool_decide; [done|].
  destruct (LocalizationEngine.network w2 code) as [data2|]; cbn [fst snd].
  { by exists []. }
  destruct (negb _); [|by exists []].
  rewrite loadLanguage_try_available, fresh_entry_log_request.
  destruct (fresh_entry _ w2 Registry.fallbackLanguage) as [d|]; [by exists []|].
  cbn [LocalizationEngine.network LocalizationEngine.log_request].
  destruct (LocalizationEngine.network w2 Registry.fallbackLanguage) as [d|];
    cbn [fst snd LocalizationEngine.requests LocalizationEngine.log_request];
    exists [Registry.fallbackLanguage]; by rewrite <- app_assoc.
Qed.

(** [preloadLanguages] loads what can be had and leaves the rest of the
    engine and of its surroundings alone. *)
Lemma preloadLanguages_frame (e : LocalizationEngine.engine)
    (w : LocalizationEngine.world) (codes : list string) :
  let e' := (LocalizationEngine.preloadLanguages e w codes).1 in
  let w' := (LocalizationEngine.preloadLanguages e w codes).2 in
  (∀ code, code ∈ codes → is_Some (available e w code) →
           is_Some (LocalizationEngine.translations e' !! code))
  ∧ (∀ k, is_Some (LocalizationEngine.translations e !! k) →
          is_Some (LocalizationEngine.translations e' !! k))
  ∧ LocalizationEngine.currentLanguage e' = LocalizationEngine.currentLanguage e
  ∧ LocalizationEngine.previousLanguage e' = LocalizationEngine.previousLanguage e
  ∧ LocalizationEngine.isInitialized e' = LocalizationEngine.isInitialized e
  ∧ LocalizationEngine.emitted e' = LocalizationEngine.emitted e
  ∧ LocalizationEngine.localStorage w' = LocalizationEngine.localStorage w
  ∧ LocalizationEngine.document w' = LocalizationEngine.document w.
Proof.
  cbv zeta. revert e w. induction codes as [|c rest IH]; intros e w.
  { simpl. split; [|done]. intros code Hin. by apply elem_of_nil in Hin. }
  cbn [LocalizationEngine.preloadLanguages].
  pose proof (loadLanguage_frame e w c) as Hframe. cbv zeta in Hframe.
  pose proof (loadLanguage_loads_available e w c) as Hload.
  destruct (LocalizationEngine.loadLanguage e w c) as [[e1 w1] r1].
  cbn [fst snd] in Hframe, Hload.
  destruct Hframe as (Hcur & Hprev & Hinit & Hemit & _ & _ & Hls & _ & _ & Hdoc
                      & Htr & Hav).
  destruct (IH e1 w1) as (IHload & IHtr & IHcur & IHprev & IHinit & IHemit
                          & IHls & IHdoc).
  split; [|split; [by auto|repeat (split; [congruence|]); congruence]].
  intros code Hin Hcode. apply elem_of_cons in Hin as [->|Hin].
  - destruct Hcode as [d Hd]. apply IHtr. exists d. by apply Hload.
  - by apply IHload, Hav.
Qed.

(** X14. [preloadLanguages] loads every code of its list that can be had,
    whatever happens to the others: a code whose file is missing does not
    keep the codes after it from being loaded.  It drops no tree and
    leaves the languages of the engine and the events alone. *)
Theorem preloadLanguages_loads_available (e : LocalizationEngine.engine)
    (w : LocalizationEngine.world) (codes : list string) :
  let e' := (LocalizationEngine.preloadLanguages e w codes).1 in
  (∀ code, code ∈ codes → is_Some (available e w code) →
           is_Some (LocalizationEngine.translations e' !! code))
  ∧ (∀ k, is_Some (LocalizationEngine.translations e !! k) →
          is_Some (LocalizationEngine.translations e' !! k))
  ∧ LocalizationEngine.currentLanguage e' = LocalizationEngine.currentLanguage e
  ∧ LocalizationEngine.previousLanguage e' = LocalizationEngine.previousLanguage e
  ∧ LocalizationEngine.emitted e' = LocalizationEngine.emitted e.
Proof.
  destruct (preloadLanguages_frame e w codes) as (? & ? & ? & ? & _ & ? & _).
  cbv zeta. done.
Qed.

(** *** Switching the language *)

Lemma loadLanguage_succeeds (e : LocalizationEngine.engine)
    (w : LocalizationEngine.world) (code : string) :
  is_Some (available e w code) ∨ is_Some (available e w Registry.fallbackLanguage) →
  ∃ d, (LocalizationEngine.loadLanguage e w code).2 = Ok d.
Proof.
  intros Hav. destruct (available e w code) as [d|] eqn:Hcode.
  { exists d. by apply loadLanguage_loads_available. }
  destruct Hav as [[? ?]|[d Hfb]]; [done|].
  destruct (String.eqb code Registry.fallbackLanguage) eqn:Heq.
  { apply String.eqb_eq in Heq. subst code. congruence. }
  unfold LocalizationEngine.loadLanguage. rewrite loadLanguage_try_available.
  unfold available in Hcode.
  destruct (fresh_entry e w code) as [?|]; [done|]. rewrite Hcode, Heq. simpl.
  rewrite loadLanguage_try_available, fresh_entry_log_request.
  unfold available in Hfb.
  destruct (fresh_entry e w Registry.fallbackLanguage) as [d'|]; [by eexists|].
  cbn [LocalizationEngine.network LocalizationEngine.log_request].
  rewrite Hfb. by eexists.
Qed.

Lemma classList_contains_add (c : string) (l : list string) :
  LocalizationEngine.classList_contains c (LocalizationEngine.classList_add c l) = true.
Proof. apply class_contains_add. Qed.

Lemma classList_contains_remove (c : string) (l : list string) :
  LocalizationEngine.classList_contains c (LocalizationEngine.classList_remove c l) = false.
Proof. apply class_contains_remove. Qed.

Lemma classList_contains_add_ne (c c' : string) (l : list string) :
  c ≠ c' →
  LocalizationEngine.classList_contains c (LocalizationEngine.classList_add c' l)
  = LocalizationEngine.classList_contains c l.
Proof. apply class_contains_add_ne. Qed.

Lemma classList_contains_remove_ne (c c' : string) (l : list string) :
  c ≠ c' →
  LocalizationEngine.classList_contains c (LocalizationEngine.classList_remove c' l)
  = LocalizationEngine.classList_contains c l.
Proof. apply class_contains_remove_ne. Qed.

Lemma lang_class_not_rtl (code : string) : "rtl" ≠ "lang-" ++ code.
Proof. done. Qed.

Lemma lang_class_inj (c c' : string) : c ≠ c' → "lang-" ++ c ≠ "lang-" ++ c'.
Proof. intros Hne Heq. apply Hne. simpl in Heq. by injection Heq. Qed.

Section RootAttributes.
Variable b : Browser.

(** X15. When [updateHTMLAttributes] completes, the root element names the
    current language in [lang], its [dir] attribute and the class [rtl] on
    it and on the body all say whether that language is written right to
    left, and the root does not carry the class of the previous language.
    It carries the class of the current language unless that is also the
    previous one: switching to the language that is already current takes
    its class away. *)
Theorem updateHTMLAttributes_classes (e : LocalizationEngine.engine)
    (p : LocalizationEngine.page) :
  (LocalizationEngine.updateHTMLAttributes b e p).2 = false →
  let cur := LocalizationEngine.key_of (LocalizationEngine.currentLanguage e) in
  let p' := (LocalizationEngine.updateHTMLAttributes b e p).1 in
  let has := LocalizationEngine.classList_contains in
  getAttribute (LocalizationEngine.html p') "lang" = Some cur
  ∧ (∃ is_rtl bc,
       Registry.isRTL b cur = Ok is_rtl
       ∧ getAttribute (LocalizationEngine.html p') "dir"
         = Some (if is_rtl then "rtl" else "ltr")
       ∧ has "rtl" (LocalizationEngine.html_classes p') = is_rtl
       ∧ LocalizationEngine.body_classes p' = Some bc
       ∧ has "rtl" bc = is_rtl)
  ∧ (∀ prev, LocalizationEngine.previousLanguage e = Some prev → prev ≠ "" →
       has ("lang-" ++ prev) (LocalizationEngine.html_classes p') = false)
  ∧ (LocalizationEngine.previousLanguage e ≠ Some cur →
       has ("lang-" ++ cur) (LocalizationEngine.html_classes p') = true).
Proof.
  intros Hok cur p' has. subst p' has. revert Hok.
  unfold LocalizationEngine.updateHTMLAttributes. fold cur.
  destruct (Registry.getLanguageInfo b cur) as [info|]; [|done].
  destruct (Registry.isRTL b cur) as [is_rtl|]; [|done].
  destruct (LocalizationEngine.body_classes p) as [bc|]; [|done].
  intros _. cbn [fst LocalizationEngine.html LocalizationEngine.html_classes
                 LocalizationEngine.body_classes].
  split.
  { unfold getAttribute, setAttribute. simpl.
    rewrite lookup_insert_ne by done. by rewrite lookup_insert_eq. }
  split.
  { exists is_rtl. eexists. split; [done|]. split.
    { unfold getAttribute, setAttribute. simpl. by rewrite lookup_insert_eq. }
    split; [|split; [done|]].
    - assert (Hrtl : LocalizationEngine.classList_contains "rtl"
                (LocalizationEngine.classList_add ("lang-" ++ cur)
                   (if is_rtl
                    then LocalizationEngine.classList_add "rtl"
                           (LocalizationEngine.html_classes p)
                    else LocalizationEngine.classList_remove "rtl"
                           (LocalizationEngine.html_classes p))) = is_rtl).
      { rewrite classList_contains_add_ne by apply lang_class_not_rtl.
        destruct is_rtl;
          [apply classList_contains_add|apply classList_contains_remove]. }
      destruct (LocalizationEngine.previousLanguage e) as [prev|]; [|done].
      destruct (negb (String.eqb prev "")); [|done].
      by rewrite classList_contains_remove_ne by apply lang_class_not_rtl.
    - destruct is_rtl;
        [apply classList_contains_add|apply classList_contains_remove]. }
  split.
  - intros prev -> Hprev. apply String.eqb_neq in Hprev. rewrite Hprev. simpl.
    apply classList_contains_remove.
  - intros Hprev.
    destruct (LocalizationEngine.previousLanguage e) as [prev|];
      [|apply classList_contains_add].
    destruct (negb (String.eqb prev "")); [|apply classList_contains_add].
    rewrite classList_contains_remove_ne; [apply classList_contains_add|].
    apply lang_class_inj. congruence.
Qed.

End RootAttributes.

(** *** Running a loop again *)

Section Stable.
Variable attr : string.
Variable callback : element → string → outcome effect.

(** The callback is stable: on the element it has updated it makes the
    same update again, and the content it writes is left alone by the
    loop. *)
Hypothesis Hstable : ∀ e key,
  getAttribute e attr = Some key →
  match callback e key with
  | Ok (Update e') =>
      getAttribute e' attr = Some key ∧ callback e' key = Ok (Update e')
  | Ok (Replace new_children) =>
      forEach_list attr callback new_children = (new_children, false)
  | _ => True
  end.

Lemma forEach_fixed (n n' : node) :
  forEach attr callback n = (n', false) → forEach attr callback n' = (n', false).
Proof.
  revert n'. induction n as [data|e children IH] using node_induction; intros n'.
  { simpl. by intros [= <-]. }
  assert (Hlist : ∀ children',
            forEach_list attr callback children = (children', false) →
            forEach_list attr callback children' = (children', false)).
  { clear -IH. induction children as [|c rest IHrest]; intros children'.
    { simpl. by intros [= <-]. }
    inversion IH as [|? ? IHc IHr]; subst. simpl.
    destruct (forEach attr callback c) as [c' raised] eqn:Hc.
    destruct raised; [done|].
    destruct (forEach_list attr callback rest) as [rest' raised'] eqn:Hrest.
    intros [= <- ->]. simpl.
    rewrite (IHc c' eq_refl), (IHrest IHr rest' eq_refl). done. }
  rewrite forEach_element.
  destruct (forEach_list attr callback children) as [children' raised] eqn:Hchildren.
  destruct (getAttribute e attr) as [key|] eqn:Hattr.
  - pose proof (Hstable e key Hattr) as Hcb.
    destruct (callback e key) as [[|e'|new_children]|] eqn:Hcall; [| | |done].
    + intros [= <- ->]. rewrite forEach_element, Hattr, Hcall.
      by rewrite (Hlist children' eq_refl).
    + destruct Hcb as [Hattr' Hcall']. intros [= <- ->].
      rewrite forEach_element, Hattr', Hcall'. by rewrite (Hlist children' eq_refl).
    + intros [= <- ->]. rewrite forEach_element, Hattr, Hcall. by rewrite Hcb.
  - intros [= <- ->]. rewrite forEach_element, Hattr.
    by rewrite (Hlist children' eq_refl).
Qed.

End Stable.

Section ContentPass.
Variable b : Browser.

Lemma content_callback_stable (e : LocalizationEngine.engine) (translations : val)
    (x : element) (key : string) :
  getAttribute x "data-i18n" = Some key →
  match LocalizationEngine.content_callback b e translations x key with
  | Ok (Update x') =>
      getAttribute x' "data-i18n" = Some key
      ∧ LocalizationEngine.content_callback b e translations x' key = Ok (Update x')
  | Ok (Replace new_children) =>
      forEach_list "data-i18n" (LocalizationEngine.content_callback b e translations)
        new_children = (new_children, false)
  | _ => True
  end.
Proof.
  intros Hattr. unfold LocalizationEngine.content_callback.
  destruct (LocalizationEngine.getTranslation b _ key translations) as [v|]; [|done].
  simpl. destruct (truthy v) eqn:Htruthy; [|done].
  destruct (String.eqb (tagName x) "INPUT" || String.eqb (tagName x) "TEXTAREA")
    eqn:Htag.
  - destruct (hasAttribute x "placeholder") eqn:Hph; [|done].
    unfold set_placeholder, reflects_placeholder. rewrite Htag.
    destruct (dom_string b v) as [s|] eqn:Hs; [|done]. simpl.
    split.
    { unfold getAttribute, setAttribute. simpl. by rewrite lookup_insert_ne. }
    rewrite Htag.
    assert (Hhas : hasAttribute (setAttribute x "placeholder" s) "placeholder" = true).
    { unfold hasAttribute, setAttribute. simpl. rewrite lookup_insert_eq.
      apply bool_decide_eq_true_2. by eexists. }
    rewrite Hhas. simpl.
    unfold setAttribute. simpl. by rewrite insert_insert_eq.
  - unfold set_textContent.
    destruct (dom_string b v) as [s|]; [|done]. simpl.
    by destruct (String.eqb s "").
Qed.

(** X16. The engine's loop over the elements with a text marker is
    idempotent whenever it completes: run again with the same tree on the
    document it has produced, it raises nothing and changes nothing. *)
Theorem updateContent_idempotent (e : LocalizationEngine.engine)
    (translations : val) (root root' : node) :
  LocalizationEngine.updateContentWithDataAttributes b e translations root
  = (root', false) →
  LocalizationEngine.updateContentWithDataAttributes b e translations root'
  = (root', false).
Proof.
  unfold LocalizationEngine.updateContentWithDataAttributes.
  apply forEach_fixed. intros x key. apply content_callback_stable.
Qed.

End ContentPass.

Section SetLanguage.
Variable b : Browser.
Variable updateNavigation updateForms : val → list node → list node * bool.
Variable updateMetaTags : option string → list node → list node * bool.

Local Abbreviation updatePage :=
  (LocalizationEngine.updatePage b updateNavigation updateForms updateMetaTags).
Local Abbreviation setLanguage :=
  (LocalizationEngine.setLanguage b updateNavigation updateForms updateMetaTags).
Local Abbreviation init :=
  (LocalizationEngine.init b updateNavigation updateForms updateMetaTags).

Lemma updateHTMLAttributes_body (e : LocalizationEngine.engine)
    (p : LocalizationEngine.page) :
  is_Some (LocalizationEngine.body_classes p) →
  is_Some (LocalizationEngine.body_classes
             (LocalizationEngine.updateHTMLAttributes b e p).1)
  ∧ LocalizationEngine.mobile_menu_style
      (LocalizationEngine.updateHTMLAttributes b e p).1
    = LocalizationEngine.mobile_menu_style p.
Proof.
  intros [bc Hbody]. unfold LocalizationEngine.updateHTMLAttributes.
  destruct (Registry.getLanguageInfo b _) as [info|]; [|simpl; by rewrite Hbody].
  destruct (Registry.isRTL b _) as [is_rtl|]; simpl; [|by rewrite Hbody].
  rewrite Hbody. simpl. done.
Qed.

Lemma updateHTMLAttributes_marker (e : LocalizationEngine.engine)
    (p : LocalizationEngine.page) :
  getAttribute
    (LocalizationEngine.html (LocalizationEngine.updateHTMLAttributes b e p).1)
    "data-i18n"
  = getAttribute (LocalizationEngine.html p) "data-i18n".
Proof.
  unfold LocalizationEngine.updateHTMLAttributes.
  destruct (Registry.getLanguageInfo b _) as [info|]; [|done].
  destruct (Registry.isRTL b _) as [is_rtl|]; [destruct (LocalizationEngine.body_classes p)|];
    simpl; unfold getAttribute, setAttribute; simpl; by rewrite !lookup_insert_ne.
Qed.

Lemma replaces_root_unmarked (e : LocalizationEngine.engine) (translations : val)
    (x : element) (children : list node) :
  getAttribute x "data-i18n" = None →
  LocalizationEngine.replaces_root b e translations (Element x children) = false.
Proof. intros Hx. unfold LocalizationEngine.replaces_root. by rewrite Hx. Qed.

Lemma with_root_body (p : LocalizationEngine.page) (root : node) :
  LocalizationEngine.body_classes (LocalizationEngine.with_root p root)
  = LocalizationEngine.body_classes p
  ∧ LocalizationEngine.mobile_menu_style (LocalizationEngine.with_root p root)
    = LocalizationEngine.mobile_menu_style p.
Proof. by destruct root. Qed.

(** [updatePage] handles its own errors: it changes nothing of the engine
    but the events, to which it adds at most one error, and when the root
    element carries no text marker it leaves the body in place. *)
Lemma updatePage_frame (e : LocalizationEngine.engine) (p : LocalizationEngine.page) :
  let e' := (updatePage e p).1 in
  let p' := (updatePage e p).2 in
  LocalizationEngine.currentLanguage e' = LocalizationEngine.currentLanguage e
  ∧ LocalizationEngine.previousLanguage e' = LocalizationEngine.previousLanguage e
  ∧ LocalizationEngine.translations e' = LocalizationEngine.translations e
  ∧ LocalizationEngine.cache e' = LocalizationEngine.cache e
  ∧ LocalizationEngine.isInitialized e' = LocalizationEngine.isInitialized e
  ∧ (LocalizationEngine.emitted e' = LocalizationEngine.emitted e
     ∨ LocalizationEngine.emitted e'
       = (LocalizationEngine.emitted e ++ [LocalizationEngine.Failure])%list)
  ∧ (getAttribute (LocalizationEngine.html p) "data-i18n" = None →
     is_Some (LocalizationEngine.body_classes p) →
     is_Some (LocalizationEngine.body_classes p')).
Proof.
  cbv zeta. unfold LocalizationEngine.updatePage.
  destruct (_ ≫= _) as [t|]; [|simpl; by auto 10].
  destruct (negb (truthy (of_tree t))); [simpl; by auto 10|].
  pose proof (updateHTMLAttributes_body e p) as Hbody.
  pose proof (updateHTMLAttributes_marker e p) as Hmarker.
  destruct (LocalizationEngine.updateHTMLAttributes b e p) as [p1 raised1].
  simpl in Hbody, Hmarker.
  destruct raised1;
    [simpl; repeat (split; [done|]); split; [auto|]; intros _; apply Hbody|].
  destruct (LocalizationEngine.updateContentWithDataAttributes b e (of_tree t) _)
    as [root2 raised2].
  pose proof (with_root_body p1 root2) as [Hroot _].
  pose proof (replaces_root_unmarked e (of_tree t) (LocalizationEngine.html p1)
                (LocalizationEngine.content p1)) as Hrep.
  rewrite Hmarker in Hrep.
  match goal with
  | |- context [if LocalizationEngine.replaces_root ?h ?x ?y ?z then ?l else ?r] =>
      set (p2 := if LocalizationEngine.replaces_root h x y z then l else r)
  end.
  assert (Hp2 : getAttribute (LocalizationEngine.html p) "data-i18n" = None →
                is_Some (LocalizationEngine.body_classes p) →
                is_Some (LocalizationEngine.body_classes p2)).
  { intros Hnone Hp. subst p2. rewrite (Hrep Hnone), Hroot. by apply Hbody. }
  clearbody p2.
  destruct raised2.
  { simpl. repeat (split; [done|]). split; [auto|]. exact Hp2. }
  destruct (updateNavigation _ _) as [c3 raised3].
  destruct raised3.
  { simpl. repeat (split; [done|]). split; [auto|]. exact Hp2. }
  destruct (updateForms _ _) as [c4 raised4].
  destruct raised4.
  { simpl. repeat (split; [done|]). split; [auto|]. exact Hp2. }
  destruct (updateMetaTags _ _) as [c5 raised5].
  destruct raised5; simpl; repeat (split; [done|]); (split; [auto|]); exact Hp2.
Qed.

(** [updateRTL] for a code of the registry on a page with a body. *)
Lemma updateRTL_own (e : LocalizationEngine.engine) (p : LocalizationEngine.page)
    (code : string) (i : Registry.LanguageInfo) :
  LocalizationEngine.currentLanguage e = Some code →
  assoc code Registry.SUPPORTED_LANGUAGES = Some i →
  is_Some (LocalizationEngine.body_classes p) →
  let p' := (LocalizationEngine.updateRTL b e p).1 in
  (LocalizationEngine.updateRTL b e p).2 = false
  ∧ LocalizationEngine.html p' = LocalizationEngine.html p
  ∧ LocalizationEngine.content p' = LocalizationEngine.content p
  ∧ LocalizationEngine.classList_contains "rtl" (LocalizationEngine.html_classes p')
    = Registry.rtl i
  ∧ ∃ bc, LocalizationEngine.body_classes p' = Some bc
          ∧ LocalizationEngine.classList_contains "rtl" bc = Registry.rtl i.
Proof.
  intros Hcur Hown [bc Hbody]. cbv zeta.
  unfold LocalizationEngine.updateRTL. rewrite Hcur. simpl.
  unfold Registry.getLanguageInfo. rewrite (lookup_own b code i Hown). simpl.
  rewrite Hbody. simpl. repeat (split; [done|]). split.
  - destruct (Registry.rtl i);
      [apply classList_contains_add|apply classList_contains_remove].
  - eexists. split; [done|].
    destruct (Registry.rtl i);
      [apply classList_contains_add|apply classList_contains_remove].
Qed.

Lemma registry_code_nonempty (code : string) (i : Registry.LanguageInfo) :
  assoc code Registry.SUPPORTED_LANGUAGES = Some i → code ≠ "".
Proof. by intros Hown ->. Qed.

(** The cookie jar and the query string after [saveLanguage]. *)
Lemma assoc_put (k v : string) (l : list (string * string)) :
  assoc k (if bool_decide (is_Some (assoc k l))
           then map (fun c => if String.eqb c.1 k then (k, v) else c) l
           else (l ++ [(k, v)])%list)
  = Some v.
Proof.
  case_bool_decide as Hk.
  - induction l as [|[k' v'] rest IH]; [by destruct Hk|].
    simpl in *. rewrite (String.eqb_sym k' k).
    destruct (String.eqb k k') eqn:Heq; simpl.
    + by rewrite String.eqb_refl.
    + rewrite Heq. by apply IH.
  - induction l as [|[k' v'] rest IH]; simpl.
    + by rewrite String.eqb_refl.
    + simpl in Hk. destruct (String.eqb k k'); [|by apply IH].
      exfalso. apply Hk. by eexists.
Qed.

Lemma saveLanguage_saved (w : LocalizationEngine.world) (code : string)
    (i : Registry.LanguageInfo) (items : gmap string string) :
  assoc code Registry.SUPPORTED_LANGUAGES = Some i →
  LocalizationEngine.localStorage w = Store items →
  LocalizationEngine.getSavedLanguage b (LocalizationEngine.saveLanguage w code)
  = Some code.
Proof.
  intros Hown Hls. unfold LocalizationEngine.saveLanguage. rewrite Hls. simpl.
  apply (getSavedLanguage_storage_first b _ code i); [|done|].
  - by eapply registry_code_nonempty.
  - simpl. by rewrite lookup_insert_eq.
Qed.

(** X18. What [saveLanguage] saves, [getSavedLanguage] reads back: with
    storage available, after saving a code of the registry the saved
    language is that code, whatever the cookie and the URL held before,
    and the cookie and the URL parameter hold the code as well. *)
Theorem saveLanguage_round_trip (w : LocalizationEngine.world) (code : string)
    (i : Registry.LanguageInfo) (items : gmap string string) :
  assoc code Registry.SUPPORTED_LANGUAGES = Some i →
  LocalizationEngine.localStorage w = Store items →
  let w' := LocalizationEngine.saveLanguage w code in
  LocalizationEngine.getSavedLanguage b w' = Some code
  ∧ assoc Registry.cookieName (LocalizationEngine.cookies w') = Some code
  ∧ assoc Registry.urlParameter (LocalizationEngine.search w') = Some code
  ∧ LocalizationEngine.document w' = LocalizationEngine.document w.
Proof.
  intros Hown Hls w'. subst w'.
  split; [by eapply saveLanguage_saved|].
  unfold LocalizationEngine.saveLanguage. rewrite Hls. simpl.
  split; [apply assoc_put|split; [apply assoc_put|done]].
Qed.

(** X19. When [localStorage] cannot be used, [saveLanguage] saves nothing
    at all, not to the cookie and not to the URL either, and
    [getSavedLanguage] finds no language, whatever the cookie and the URL
    hold. *)
Theorem storage_unavailable (w : LocalizationEngine.world) (code : string) :
  LocalizationEngine.localStorage w = Unavailable →
  LocalizationEngine.saveLanguage w code = w
  ∧ LocalizationEngine.getSavedLanguage b w = None.
Proof.
  intros Hls. split.
  - unfold LocalizationEngine.saveLanguage. by rewrite Hls.
  - apply getSavedLanguage_storage_unavailable. by rewrite Hls.
Qed.

(** [setLanguage] to a code of the registry that can be loaded, or for
    which the fallback code can, on a page with a body. *)
Lemma setLanguage_own (e : LocalizationEngine.engine) (w : LocalizationEngine.world)
    (code : string) (i : Registry.LanguageInfo) :
  assoc code Registry.SUPPORTED_LANGUAGES = Some i →
  is_Some (LocalizationEngine.body_classes (LocalizationEngine.document w)) →
  getAttribute (LocalizationEngine.html (LocalizationEngine.document w)) "data-i18n"
  = None →
  is_Some (LocalizationEngine.translations e !! code)
  ∨ is_Some (available e w code)
  ∨ is_Some (available e w Registry.fallbackLanguage) →
  ∃ e3 w2 p4 bc,
    setLanguage e w code
    = (LocalizationEngine.emit e3
         (LocalizationEngine.LanguageChanged (LocalizationEngine.currentLanguage e) code),
       LocalizationEngine.saveLanguage (LocalizationEngine.set_document w2 p4) code)
    ∧ LocalizationEngine.currentLanguage e3 = Some code
    ∧ LocalizationEngine.previousLanguage e3 = LocalizationEngine.currentLanguage e
    ∧ LocalizationEngine.isInitialized e3 = LocalizationEngine.isInitialized e
    ∧ (LocalizationEngine.emitted e3 = LocalizationEngine.emitted e
       ∨ LocalizationEngine.emitted e3
         = (LocalizationEngine.emitted e ++ [LocalizationEngine.Failure])%list)
    ∧ (∀ k, is_Some (LocalizationEngine.translations e !! k) →
            is_Some (LocalizationEngine.translations e3 !! k))
    ∧ (∀ k, is_Some (available e w k) → is_Some (available e3 w2 k))
    ∧ LocalizationEngine.localStorage w2 = LocalizationEngine.localStorage w
    ∧ LocalizationEngine.network w2 = LocalizationEngine.network w
    ∧ LocalizationEngine.now w2 = LocalizationEngine.now w
    ∧ LocalizationEngine.body_classes p4 = Some bc
    ∧ LocalizationEngine.classList_contains "rtl" bc = Registry.rtl i
    ∧ LocalizationEngine.classList_contains "rtl" (LocalizationEngine.html_classes p4)
      = Registry.rtl i.
Proof.
  intros Hown Hbody Hnone Hload. unfold LocalizationEngine.setLanguage.
  rewrite (lookup_own b code i Hown). cbn [Registry.entry_truthy negb].
  set (e1 := LocalizationEngine.set_engine_languages e (Some code)
               (LocalizationEngine.currentLanguage e)).
  assert (Hstep : ∃ e2 w2,
    (if bool_decide (is_Some (LocalizationEngine.translations e1 !! code))
     then (e1, w, Ok ())
     else let '(e', w', r) := LocalizationEngine.loadLanguage e1 w code in
          (e', w', (fun _ => ()) <$> r))
    = (e2, w2, Ok ())
    ∧ LocalizationEngine.currentLanguage e2 = Some code
    ∧ LocalizationEngine.previousLanguage e2 = LocalizationEngine.currentLanguage e
    ∧ LocalizationEngine.isInitialized e2 = LocalizationEngine.isInitialized e
    ∧ LocalizationEngine.emitted e2 = LocalizationEngine.emitted e
    ∧ (∀ k, is_Some (LocalizationEngine.translations e !! k) →
            is_Some (LocalizationEngine.translations e2 !! k))
    ∧ (∀ k, is_Some (available e w k) → is_Some (available e2 w2 k))
    ∧ LocalizationEngine.localStorage w2 = LocalizationEngine.localStorage w
    ∧ LocalizationEngine.network w2 = LocalizationEngine.network w
    ∧ LocalizationEngine.now w2 = LocalizationEngine.now w
    ∧ LocalizationEngine.document w2 = LocalizationEngine.document w).
  { case_bool_decide as Hloaded.
    { exists e1, w. by repeat (split; [done|]). }
    assert (Hav : is_Some (available e1 w code)
                  ∨ is_Some (available e1 w Registry.fallbackLanguage)).
    { destruct Hload as [?|Hload]; [done|exact Hload]. }
    destruct (loadLanguage_succeeds e1 w code Hav) as [d Hd].
    pose proof (loadLanguage_frame e1 w code) as Hframe. cbv zeta in Hframe.
    destruct (LocalizationEngine.loadLanguage e1 w code) as [[e2 w2] r].
    simpl in Hd, Hframe. subst r.
    destruct Hframe as (? & ? & ? & ? & ? & ? & ? & ? & ? & ? & ? & ?).
    exists e2, w2. simpl. by repeat (split; [done|]). }
  destruct Hstep as (e2 & w2 & -> & Hcur & Hprev & Hinit & Hemit & Htr & Hav
                     & Hls & Hnet & Hnow & Hdoc).
  pose proof (updatePage_frame e2 (LocalizationEngine.document w2)) as Hpage.
  cbv zeta in Hpage.
  destruct (LocalizationEngine.updatePage b updateNavigation updateForms
              updateMetaTags e2 (LocalizationEngine.document w2)) as [e3 p3].
  simpl in Hpage.
  destruct Hpage as (Hcur3 & Hprev3 & Htr3 & Hcache3 & Hinit3 & Hemit3 & Hbody3).
  rewrite Hdoc in Hbody3. specialize (Hbody3 Hnone Hbody).
  destruct (updateRTL_own e3 p3 code i ltac:(congruence) Hown Hbody3)
    as (Hok & _ & _ & Hrtl & bc & Hbc & Hrtlb).
  destruct (LocalizationEngine.updateRTL b e3 p3) as [p4 raised].
  simpl in Hok, Hrtl, Hbc. subst raised.
  exists e3, w2, p4, bc.
  split; [by rewrite Hprev3, Hprev|].
  split; [congruence|]. split; [congruence|]. split; [congruence|].
  split; [destruct Hemit3 as [->| ->]; rewrite Hemit; auto|].
  split; [intros k Hk; rewrite Htr3; by apply Htr|].
  split; [|done].
  intros k Hk. specialize (Hav k Hk). unfold available, fresh_entry in *.
  by rewrite Hcache3.
Qed.

(** X17. [setLanguage] to a code of the registry completes whenever the
    code or the fallback code can be loaded, the page has a body and the
    root element carries no text marker, even when updating the page
    reported an error on the way: the code is the
    current language, the language before is the previous one, the last
    event is the language change from the one to the other, the class
    [rtl] on the root and on the body says whether the code is written
    right to left, and with storage available the saved language is the
    code. *)
Theorem setLanguage_switches (e : LocalizationEngine.engine)
    (w : LocalizationEngine.world) (code : string) (i : Registry.LanguageInfo) :
  assoc code Registry.SUPPORTED_LANGUAGES = Some i →
  is_Some (LocalizationEngine.body_classes (LocalizationEngine.document w)) →
  getAttribute (LocalizationEngine.html (LocalizationEngine.document w)) "data-i18n"
  = None →
  is_Some (LocalizationEngine.translations e !! code)
  ∨ is_Some (available e w code)
  ∨ is_Some (available e w Registry.fallbackLanguage) →
  let e' := (setLanguage e w code).1 in
  let p' := LocalizationEngine.document (setLanguage e w code).2 in
  LocalizationEngine.currentLanguage e' = Some code
  ∧ LocalizationEngine.previousLanguage e' = LocalizationEngine.currentLanguage e
  ∧ last (LocalizationEngine.emitted e')
    = Some (LocalizationEngine.LanguageChanged (LocalizationEngine.currentLanguage e) code)
  ∧ LocalizationEngine.classList_contains "rtl" (LocalizationEngine.html_classes p')
    = Registry.rtl i
  ∧ (∃ bc, LocalizationEngine.body_classes p' = Some bc
           ∧ LocalizationEngine.classList_contains "rtl" bc = Registry.rtl i)
  ∧ (∀ items, LocalizationEngine.localStorage w = Store items →
       LocalizationEngine.getSavedLanguage b (setLanguage e w code).2 = Some code).
Proof.
  intros Hown Hbody Hnone Hload e' p'. subst e' p'.
  destruct (setLanguage_own e w code i Hown Hbody Hnone Hload)
    as (e3 & w2 & p4 & bc & -> & Hcur & Hprev & _ & _ & _ & _ & Hls & _ & _
        & Hbc & Hrtlb & Hrtl).
  cbn [fst snd]. rewrite saveLanguage_document.
  split; [done|]. split; [done|]. split; [apply last_snoc|].
  split; [done|]. split; [by exists bc|].
  intros items Hitems. eapply saveLanguage_saved; [done|].
  simpl. by rewrite Hls.
Qed.

(** X22. When the file of the default language cannot be fetched, [init]
    of a new engine gives up at once: it makes that one request and no
    other, reports an error, and leaves the engine uninitialized with no
    [ready] event; the saved preference is not read and the page is not
    touched. *)
Theorem init_default_unavailable (w : LocalizationEngine.world) :
  LocalizationEngine.network w Registry.defaultLanguage = None →
  init LocalizationEngine.fresh w
  = (LocalizationEngine.handleError LocalizationEngine.fresh,
     LocalizationEngine.log_request w Registry.defaultLanguage).
Proof.
  intros Hnet. unfold LocalizationEngine.init.
  change (LocalizationEngine.key_of
            (LocalizationEngine.currentLanguage LocalizationEngine.fresh))
    with Registry.defaultLanguage.
  unfold LocalizationEngine.loadLanguage.
  rewrite loadLanguage_try_available.
  change (fresh_entry LocalizationEngine.fresh w Registry.defaultLanguage)
    with (@None tree).
  by rewrite Hnet.
Qed.

Lemma initializeRTL_own (e : LocalizationEngine.engine) (p : LocalizationEngine.page)
    (code : string) (i : Registry.LanguageInfo) :
  LocalizationEngine.currentLanguage e = Some code →
  assoc code Registry.SUPPORTED_LANGUAGES = Some i →
  is_Some (LocalizationEngine.body_classes p) →
  (LocalizationEngine.initializeRTL b e p).2 = false
  ∧ (Registry.rtl i = false → (LocalizationEngine.initializeRTL b e p).1 = p).
Proof.
  intros Hcur Hown Hbody. unfold LocalizationEngine.initializeRTL.
  rewrite Hcur. simpl. unfold Registry.isRTL.
  rewrite (lookup_own b code i Hown). simpl.
  destruct (Registry.rtl i); [|done].
  split; [|done]. by eapply updateRTL_own.
Qed.

(** X23. When the file of the default language can be fetched, the page
    has a body and the root element carries no text marker, [init] of a new
    engine ends initialized, with the
    saved language (a code of the registry) as the current language, or
    the default language when none is saved, and with the [ready] event
    for it as the last event.  With no saved language the document is left
    as it was: [init] alone does not translate the page. *)
Theorem init_ready (w : LocalizationEngine.world) (t : tree) :
  LocalizationEngine.network w Registry.defaultLanguage = Some t →
  is_Some (LocalizationEngine.body_classes (LocalizationEngine.document w)) →
  getAttribute (LocalizationEngine.html (LocalizationEngine.document w)) "data-i18n"
  = None →
  (∀ s, LocalizationEngine.getSavedLanguage b w = Some s →
        is_Some (assoc s Registry.SUPPORTED_LANGUAGES)) →
  let e' := (init LocalizationEngine.fresh w).1 in
  LocalizationEngine.isInitialized e' = true
  ∧ LocalizationEngine.currentLanguage e'
    = Some (default Registry.defaultLanguage (LocalizationEngine.getSavedLanguage b w))
  ∧ last (LocalizationEngine.emitted e')
    = Some (LocalizationEngine.Ready (LocalizationEngine.currentLanguage e'))
  ∧ is_Some (LocalizationEngine.translations e' !! Registry.defaultLanguage)
  ∧ (LocalizationEngine.getSavedLanguage b w = None →
     LocalizationEngine.document (init LocalizationEngine.fresh w).2
     = LocalizationEngine.document w).
Proof.
  intros Hnet Hbody Hmarker Hsaved. cbv zeta.
  change Registry.defaultLanguage with "en" in *.
  unfold LocalizationEngine.init.
  change (LocalizationEngine.key_of
            (LocalizationEngine.currentLanguage LocalizationEngine.fresh)) with "en".
  assert (Hav : available LocalizationEngine.fresh w "en" = Some t) by exact Hnet.
  destruct (loadLanguage_loads_available _ w "en" t Hav) as [Hres Hloaded].
  pose proof (loadLanguage_frame LocalizationEngine.fresh w "en") as Hframe.
  cbv zeta in Hframe.
  destruct (LocalizationEngine.loadLanguage LocalizationEngine.fresh w "en")
    as [[e1 w1] r1].
  cbn [fst snd] in Hres, Hloaded, Hframe. subst r1.
  destruct Hframe as (Hcur1 & Hprev1 & Hinit1 & Hemit1 & Hnet1 & Hnow1 & Hls1
                      & Hcookies1 & Hsearch1 & Hdoc1 & Htr1 & Hav1).
  assert (Hsame : LocalizationEngine.getSavedLanguage b w1
                  = LocalizationEngine.getSavedLanguage b w).
  { unfold LocalizationEngine.getSavedLanguage. by rewrite Hls1, Hcookies1, Hsearch1. }
  rewrite Hsame.
  assert (Hen : assoc "en" Registry.SUPPORTED_LANGUAGES
                = Some (Registry.info "English" "English" "en" false "🇺🇸" "ltr"
                          "MM/DD/YYYY" "12h" "USD" "en-US")) by reflexivity.
  (* the language switch, when there is one *)
  assert (Hswitch : ∃ e2 w2 code i,
    match LocalizationEngine.getSavedLanguage b w with
    | Some s =>
        if negb (String.eqb s "")
           && negb (bool_decide (Some s = LocalizationEngine.currentLanguage e1))
        then setLanguage e1 w1 s else (e1, w1)
    | None => (e1, w1)
    end = (e2, w2)
    ∧ LocalizationEngine.currentLanguage e2 = Some code
    ∧ code = default "en" (LocalizationEngine.getSavedLanguage b w)
    ∧ assoc code Registry.SUPPORTED_LANGUAGES = Some i
    ∧ is_Some (LocalizationEngine.body_classes (LocalizationEngine.document w2))
    ∧ is_Some (LocalizationEngine.translations e2 !! "en")
    ∧ (LocalizationEngine.getSavedLanguage b w = None →
       LocalizationEngine.document w2 = LocalizationEngine.document w
       ∧ Registry.rtl i = false)).
  { destruct (LocalizationEngine.getSavedLanguage b w) as [s|] eqn:Hs.
    2: { eexists e1, w1, "en", _. rewrite Hdoc1.
         split; [done|]. split; [done|]. split; [done|]. split; [exact Hen|].
         split; [done|]. split; [by eexists|]. done. }
    destruct (Hsaved s eq_refl) as [i Hown].
    destruct (negb (String.eqb s "")
              && negb (bool_decide (Some s = LocalizationEngine.currentLanguage e1)))
      eqn:Hcond.
    2: { assert (s = "en") as ->.
         { apply andb_false_iff in Hcond as [Hcond|Hcond].
           - apply negb_false_iff, String.eqb_eq in Hcond. subst s. done.
           - apply negb_false_iff, bool_decide_eq_true in Hcond.
             rewrite Hcur1 in Hcond. by injection Hcond. }
         eexists e1, w1, "en", _. rewrite Hdoc1.
         split; [done|]. split; [done|]. split; [done|]. split; [exact Hen|].
         split; [done|]. split; [by eexists|]. done. }
    assert (Hbody1 : is_Some (LocalizationEngine.body_classes
                                (LocalizationEngine.document w1)))
      by by rewrite Hdoc1.
    assert (Hload : is_Some (LocalizationEngine.translations e1 !! s)
                    ∨ is_Some (available e1 w1 s)
                    ∨ is_Some (available e1 w1 Registry.fallbackLanguage)).
    { right. right. apply Hav1. by eexists. }
    assert (Hnone1 : getAttribute
                       (LocalizationEngine.html (LocalizationEngine.document w1))
                       "data-i18n" = None)
      by by rewrite Hdoc1.
    destruct (setLanguage_own e1 w1 s i Hown Hbody1 Hnone1 Hload)
      as (e3 & w2 & p4 & bc & Heq & Hcur3 & _ & _ & _ & Htr3 & _ & _ & _ & _
          & Hbc & _ & _).
    eexists _, _, s, i. split; [exact Heq|].
    split; [done|]. split; [done|]. split; [done|].
    rewrite saveLanguage_document. simpl. split; [by eexists|].
    split; [|done]. apply Htr3. by eexists. }
  destruct Hswitch as (e2 & w2 & code & i & -> & Hcur2 & Hcode & Hown & Hbody2
                       & Htr2 & Hnone).
  change Registry.lazyLoading with true. cbn iota.
  pose proof (preloadLanguages_frame e2 w2 Registry.preloadLanguages) as Hpre.
  cbv zeta in Hpre.
  destruct (LocalizationEngine.preloadLanguages e2 w2 Registry.preloadLanguages)
    as [e3 w3].
  cbn [fst snd] in Hpre.
  destruct Hpre as (_ & Htr3 & Hcur3 & _ & _ & _ & _ & Hdoc3).
  rewrite <- Hdoc3 in Hbody2.
  destruct (initializeRTL_own e3 (LocalizationEngine.document w3) code i
              ltac:(congruence) Hown Hbody2) as [Hok Hltr].
  destruct (LocalizationEngine.initializeRTL b e3 (LocalizationEngine.document w3))
    as [p4 raised].
  cbn [fst snd] in Hok, Hltr. subst raised. cbn [fst snd].
  cbn [LocalizationEngine.emit LocalizationEngine.isInitialized
       LocalizationEngine.currentLanguage LocalizationEngine.emitted
       LocalizationEngine.translations].
  split; [done|]. split; [congruence|]. split; [apply last_snoc|].
  split; [by apply Htr3|].
  intros Hs. destruct (Hnone Hs) as [Hdoc2 Hrtl].
  cbn [LocalizationEngine.document LocalizationEngine.set_document].
  rewrite (Hltr Hrtl). congruence.
Qed.

(** X24. [destroy] forgets every tree but not the previous language:
    afterwards [getTranslation] without a tree of its own finds nothing for
    any key, no cache entry is left, so that the next load of a code asks
    the network, and the engine is uninitialized with the default language
    as the current one; but [previousLanguage] is kept, and a call of
    [setLanguage] with an unsupported code then makes that earlier
    language the current one. *)
Theorem destroy_forgets (e : LocalizationEngine.engine)
    (w : LocalizationEngine.world) (key code unsupported : string) (data : tree) :
  LocalizationEngine.network w code = Some data →
  Registry.entry_truthy <$> Registry.lookup b unsupported = Ok false →
  let e' := LocalizationEngine.destroy e in
  LocalizationEngine.getTranslation b (LocalizationEngine.stored_translations e')
    key VNull = Ok VNull
  ∧ LocalizationEngine.isInitialized e' = false
  ∧ LocalizationEngine.getCurrentLanguage e' = Some Registry.defaultLanguage
  ∧ LocalizationEngine.loadLanguage e' w code
    = (LocalizationEngine.set_translation
         (LocalizationEngine.set_cache e' code data (LocalizationEngine.now w))
         code data,
       LocalizationEngine.log_request w code, Ok data)
  ∧ LocalizationEngine.currentLanguage (setLanguage e' w unsupported).1
    = LocalizationEngine.previousLanguage e.
Proof.
  intros Hnet Hunsupported e'. subst e'. repeat (split; [done|]). split.
  - unfold LocalizationEngine.loadLanguage. rewrite loadLanguage_try_available.
    change (fresh_entry (LocalizationEngine.destroy e) w code) with (@None tree).
    by rewrite Hnet.
  - unfold LocalizationEngine.setLanguage.
    destruct (Registry.lookup b unsupported) as [entry|]; simpl in *; [|done].
    injection Hunsupported as ->. done.
Qed.

End SetLanguage.

(** *** The order of the saved preferences *)

Section SavedLanguage.
Variable b : Browser.

(** X20. With nothing stored under the key in [localStorage], a code of
    the registry in the cookie is the saved language, whatever the URL
    says; with no cookie at all, the saved language is the code of the
    registry in the URL parameter; and with neither there is none. *)
Theorem getSavedLanguage_cookie_then_url (w : LocalizationEngine.world)
    (code : string) (i : Registry.LanguageInfo) :
  assoc code Registry.SUPPORTED_LANGUAGES = Some i →
  getItem (LocalizationEngine.localStorage w) Registry.localStorageKey = Ok None →
  (∀ rest, LocalizationEngine.cookies w = (Registry.cookieName, code) :: rest →
     LocalizationEngine.getSavedLanguage b w = Some code)
  ∧ (LocalizationEngine.cookies w = [] →
     assoc Registry.urlParameter (LocalizationEngine.search w) = Some code →
     LocalizationEngine.getSavedLanguage b w = Some code)
  ∧ (LocalizationEngine.cookies w = [] →
     assoc Registry.urlParameter (LocalizationEngine.search w) = None →
     LocalizationEngine.getSavedLanguage b w = None).
Proof.
  intros Hown Hstored.
  pose proof (lookup_own b code i Hown) as Hlookup.
  pose proof (registry_code_nonempty code i Hown) as Hcode.
  apply String.eqb_neq in Hcode.
  unfold LocalizationEngine.getSavedLanguage. rewrite Hstored.
  cbn [mbind outcome_bind].
  split; [|split].
  - intros rest Hjar. rewrite Hjar.
    assert (Hsplit : ∃ more,
              Str.split ";" (LocalizationEngine.cookie_string
                               ((Registry.cookieName, code) :: rest))
              = ("marln-lang=" ++ code) :: more).
    { unfold LocalizationEngine.cookie_string.
      assert (Hfree : sep_free ";" ("marln-lang=" ++ code) = true).
      { clear -Hown. cbn [assoc Registry.SUPPORTED_LANGUAGES] in Hown.
        repeat match type of Hown with
               | (if String.eqb code ?k then _ else _) = _ =>
                   let Hk := fresh "Hk" in
                   destruct (String.eqb code k) eqn:Hk;
                   [apply String.eqb_eq in Hk; by subst code|]
               end.
        done. }
      destruct rest as [|c rest].
      - exists []. exact (split_one ";" _ Hfree).
      - exists (Str.split ";"
                  (" " ++ String.concat "; "
                            (map (fun c => c.1 ++ "=" ++ c.2) (c :: rest)))).
        exact (split_app_sep ";" _ _ Hfree). }
    destruct Hsplit as [more ->].
    assert (Hparts : Str.split "=" (LocalizationEngine.trim ("marln-lang=" ++ code))
                     = ["marln-lang"; code]).
    { clear -Hown. cbn [assoc Registry.SUPPORTED_LANGUAGES] in Hown.
      repeat match type of Hown with
             | (if String.eqb code ?k then _ else _) = _ =>
                 let Hk := fresh "Hk" in
                 destruct (String.eqb code k) eqn:Hk;
                 [apply String.eqb_eq in Hk; by subst code|]
             end.
      done. }
    rewrite Hparts. cbn [hd nth_error default].
    change (String.eqb "marln-lang" Registry.cookieName) with true. cbn iota.
    change (id code) with code. rewrite Hlookup. done.
  - intros Hjar Hurl. rewrite Hjar, Hurl. simpl. rewrite Hcode. simpl.
    by rewrite Hlookup.
  - intros Hjar Hurl. rewrite Hjar, Hurl. done.
Qed.

End SavedLanguage.

(** *** The two stored preferences *)

(** X21. The toggle and the engine keep their preferences under different
    keys of [localStorage] and do not see each other's: what the toggle
    saves does not change the engine's saved language, and what the engine
    saves does not change the toggle's stored language. *)
Theorem preferences_independent (b : Browser) (w : LocalizationEngine.world)
    (language code : string) :
  LocalizationEngine.getSavedLanguage b
    {| LocalizationEngine.network := LocalizationEngine.network w;
       LocalizationEngine.requests := LocalizationEngine.requests w;
       LocalizationEngine.now := LocalizationEngine.now w;
       LocalizationEngine.localStorage :=
         SimpleLanguageToggle.saveLanguagePreference
           (LocalizationEngine.localStorage w) language;
       LocalizationEngine.cookies := LocalizationEngine.cookies w;
       LocalizationEngine.search := LocalizationEngine.search w;
       LocalizationEngine.document := LocalizationEngine.document w |}
  = LocalizationEngine.getSavedLanguage b w
  ∧ SimpleLanguageToggle.getStoredLanguage
      (LocalizationEngine.localStorage (LocalizationEngine.saveLanguage w code))
    = SimpleLanguageToggle.getStoredLanguage (LocalizationEngine.localStorage w).
Proof.
  split.
  - unfold LocalizationEngine.getSavedLanguage,
      SimpleLanguageToggle.saveLanguagePreference.
    cbn [LocalizationEngine.localStorage LocalizationEngine.cookies
         LocalizationEngine.search].
    destruct (LocalizationEngine.localStorage w) as [|items]; [done|].
    simpl. by rewrite lookup_insert_ne.
  - unfold LocalizationEngine.saveLanguage, SimpleLanguageToggle.getStoredLanguage.
    destruct (LocalizationEngine.localStorage w) as [|items] eqn:Hls; simpl.
    + by rewrite Hls.
    + by rewrite lookup_insert_ne.
Qed.

(** *** The event system *)

Section EventSystem.
Context {Data State : Type}.
Implicit Types (callback : @Events.listener Data State).
Implicit Types (this : @Events.listeners Data State).

(** X25. [emit] calls the listeners of the event in the order in which
    [on] registered them, each on the state that the one before has left,
    whether that one raised or not: a listener registered last runs last,
    after all the earlier ones.  Registering a listener for one event does
    not change what [emit] does for another. *)
Theorem emit_on (event other : string) (data : Data) callback this (s : State) :
  Events.emit event data (Events.on event callback this) s
  = (callback data (Events.emit event data this s)).1
  ∧ (other ≠ event →
     Events.emit other data (Events.on event callback this) s
     = Events.emit other data this s).
Proof.
  unfold Events.emit, Events.on, Events.listeners, Events.listener in *.
  cbv zeta. split.
  - rewrite lookup_insert_eq.
    case_bool_decide as Hsome.
    + destruct Hsome as [callbacks Hsome]. rewrite Hsome. simpl.
      rewrite fold_left_app. simpl. by destruct (callback data _).
    + rewrite lookup_insert_eq.
      destruct (this !! event) as [callbacks|] eqn:Hnone.
      { exfalso. apply Hsome. by eexists. }
      simpl. by destruct (callback data s).
  - intros Hne. rewrite lookup_insert_ne by done.
    case_bool_decide; [done|]. by rewrite lookup_insert_ne.
Qed.

End EventSystem.

(** *** Examples *)

Lemma registry_helpers_agree_example :
  Registry.isRTL StandardHost.es_host "ar" = Ok true
  ∧ Registry.getDirection StandardHost.es_host "ar" = Ok (VStr "rtl")
  ∧ Registry.isRTL StandardHost.es_host "xx" = Ok false
  ∧ Registry.getDirection StandardHost.es_host "xx" = Ok (VStr "ltr").
Proof.
  pose proof (registry_helpers_agree StandardHost.es_host "ar"
                (or_introl (ex_intro _ _ eq_refl))) as (Hrtl & Hdir & _).
  pose proof (registry_helpers_agree StandardHost.es_host "xx" (or_intror eq_refl))
    as (Hrtl' & Hdir' & _).
  split; [exact Hrtl|]. split; [exact Hdir|]. split; [exact Hrtl'|exact Hdir'].
Defined.

Lemma loadLanguage_stores_result_example :
  (LocalizationEngine.loadLanguage LocalizationEngine.fresh (Example.world []) "ar").2
  = Ok (Node [("k", Leaf "Hello")])
  ∧ LocalizationEngine.translations
      (LocalizationEngine.loadLanguage LocalizationEngine.fresh
         (Example.world []) "ar").1.1 !! "en"
    = Some (Node [("k", Leaf "Hello")])
  ∧ LocalizationEngine.translations
      (LocalizationEngine.loadLanguage LocalizationEngine.fresh
         (Example.world []) "ar").1.1 !! "ar"
    = None.
Proof.
  split; [reflexivity|].
  destruct (loadLanguage_stores_result LocalizationEngine.fresh (Example.world [])
              "ar" (Node [("k", Leaf "Hello")]) eq_refl)
    as [[[Hav _]|(_ & _ & _ & Hfallback & Hcode)] _].
  - discriminate Hav.
  - split; [exact Hfallback|exact Hcode].
Defined.

Lemma loadLanguage_cache_window_example :
  (LocalizationEngine.loadLanguage
     (LocalizationEngine.loadLanguage LocalizationEngine.fresh
        (Example.world []) "en").1.1
     (Example.surroundings Example.offline (Store ∅) [] []) "en").2
  = Ok (Node [("k", Leaf "Hello")]).
Proof.
  destruct (loadLanguage_cache_window LocalizationEngine.fresh (Example.world [])
              "en" (Node [("k", Leaf "Hello")]) eq_refl eq_refl)
    as (_ & _ & Hlater).
  specialize (Hlater (Example.surroundings Example.offline (Store ∅) [] [])).
  exact (proj1 Hlater).
Defined.

Lemma updateHTMLAttributes_classes_example :
  getAttribute
    (LocalizationEngine.html
       (LocalizationEngine.updateHTMLAttributes Example.browser
          (LocalizationEngine.set_engine_languages LocalizationEngine.fresh
             (Some "en") (Some "en"))
          Example.site).1) "lang"
  = Some "en"
  ∧ LocalizationEngine.classList_contains "lang-en"
      (LocalizationEngine.html_classes
         (LocalizationEngine.updateHTMLAttributes Example.browser
            (LocalizationEngine.set_engine_languages LocalizationEngine.fresh
               (Some "en") (Some "en"))
            Example.site).1)
    = false.
Proof.
  destruct (updateHTMLAttributes_classes Example.browser
              (LocalizationEngine.set_engine_languages LocalizationEngine.fresh
                 (Some "en") (Some "en"))
              Example.site eq_refl)
    as (Hlang & _ & Hprevious & _).
  split; [exact Hlang|].
  exact (Hprevious "en" eq_refl ltac:(discriminate)).
Defined.

Lemma saveLanguage_round_trip_example :
  LocalizationEngine.getSavedLanguage Example.browser
    (LocalizationEngine.saveLanguage
       (Example.surroundings Example.both_languages (Store ∅)
          [("marln-lang", "en")] [("lang", "fr")])
       "ar")
  = Some "ar".
Proof.
  exact (proj1 (saveLanguage_round_trip Example.browser
                  (Example.surroundings Example.both_languages (Store ∅)
                     [("marln-lang", "en")] [("lang", "fr")])
                  "ar" _ ∅ eq_refl eq_refl)).
Defined.

Lemma storage_unavailable_example :
  LocalizationEngine.saveLanguage
    (Example.surroundings Example.both_languages Unavailable
       [("marln-lang", "ar")] [("lang", "ar")])
    "ar"
  = Example.surroundings Example.both_languages Unavailable
      [("marln-lang", "ar")] [("lang", "ar")]
  ∧ LocalizationEngine.getSavedLanguage Example.browser
      (Example.surroundings Example.both_languages Unavailable
         [("marln-lang", "ar")] [("lang", "ar")])
    = None.
Proof.
  exact (storage_unavailable Example.browser
           (Example.surroundings Example.both_languages Unavailable
              [("marln-lang", "ar")] [("lang", "ar")])
           "ar" eq_refl).
Defined.

Lemma setLanguage_switches_example :
  LocalizationEngine.currentLanguage
    (LocalizationEngine.setLanguage Example.browser Example.no_targets
       Example.no_targets Example.no_targets LocalizationEngine.fresh
       (Example.surroundings Example.both_languages (Store ∅) [] []) "ar").1
  = Some "ar"
  ∧ LocalizationEngine.classList_contains "rtl"
      (LocalizationEngine.html_classes
         (LocalizationEngine.document
            (LocalizationEngine.setLanguage Example.browser Example.no_targets
               Example.no_targets Example.no_targets LocalizationEngine.fresh
               (Example.surroundings Example.both_languages (Store ∅) [] []) "ar").2))
    = true.
Proof.
  destruct (setLanguage_switches Example.browser Example.no_targets
              Example.no_targets Example.no_targets LocalizationEngine.fresh
              (Example.surroundings Example.both_languages (Store ∅) [] []) "ar" _
              eq_refl (ex_intro _ _ eq_refl) eq_refl
              (or_intror (or_introl (ex_intro _ _ eq_refl))))
    as (Hcur & _ & _ & Hrtl & _).
  split; [exact Hcur|exact Hrtl].
Defined.

Lemma init_default_unavailable_example :
  LocalizationEngine.isInitialized
    (LocalizationEngine.init Example.browser Example.no_targets Example.no_targets
       Example.no_targets LocalizationEngine.fresh
       (Example.surroundings Example.offline
          (Store (<["marln-language" := "ar"]> ∅)) [] [])).1
  = false
  ∧ LocalizationEngine.emitted
      (LocalizationEngine.init Example.browser Example.no_targets Example.no_targets
         Example.no_targets LocalizationEngine.fresh
         (Example.surroundings Example.offline
            (Store (<["marln-language" := "ar"]> ∅)) [] [])).1
    = [LocalizationEngine.Failure].
Proof.
  rewrite (init_default_unavailable Example.browser Example.no_targets
             Example.no_targets Example.no_targets
             (Example.surroundings Example.offline
                (Store (<["marln-language" := "ar"]> ∅)) [] [])
             eq_refl).
  split; reflexivity.
Defined.

Lemma init_ready_example :
  LocalizationEngine.isInitialized
    (LocalizationEngine.init Example.browser Example.no_targets Example.no_targets
       Example.no_targets LocalizationEngine.fresh
       (Example.surroundings Example.both_languages
          (Store (<["marln-language" := "ar"]> ∅)) [] [])).1
  = true
  ∧ LocalizationEngine.currentLanguage
      (LocalizationEngine.init Example.browser Example.no_targets Example.no_targets
         Example.no_targets LocalizationEngine.fresh
         (Example.surroundings Example.both_languages
            (Store (<["marln-language" := "ar"]> ∅)) [] [])).1
    = Some "ar".
Proof.
  assert (Hsaved : ∀ s,
            LocalizationEngine.getSavedLanguage Example.browser
              (Example.surroundings Example.both_languages
                 (Store (<["marln-language" := "ar"]> ∅)) [] []) = Some s →
            is_Some (assoc s Registry.SUPPORTED_LANGUAGES)).
  { intros s Hs. vm_compute in Hs. injection Hs as <-. by eexists. }
  destruct (init_ready Example.browser Example.no_targets Example.no_targets
              Example.no_targets
              (Example.surroundings Example.both_languages
                 (Store (<["marln-language" := "ar"]> ∅)) [] [])
              (Node [("k", Leaf "Hello")]) eq_refl (ex_intro _ _ eq_refl) eq_refl
              Hsaved)
    as (Hinit & Hcur & _).
  split; [exact Hinit|exact Hcur].
Defined.

Lemma destroy_forgets_example :
  LocalizationEngine.getTranslation Example.browser
    (LocalizationEngine.stored_translations
       (LocalizationEngine.destroy (Example.init []).1))
    "k" VNull
  = Ok VNull
  ∧ LocalizationEngine.getTranslation Example.browser
      (LocalizationEngine.stored_translations (Example.init []).1) "k" VNull
    = Ok (VStr "Hello").
Proof.
  split; [|reflexivity].
  exact (proj1 (destroy_forgets Example.browser Example.no_targets Example.no_targets
                  Example.no_targets (Example.init []).1 (Example.world [])
                  "k" "en" "xx" (Node [("k", Leaf "Hello")]) eq_refl eq_refl)).
Defined.

Lemma updateContent_idempotent_example :
  match LocalizationEngine.updateContentWithDataAttributes Example.browser
          LocalizationEngine.fresh (VObj [("k", Leaf "Hello")])
          (Element (LocalizationEngine.html Example.site)
             (LocalizationEngine.content Example.site))
  with
  | (root, false) =>
      LocalizationEngine.updateContentWithDataAttributes Example.browser
        LocalizationEngine.fresh (VObj [("k", Leaf "Hello")]) root
      = (root, false)
  | (_, true) => False
  end.
Proof.
  destruct (LocalizationEngine.updateContentWithDataAttributes Example.browser
              LocalizationEngine.fresh (VObj [("k", Leaf "Hello")]) _)
    as [root [|]] eqn:Hrun.
  - discriminate Hrun.
  - exact (updateContent_idempotent Example.browser LocalizationEngine.fresh
             (VObj [("k", Leaf "Hello")]) _ root Hrun).
Defined.

Lemma getSavedLanguage_cookie_then_url_example :
  LocalizationEngine.getSavedLanguage Example.browser
    (Example.surroundings Example.both_languages (Store ∅)
       [("marln-lang", "ar"); ("theme", "dark")] [("lang", "fr")])
  = Some "ar"
  ∧ LocalizationEngine.getSavedLanguage Example.browser
      (Example.surroundings Example.both_languages (Store ∅) [] [("lang", "fr")])
    = Some "fr".
Proof.
  split.
  - exact (proj1 (getSavedLanguage_cookie_then_url Example.browser
                    (Example.surroundings Example.both_languages (Store ∅)
                       [("marln-lang", "ar"); ("theme", "dark")] [("lang", "fr")])
                    "ar" _ eq_refl eq_refl) _ eq_refl).
  - reflexivity.
Defined.


(** *** A value that the control refuses *)

Section RefusedValue.
Variable b : Browser.
Variable this : SimpleLanguageToggle.toggle.
Variable language : string.

Lemma accepts_same (e e' : element) (s : string) :
  tagName e' = tagName e →
  getAttribute e' "type" = getAttribute e "type" →
  accepts b e' s = accepts b e s.
Proof.
  intros Htag Htype.
  unfold accepts, set_value, input_type, has_numeric_value, needs_finite_value,
    has_value_property.
  rewrite Htag, Htype.
  destruct (String.eqb (tagName e) "INPUT" && _).
  { simpl. by destruct (String.eqb s ""). }
  destruct (existsb _ ["PROGRESS"; "METER"; "LI"]).
  { destruct (finite_number b (VStr s)) as [finite|]; simpl; [|done].
    by destruct (negb finite && _). }
  by destruct (existsb _ _).
Qed.

Lemma accepts_put (p : option string) (e : element) (s : string) :
  accepts b (put p None e) s = accepts b e s.
Proof.
  apply accepts_same; [apply tagName_put|by apply getAttribute_put].
Qed.

(** A file input accepts no string but the empty one. *)
Lemma accepts_file_input (e : element) (s : string) :
  tagName e = "INPUT" → input_type e = "file" → s ≠ "" → accepts b e s = false.
Proof.
  intros Htag Htype Hs. unfold accepts, set_value. rewrite Htag, Htype. simpl.
  by destruct (String.eqb_spec s "").
Qed.

(** X26. The loop over the value markers has no [try]: on a document that
    can be synchronized, when the value marker of an element that stays in
    the document is a hit with a string that the setter of [value] refuses
    on that element (any string on a file input, a string that is not a
    finite number on a [progress] or a [meter]), the pass does not complete:
    [applyTranslations] raises. *)
Theorem value_marker_refused (root : node) (path : list nat) (x : element)
    (children : list node) (key s : string) :
  loaded b this language →
  every (synchronizable b this language) root →
  node_at path root = Some (Element x children) →
  kept "data-i18n" (SimpleLanguageToggle.text_callback b this language) path root →
  getAttribute x "data-i18n-value" = Some key →
  hit b this language key = Some s →
  accepts b x s = false →
  (SimpleLanguageToggle.applyTranslations b this language root).2 = true.
Proof.
  intros Hloaded Hsync Hat Hkept Hattr Hhit Hrefused.
  destruct (SimpleLanguageToggle.applyTranslations b this language root).2 eqn:Hdone;
    [done|].
  destruct (applyTranslations_at b this language path root _ Hat Hkept Hdone)
    as [_ Hsub].
  pose proof (every_node_at _ _ _ _ Hsync Hat) as Hsyncx.
  rewrite (applyTranslations_passes b this language _ Hloaded Hsyncx) in Hsub.
  apply every_element in Hsyncx as [Hx _].
  change (apply_pass "data-i18n-placeholder" (placeholder_effect b this language)
            (apply_pass "data-i18n" (text_effect b this language) (Element x children)))
    with (sync_text b this language (Element x children)) in Hsub.
  rewrite (sync_text_node b this language x children Hx), forEach_element in Hsub.
  rewrite getAttribute_put, Hattr in Hsub by done.
  rewrite value_callback_plain, Hhit, accepts_put, Hrefused in Hsub; [done|].
  destruct Hx as [Hr _]. apply (Hr "data-i18n-value"); [|done].
  apply list_elem_of_In. simpl. auto.
Qed.

End RefusedValue.

(** On a page with a file input whose value marker is a hit, the pass
    raises and the input is left without a value. *)
Lemma value_marker_refused_example :
  SimpleLanguageToggle.applyTranslations Example.browser
    (Example.loaded "en" [("v", Leaf "Send")] []) "en"
    (Element (Example.element "HTML" [])
       [Element (Example.element "INPUT" [("type", "file"); ("data-i18n-value", "v")])
          []])
  = (Element (Example.element "HTML" [])
       [Element (Example.element "INPUT" [("type", "file"); ("data-i18n-value", "v")])
          []],
     true).
Proof.
  assert (Hsync : every (synchronizable Example.browser
                           (Example.loaded "en" [("v", Leaf "Send")] []) "en")
                    (Element (Example.element "HTML" [])
                       [Element (Example.element "INPUT"
                                   [("type", "file"); ("data-i18n-value", "v")]) []])).
  { apply every_element. split.
    { split; [closed_resolvable|]. intros key s Hattr. discriminate Hattr. }
    apply Forall_cons_2; [|apply Forall_nil_2].
    apply every_element. split; [|apply Forall_nil_2].
    split; [closed_resolvable|]. intros key s Hattr. discriminate Hattr. }
  assert (Hkept : kept "data-i18n"
                    (SimpleLanguageToggle.text_callback Example.browser
                       (Example.loaded "en" [("v", Leaf "Send")] []) "en")
                    [0%nat]
                    (Element (Example.element "HTML" [])
                       [Element (Example.element "INPUT"
                                   [("type", "file"); ("data-i18n-value", "v")]) []])).
  { split; [intros key new_children Hattr; discriminate Hattr|done]. }
  pose proof (value_marker_refused Example.browser
                (Example.loaded "en" [("v", Leaf "Send")] []) "en" _ [0%nat]
                (Example.element "INPUT" [("type", "file"); ("data-i18n-value", "v")])
                [] "v" "Send" ltac:(closed_loaded) Hsync eq_refl Hkept eq_refl
                eq_refl eq_refl) as Hraised.
  destruct (SimpleLanguageToggle.applyTranslations _ _ _ _) as [root' raised] eqn:Hrun.
  simpl in Hraised. subst raised. f_equal.
  vm_compute in Hrun. by injection Hrun as <-.
Defined.
